(** * Content-based image retrieval: the extractors, the feature store and the
      matchers of the repository, embedded in Rocq

    The repository is a collection of small C++ programs built on OpenCV:
    four extraction programs ([compute_features], [compute_featurescolorandtexture],
    [compute_featuresmulti], [compute_histo_features]) that write one text line
    per image, and six matching programs that read such lines back, score every
    record against a target and print the best ones.

    Conventions of the embedding.
    - A C++ [int] is a [Z] in the range of 32 bits; an operation whose result
      leaves that range is undefined, as signed overflow is in C++.
    - A [uchar] is a [byte]; a pixel ([Vec3b]) is three of them, in the order
      blue, green, red of the decoder.
    - A histogram cell ([CV_32F]) that is only ever incremented holds an
      integer-valued float; it is modelled by that integer, and [++] on it is
      the binary32 increment ([finc]): exact below 2^24, without effect at 2^24.
    - Any other [float] or [double] is modelled by its exact value ([fp]): a
      rational, an infinity or NaN; division by zero and the other
      exceptional cases are modelled.  Rounding to 24 or 53 bits is left out
      of the programs' functions and modelled apart: the module [Rounded]
      rounds exact values as IEEE 754 does and holds the normalizer in the
      arithmetic of the code, against which the exact one is measured; the
      module [Binary32] holds the IEEE operations of the standard library,
      with which both are compared on constants of the programs.
    - A function that may leave the defined behaviour of C++ (an element
      access outside a matrix or a vector) or throw returns an [outcome]. *)

From Stdlib Require Import ZArith List String Ascii Lia Bool.
From Stdlib Require Import Strings.Byte.
From Stdlib Require Import QArith Qcanon Qabs Qpower Lqa.
From Stdlib Require Import Floats.SpecFloat.
From Stdlib Require Import Sorting.Sorted Sorting.Permutation.
From Stdlib Require Import OrderedTypeEx.
From Equations Require Import Equations.
From Equations.Prop Require Import Logic.
From stdpp Require Import base tactics option list numbers.

Local Open Scope Z_scope.

(** ** Outcomes of a call *)

(** The error kinds of the design (section 7 of the specification). *)
Inductive error : Type :=
  | IOError
  | ParseError
  | OutOfBounds
  | DivideByZero
  | NotFound.

(** A call returns a value, throws, or leaves defined behaviour. *)
Inductive outcome (A : Type) : Type :=
  | Returned (a : A)
  | Raised (e : error)
  | Undefined.
Arguments Returned {A} a.
Arguments Raised {A} e.
Arguments Undefined {A}.

Definition bind {A B : Type} (m : outcome A) (k : A -> outcome B) : outcome B :=
  match m with
  | Returned a => k a
  | Raised e => Raised e
  | Undefined => Undefined
  end.

Notation "'do' x <- m ; k" := (bind m (fun x => k))
  (at level 10, x name, m at level 100, k at level 200).

(** [for (x : l) body], threading the loop state. *)
Fixpoint for_each {S A : Type} (l : list A) (body : A -> S -> outcome S)
    (s : S) : outcome S :=
  match l with
  | [] => Returned s
  | a :: l' => do s' <- body a s; for_each l' body s'
  end.

(** [for (int i = lo; i < hi; ++i) body]. *)
Definition for_range {S : Type} (lo hi : Z) (body : Z -> S -> outcome S)
    (s : S) : outcome S :=
  for_each (seqZ lo (hi - lo)) body s.

(** [for (int i = lo; i <= hi; ++i) body]. *)
Definition for_range_to {S : Type} (lo hi : Z) (body : Z -> S -> outcome S)
    (s : S) : outcome S :=
  for_each (seqZ lo (hi - lo + 1)) body s.

(** ** Machine integers *)

Definition INT_MIN : Z := - 2 ^ 31.
Definition INT_MAX : Z := 2 ^ 31 - 1.

(** The result of an arithmetic operation on [int]: the mathematical result
    when it fits 32 bits; signed overflow is undefined in C++. *)
Definition int_result (z : Z) : outcome Z :=
  if bool_decide (INT_MIN <= z <= INT_MAX) then Returned z else Undefined.

Definition int_mul (a b : Z) : outcome Z := int_result (a * b).
Definition int_add (a b : Z) : outcome Z := int_result (a + b).
Definition int_sub (a b : Z) : outcome Z := int_result (a - b).
(** [a / b] truncates toward zero.  Every divisor in the programs is one of
    the constants 2 and 256, for which the quotient is always defined. *)
Definition int_div (a b : Z) : Z := a ÷ b.

(** Promotion of a [uchar] to [int]. *)
Definition uchar_to_int (b : byte) : Z := Z.of_N (Byte.to_N b).

(** ** Pixel grids *)

(** [Vec3b]: [pixel[0]], [pixel[1]], [pixel[2]]. *)
Record Vec3b : Type := mkVec3b { px0 : byte; px1 : byte; px2 : byte }.

(** A decoded image: its height, its width and its pixels. *)
Record Image : Type := mkImage {
  rows : Z;
  cols : Z;
  pixel_at : Z -> Z -> Vec3b
}.

(** [image.at<Vec3b>(y, x)]: the element when it exists.  OpenCV checks the
    indices in debug builds only. *)
Definition at_ (image : Image) (y x : Z) : outcome Vec3b :=
  if bool_decide (0 <= y < rows image /\ 0 <= x < cols image)
  then Returned (pixel_at image y x)
  else Undefined.

(** A rectangle [Rect(x, y, width, height)]. *)
Record Rect : Type := mkRect {
  rect_x : Z; rect_y : Z; rect_width : Z; rect_height : Z
}.

(** ** Count histograms *)

(** [cell++] on a [float] cell holding the count [n]. *)
Definition finc (n : Z) : Z := if n <? 2 ^ 24 then n + 1 else n.

(** The cells of a [Mat] of counts, flattened in row-major order. *)
Abbreviation Hist := (list Z) (only parsing).

Definition in_bins (bins i : Z) : Prop := 0 <= i < bins.

(** [hist.at<float>(i, j, k)++] on a [bins x bins x bins] matrix. *)
Definition incr3 (bins : Z) (hist : Hist) (i j k : Z) : outcome Hist :=
  if bool_decide (in_bins bins i /\ in_bins bins j /\ in_bins bins k)
  then Returned (alter finc (Z.to_nat ((i * bins + j) * bins + k)) hist)
  else Undefined.

(** [hist.at<float>(i, j)++] on a [bins x bins] matrix. *)
Definition incr2 (bins : Z) (hist : Hist) (i j : Z) : outcome Hist :=
  if bool_decide (in_bins bins i /\ in_bins bins j)
  then Returned (alter finc (Z.to_nat (i * bins + j)) hist)
  else Undefined.

(** [hist.at<float>(i, j, k)] read back. *)
Definition hist3_at (bins : Z) (hist : Hist) (i j k : Z) : Z :=
  default 0 (hist !! Z.to_nat ((i * bins + j) * bins + k)).

Definition hist_sum (hist : Hist) : Z := foldr Z.add 0 hist.

(** [min(static_cast<int>(pixel[c] * bins / 256), bins - 1)] *)
Definition color_bin (v bins : Z) : outcome Z :=
  do product <- int_mul v bins;
  do last <- int_sub bins 1;
  Returned (Z.min (int_div product 256) last).

(** The increment shared by the whole-image and the region histogram. *)
Definition count_pixel (image : Image) (bins : Z) (y x : Z) (hist : Hist)
    : outcome Hist :=
  do pixel <- at_ image y x;
  do rBin <- color_bin (uchar_to_int (px2 pixel)) bins;
  do gBin <- color_bin (uchar_to_int (px1 pixel)) bins;
  do bBin <- color_bin (uchar_to_int (px0 pixel)) bins;
  incr3 bins hist rBin gBin bBin.

(** compute_featurescolorandtexture.cpp, custom_design.cpp and
    find_matchescolortexture.cpp: [computeRGBHistogram(image, bins)]. *)
Module compute_featurescolorandtexture.

Definition computeRGBHistogram (image : Image) (bins : Z) : outcome Hist :=
  let hist := replicate (Z.to_nat (bins * bins * bins)) 0 in
  for_range 0 (rows image) (fun y hist =>
    for_range 0 (cols image) (fun x hist =>
      count_pixel image bins y x hist) hist) hist.

End compute_featurescolorandtexture.

(** compute_featuresmulti.cpp and find_matchesmulti.cpp:
    [computeRGBHistogram(image, bins, region)] and the two halves. *)
Module compute_featuresmulti.

Definition computeRGBHistogram (image : Image) (bins : Z) (region : Rect)
    : outcome Hist :=
  let hist := replicate (Z.to_nat (bins * bins * bins)) 0 in
  do yEnd <- int_add (rect_y region) (rect_height region);
  for_range (rect_y region) yEnd (fun y hist =>
    do xEnd <- int_add (rect_x region) (rect_width region);
    for_range (rect_x region) xEnd (fun x hist =>
      count_pixel image bins y x hist) hist) hist.

Definition topHalf (image : Image) : Rect :=
  mkRect 0 0 (cols image) (int_div (rows image) 2).

Definition bottomHalf (image : Image) : Rect :=
  mkRect 0 (int_div (rows image) 2) (cols image) (int_div (rows image) 2).

End compute_featuresmulti.

(** ** Floating-point values *)

Inductive fp : Type :=
  | FNum (q : Qc)
  | FInf (negative : bool)
  | FNaN.

Definition fp_of_Z (n : Z) : fp := FNum (Q2Qc (inject_Z n)).
Definition fp_of_Q (n : Z) (d : positive) : fp := FNum (Q2Qc (n # d)).

Definition fp_zero : fp := fp_of_Z 0.
Definition fp_one : fp := fp_of_Z 1.

Definition Qc_sign (q : Qc) : comparison := (q ?= Q2Qc 0)%Qc.
Definition Qc_negative (q : Qc) : bool :=
  match Qc_sign q with Lt => true | _ => false end.

Definition fp_add (a b : fp) : fp :=
  match a, b with
  | FNaN, _ | _, FNaN => FNaN
  | FNum x, FNum y => FNum (x + y)%Qc
  | FInf s, FNum _ | FNum _, FInf s => FInf s
  | FInf s, FInf t => if Bool.eqb s t then FInf s else FNaN
  end.

Definition fp_opp (a : fp) : fp :=
  match a with
  | FNum x => FNum (- x)%Qc
  | FInf s => FInf (negb s)
  | FNaN => FNaN
  end.

Definition fp_sub (a b : fp) : fp := fp_add a (fp_opp b).

Definition fp_abs (a : fp) : fp :=
  match a with
  | FNum x => if Qc_negative x then FNum (- x)%Qc else FNum x
  | FInf _ => FInf false
  | FNaN => FNaN
  end.

Definition fp_mul (a b : fp) : fp :=
  match a, b with
  | FNaN, _ | _, FNaN => FNaN
  | FNum x, FNum y => FNum (x * y)%Qc
  | FInf s, FNum x | FNum x, FInf s =>
      match Qc_sign x with
      | Eq => FNaN
      | Lt => FInf (negb s)
      | Gt => FInf s
      end
  | FInf s, FInf t => FInf (xorb s t)
  end.

(** Division: a finite value over zero is an infinity, zero over zero is NaN.
    The sign of a zero is not kept; the zeros met here are sums of counts. *)
Definition fp_div (a b : fp) : fp :=
  match a, b with
  | FNaN, _ | _, FNaN => FNaN
  | FNum x, FNum y =>
      match Qc_sign y with
      | Eq =>
          match Qc_sign x with
          | Eq => FNaN
          | Lt => FInf true
          | Gt => FInf false
          end
      | _ => FNum (x / y)%Qc
      end
  | FNum _, FInf _ => FNum (Q2Qc 0)
  | FInf s, FNum y => FInf (xorb s (Qc_negative y))
  | FInf _, FInf _ => FNaN
  end.

(** [a < b]; every comparison with NaN is false. *)
Definition fp_ltb (a b : fp) : bool :=
  match a, b with
  | FNaN, _ | _, FNaN => false
  | FNum x, FNum y => bool_decide (x < y)%Qc
  | FNum _, FInf s => negb s
  | FInf s, FNum _ => s
  | FInf s, FInf t => s && negb t
  end.

(** [std::min(a, b)] is [(b < a) ? b : a]. *)
Definition fp_min (a b : fp) : fp := if fp_ltb b a then b else a.

(** [cv::sum(m)[0]]. *)
Definition fp_sum (m : list fp) : fp := foldr fp_add fp_zero m.

(** Same value (NaN is the same as NaN here: this is identity, not [==]). *)
Definition fp_same (a b : fp) : bool :=
  match a, b with
  | FNum x, FNum y => Qeq_bool x y
  | FInf s, FInf t => Bool.eqb s t
  | FNaN, FNaN => true
  | _, _ => false
  end.

Definition fp_same_outcome (m n : outcome fp) : bool :=
  match m, n with
  | Returned a, Returned b => fp_same a b
  | Raised _, Raised _ => true
  | Undefined, Undefined => true
  | _, _ => false
  end.

(** A computable square root for examples: exact on the squares of
    rationals, rounded down to a multiple of the inverse of the denominator
    elsewhere. *)
Definition sqrt_floor (a : fp) : fp :=
  match a with
  | FNum q =>
      if Qc_negative q then FNaN
      else FNum (Q2Qc (Z.sqrt (Qnum q * Zpos (Qden q)) # Qden q))
  | FInf false => FInf false
  | _ => FNaN
  end.

Definition is_nonneg (a : fp) : Prop :=
  match a with FNum q => (Q2Qc 0 <= q)%Qc | _ => False end.

(** [static_cast<int>(f)]: truncation toward zero, defined when the result
    fits an [int]. *)
Definition fp_to_int (a : fp) : outcome Z :=
  match a with
  | FNum q =>
      let t := Qnum q ÷ Zpos (Qden q) in
      if bool_decide (INT_MIN <= t <= INT_MAX) then Returned t else Undefined
  | _ => Undefined
  end.

(** ** The normalizer, identical in the six programs that have it *)

(** [hist.copyTo(histNorm); histNorm /= sum(hist)[0]; return histNorm;] on
    exact values; [Rounded.normalizeHistogram] below is the same function in
    the arithmetic of the code. *)
Definition normalizeHistogram (hist : list fp) : list fp :=
  let histNorm := hist in
  map (fun x => fp_div x (fp_sum hist)) histNorm.


(** A histogram of counts seen as a matrix of floats. *)
Definition counts (hist : Hist) : list fp := map fp_of_Z hist.

(** compute_histo_features.cpp and find_matcheshisto.cpp. *)
Module compute_histo_features.

(** [float r = pixel[c] / 255.0; min(static_cast<int>(r * bins), bins - 1)] *)
Definition chroma_bin (v bins : Z) : outcome Z :=
  let r := fp_div (fp_of_Z v) (fp_of_Z 255) in
  do t <- fp_to_int (fp_mul r (fp_of_Z bins));
  do last <- int_sub bins 1;
  Returned (Z.min t last).

Definition computeRGChromaticityHistogram (image : Image) (bins : Z)
    : outcome Hist :=
  let hist := replicate (Z.to_nat (bins * bins)) 0 in
  for_range 0 (rows image) (fun y hist =>
    for_range 0 (cols image) (fun x hist =>
      do pixel <- at_ image y x;
      do rBin <- chroma_bin (uchar_to_int (px2 pixel)) bins;
      do gBin <- chroma_bin (uchar_to_int (px1 pixel)) bins;
      incr2 bins hist rBin gBin) hist) hist.

End compute_histo_features.

(** ** Text streams *)

Definition comma : ascii := ","%char.
Definition newline : ascii := "010"%char.

(** The characters up to the first [delim] and the text after it. *)
Fixpoint split_at (delim : ascii) (s : string) : string * string :=
  match s with
  | EmptyString => (EmptyString, EmptyString)
  | String c s' =>
      if Ascii.eqb c delim then (EmptyString, s')
      else let '(token, rest) := split_at delim s' in (String c token, rest)
  end.

(** [getline(stream, token, delim)]: fails on an exhausted stream; otherwise
    extracts up to the delimiter, which is consumed and not stored. *)
Definition getline (stream : string) (delim : ascii) : option (string * string) :=
  match stream with
  | EmptyString => None
  | _ => Some (split_at delim stream)
  end.

Fixpoint has_charb (c : ascii) (s : string) : bool :=
  match s with
  | EmptyString => false
  | String c' s' => Ascii.eqb c' c || has_charb c s'
  end.

Lemma split_at_shorter delim s token rest :
  split_at delim s = (token, rest) ->
  (String.length rest <= String.length s)%nat.
Proof.
  revert token rest. induction s as [|c s IH]; intros token rest; simpl.
  - intros [= <- <-]. simpl. lia.
  - destruct (Ascii.eqb c delim).
    + intros [= <- <-]. lia.
    + destruct (split_at delim s) as [t r]. intros [= <- <-].
      specialize (IH _ _ eq_refl). lia.
Qed.

Lemma getline_shorter stream delim token rest :
  getline stream delim = Some (token, rest) ->
  (String.length rest < String.length stream)%nat.
Proof.
  destruct stream as [|c s]; [discriminate|].
  unfold getline. simpl.
  destruct (Ascii.eqb c delim).
  - intros [= <- <-]. lia.
  - destruct (split_at delim s) as [t r] eqn:E. intros [= <- <-].
    apply split_at_shorter in E. simpl. lia.
Qed.

(** ** Paths *)

Definition slash : ascii := "/"%char.

Fixpoint ends_with_slash (p : string) : bool :=
  match p with
  | EmptyString => false
  | String c EmptyString => Ascii.eqb c slash
  | String _ p' => ends_with_slash p'
  end.

(** [directory / name] for a relative [name], as [directory_iterator] builds
    the path of an entry. *)
Definition path_append (directory name : string) : string :=
  match directory with
  | EmptyString => name
  | _ => if ends_with_slash directory then directory ++ name
         else directory ++ String slash name
  end.

(** [fs::path(p).filename().string()]: what follows the last separator. *)
Fixpoint path_filename (p : string) : string :=
  match p with
  | EmptyString => EmptyString
  | String c p' =>
      if Ascii.eqb c slash then path_filename p'
      else if has_charb slash p' then path_filename p'
      else p
  end.

(** ** Feature records and the text of a store *)

Abbreviation FeatureVector := (list fp) (only parsing).
Abbreviation FeatureRecord := (string * list fp)%type (only parsing).

(** Successive writes to one stream. *)
Definition join (texts : list string) : string :=
  foldr String.append EmptyString texts.

Section FeatureStore.

(** [operator<<(ostream&, float)] and [std::stof], from the C++ library. *)
Variable show_float : fp -> string.
Variable stof : string -> outcome fp.

(** [outFile << filename; for (float value : featureVector) outFile << "," << value;
    outFile << endl;] *)
Definition write_record (r : FeatureRecord) : string :=
  (r.1 ++ join (map (fun value => String comma (show_float value)) r.2)
       ++ String newline EmptyString)%string.

Definition write_store (records : list FeatureRecord) : string :=
  join (map write_record records).

(** [while (getline(ss, value, ',')) featureVector.push_back(stof(value));] *)
Equations? read_values (ss : string) : outcome FeatureVector
  by wf (String.length ss) lt :=
  read_values ss with inspect (getline ss comma) := {
    | exist _ None _ := Returned [];
    | exist _ (Some (value, ss')) e :=
        do v <- stof value;
        do featureVector <- read_values ss';
        Returned (v :: featureVector) }.
Proof. eapply getline_shorter; eauto. Qed.

(** [stringstream ss(line); getline(ss, filename, ','); ...]  When the first
    extraction fails the stream stays failed and no value is read. *)
Definition parse_record (line : string) : outcome FeatureRecord :=
  match getline line comma with
  | None => Returned (EmptyString, [])
  | Some (filename, ss) =>
      do featureVector <- read_values ss;
      Returned (filename, featureVector)
  end.

(** [while (getline(inFile, line)) { ... features.push_back(...); }] *)
Equations? read_records (inFile : string) : outcome (list FeatureRecord)
  by wf (String.length inFile) lt :=
  read_records inFile with inspect (getline inFile newline) := {
    | exist _ None _ := Returned [];
    | exist _ (Some (line, inFile')) e :=
        do r <- parse_record line;
        do features <- read_records inFile';
        Returned (r :: features) }.
Proof. eapply getline_shorter; eauto. Qed.

(** [readFeatureVectorsFromFile] of custom_design.cpp and
    findmatcheswithdeepnetwork.cpp, [readHistogramFeaturesFromFile] of
    find_matchescolortexture.cpp.  A file that cannot be opened ([None]) gives
    the empty vector. *)
Definition readFeatureVectorsFromFile (inFile : option string)
    : outcome (list FeatureRecord) :=
  match inFile with
  | None => Returned []
  | Some text => read_records text
  end.

End FeatureStore.

(** ** The C++ library on decimal text, for examples

    [operator<<] on a [float] prints with six significant digits in the style
    of [%g]; [std::stof] converts the longest prefix that is a number and
    throws when there is none.  Both are parameters of the programs above;
    the functions below compute them on exact values, so that a store can be
    written and read back in examples. *)

Definition digit_char (d : Z) : ascii := ascii_of_N (Z.to_N (48 + d)).

(** The decimal digits of [n >= 0], most significant first, before [acc]. *)
Fixpoint digits_before (fuel : nat) (n : Z) (acc : string) : string :=
  match fuel with
  | O => acc
  | S fuel' =>
      let acc' := String (digit_char (n mod 10)) acc in
      if n <? 10 then acc' else digits_before fuel' (n / 10) acc'
  end.

Definition decimal (n : Z) : string :=
  digits_before (S (Z.to_nat (Z.log2 n))) n EmptyString.

(** The largest [x <= hi] with [10^x * d <= n], searched downward. *)
Fixpoint exponent_down (fuel : nat) (n d x : Z) : Z :=
  match fuel with
  | O => x
  | S fuel' =>
      let fits := if 0 <=? x then 10 ^ x * d <=? n else d <=? 10 ^ (- x) * n in
      if fits then x else exponent_down fuel' n d (x - 1)
  end.

(** [floor (log10 (n / d))] for [n, d > 0]. *)
Definition decimal_exponent (n d : Z) : Z :=
  exponent_down (S (Z.to_nat (Z.log2 n + Z.log2 d + 2))) n d (Z.log2 n + 1).

(** Rounding of [n / d] to the nearest integer, ties to even. *)
Definition round_half_even (n d : Z) : Z :=
  let q := n / d in
  let r := n mod d in
  if 2 * r <? d then q
  else if d <? 2 * r then q + 1
  else if Z.even q then q else q + 1.

Fixpoint strip_zeros (s : string) : string :=
  match s with
  | EmptyString => EmptyString
  | String c s' =>
      match strip_zeros s' with
      | EmptyString =>
          if Ascii.eqb c "0"%char then EmptyString else String c EmptyString
      | t => String c t
      end
  end.

Definition with_point (int_part frac : string) : string :=
  match strip_zeros frac with
  | EmptyString => int_part
  | f => (int_part ++ String "."%char f)%string
  end.

Fixpoint zeros (k : nat) : string :=
  match k with O => EmptyString | S k' => String "0"%char (zeros k') end.

(** The text of [n / d > 0] with six significant digits. *)
Definition show_positive (n d : Z) : string :=
  let x0 := decimal_exponent n d in
  let scaled (x : Z) :=
    if x <=? 5 then round_half_even (n * 10 ^ (5 - x)) d
    else round_half_even n (d * 10 ^ (x - 5)) in
  let m0 := scaled x0 in
  let '(m, x) := if m0 =? 1000000 then (100000, x0 + 1) else (m0, x0) in
  let ds := decimal m in
  if (x <? -4) || (6 <=? x) then
    let mantissa := with_point (substring 0 1 ds) (substring 1 5 ds) in
    let e := decimal (Z.abs x) in
    let e2 := if Z.abs x <? 10 then String "0"%char e else e in
    let sign := if x <? 0 then "-"%char else "+"%char in
    (mantissa ++ String "e"%char (String sign e2))%string
  else if 0 <=? x then
    with_point (substring 0 (Z.to_nat (x + 1)) ds)
               (substring (Z.to_nat (x + 1)) (Z.to_nat (5 - x)) ds)
  else
    with_point "0"%string (zeros (Z.to_nat (- x - 1)) ++ ds)%string.

Definition show_float_g (a : fp) : string :=
  match a with
  | FNum q =>
      match Qnum q with
      | Z0 => "0"%string
      | Zpos n => show_positive (Zpos n) (Zpos (Qden q))
      | Zneg n => String "-"%char (show_positive (Zpos n) (Zpos (Qden q)))
      end
  | FInf false => "inf"%string
  | FInf true => "-inf"%string
  | FNaN => "nan"%string
  end.

Definition is_digit (c : ascii) : bool :=
  let n := N_of_ascii c in ((48 <=? n) && (n <=? 57))%N.

Definition digit_value (c : ascii) : Z := Z.of_N (N_of_ascii c) - 48.

(** The leading digits of [s]: their value after [acc], their number, and
    the rest of the text. *)
Fixpoint take_digits (s : string) (acc : Z) (count : nat) : Z * nat * string :=
  match s with
  | String c s' =>
      if is_digit c then take_digits s' (10 * acc + digit_value c) (S count)
      else (acc, count, s)
  | EmptyString => (acc, count, s)
  end.

Definition take_sign (s : string) : bool * string :=
  match s with
  | String "-"%char s' => (true, s')
  | String "+"%char s' => (false, s')
  | _ => (false, s)
  end.

Fixpoint skip_spaces (s : string) : string :=
  match s with
  | String " "%char s' => skip_spaces s'
  | _ => s
  end.

(** [10^e] times [n / d] as a value. *)
Definition scale10 (n : Z) (e : Z) : Qc :=
  if 0 <=? e then Q2Qc (inject_Z (n * 10 ^ e))
  else Q2Qc (n # Z.to_pos (10 ^ (- e))).

Definition stof_decimal (s : string) : outcome fp :=
  let '(negative, s1) := take_sign (skip_spaces s) in
  let signed (q : Qc) := FNum (if negative then (- q)%Qc else q) in
  if String.prefix "inf" s1 then Returned (FInf negative)
  else if String.prefix "nan" s1 then Returned FNaN
  else
    let '(int_val, int_count, s2) := take_digits s1 0 0 in
    let '(mant, frac_count, s3) :=
      match s2 with
      | String "."%char s2' =>
          let '(v, k, r) := take_digits s2' int_val 0 in (v, k, r)
      | _ => (int_val, 0%nat, s2)
      end in
    if Nat.eqb (int_count + frac_count) 0 then Raised ParseError
    else
      let exponent :=
        match s3 with
        | String c s3' =>
            if Ascii.eqb c "e"%char || Ascii.eqb c "E"%char then
              let '(eneg, s4) := take_sign s3' in
              let '(e, ecount, _) := take_digits s4 0 0 in
              if Nat.eqb ecount 0 then 0 else if eneg then - e else e
            else 0
        | EmptyString => 0
        end in
      Returned (signed (scale10 mant (exponent - Z.of_nat frac_count))).

(** ** Vectors and ranking *)

(** [v[i]] on a [std::vector]. *)
Definition vec_at {A : Type} (v : list A) (i : Z) : outcome A :=
  if bool_decide (0 <= i)
  then match v !! Z.to_nat i with
       | Some a => Returned a
       | None => Undefined
       end
  else Undefined.

Definition vec_size {A : Type} (v : list A) : Z := Z.of_nat (length v).

(** A scored record, [pair<float, string>]. *)
Abbreviation Scored := (fp * string)%type (only parsing).

(** [operator<] of [std::pair]. *)
Definition pair_ltb (a b : Scored) : bool :=
  fp_ltb a.1 b.1 || (negb (fp_ltb b.1 a.1) && String.ltb a.2 b.2).

(** [greater<pair<float, string>>()]. *)
Definition pair_gtb (a b : Scored) : bool := pair_ltb b a.

(** [std::sort(first, last, comp)].  The standard fixes the result up to the
    order of equivalent elements, and asks [comp] to be a strict weak
    ordering (which excludes NaN scores); the sorted sequence is built here
    by insertion. *)
Fixpoint sort_insert {A : Type} (comp : A -> A -> bool) (x : A) (l : list A)
    : list A :=
  match l with
  | [] => [x]
  | y :: l' => if comp x y then x :: y :: l' else y :: sort_insert comp x l'
  end.

Definition std_sort {A : Type} (comp : A -> A -> bool) (l : list A) : list A :=
  foldr (sort_insert comp) [] l.

(** [for (int i = 0; i < numMatches && i < distances.size(); ++i)
      cout << distances[i].second << ... << distances[i].first << ...;]
    started at index [i] on the elements from [i] on; the result is the list of
    printed pairs. *)
Fixpoint print_top (i numMatches : Z) (distances : list Scored) : list Scored :=
  match distances with
  | [] => []
  | d :: rest =>
      if i <? numMatches then d :: print_top (i + 1) numMatches rest else []
  end.

(** What a run of a matching program leaves: its exit status and the matches
    it printed. *)
Abbreviation Report := (Z * list (fp * string))%type (only parsing).

(** compute_features.cpp. *)
Module compute_features.

(** [computeBaselineFeatureVector]: the 7x7 block around the centre. *)
Definition computeBaselineFeatureVector (image : Image) : outcome FeatureVector :=
  let centerX := int_div (cols image) 2 in
  let centerY := int_div (rows image) 2 in
  let halfSize := 3 in
  do yFirst <- int_sub centerY halfSize;
  do yLast <- int_add centerY halfSize;
  for_range_to yFirst yLast (fun y featureVector =>
    do xFirst <- int_sub centerX halfSize;
    do xLast <- int_add centerX halfSize;
    for_range_to xFirst xLast (fun x featureVector =>
      do pixel <- at_ image y x;
      Returned (featureVector ++
                [fp_of_Z (uchar_to_int (px0 pixel));
                 fp_of_Z (uchar_to_int (px1 pixel));
                 fp_of_Z (uchar_to_int (px2 pixel))]))
      featureVector) [].

Section Main.

(** The file names that [fs::directory_iterator(directory)] yields, in its
    order, and [cv::imread] ([None] for an empty matrix). *)
Variable directory_listing : string -> list string.
Variable imread : string -> option Image.
Variable show_float : fp -> string.

(** [readImageFilenames]: [entry.path().string()] of every entry. *)
Definition readImageFilenames (directory : string) : list string :=
  map (path_append directory) (directory_listing directory).

(** The loop of [main] over the file names; [outFile] is the text written so
    far.  The result is the exit status and the text of the output file. *)
Fixpoint extract_loop (featureType : string) (imageFilenames : list string)
    (outFile : string) : outcome (Z * string) :=
  match imageFilenames with
  | [] => Returned (0, outFile)
  | filename :: rest =>
      match imread filename with
      | None => extract_loop featureType rest outFile
      | Some image =>
          if String.eqb featureType "baseline" then
            do featureVector <- computeBaselineFeatureVector image;
            extract_loop featureType rest
              (outFile ++ write_record show_float (filename, featureVector))%string
          else Returned (1, outFile)
      end
  end.

(** [main], once the arguments are read and the output file is open; the
    whole of it is [compute_features_argv.main]. *)
Definition main (imageDirectory featureType : string) : outcome (Z * string) :=
  let imageFilenames := readImageFilenames imageDirectory in
  extract_loop featureType imageFilenames EmptyString.

End Main.

End compute_features.

(** find_matches.cpp. *)
Module find_matches.

(** [computeSSD]: the loop runs over the indices of [vec1]. *)
Definition computeSSD (vec1 vec2 : FeatureVector) : outcome fp :=
  for_range 0 (vec_size vec1) (fun i ssd =>
    do a <- vec_at vec1 i;
    do b <- vec_at vec2 i;
    let diff := fp_sub a b in
    Returned (fp_add ssd (fp_mul diff diff))) fp_zero.

Section Main.

Variable imread : string -> option Image.
Variable stof : string -> outcome fp.
(** The text of a file, [None] when it cannot be opened. *)
Variable open_file : string -> option string.

(** The reading loop of [main]: parse a line, score it, store the pair. *)
Equations? score_lines (targetFeatureVector : FeatureVector) (inFile : string)
    : outcome (list Scored) by wf (String.length inFile) lt :=
  score_lines targetFeatureVector inFile with inspect (getline inFile newline) := {
    | exist _ None _ := Returned [];
    | exist _ (Some (line, inFile')) e :=
        do r <- parse_record stof line;
        do distance <- computeSSD targetFeatureVector r.2;
        do distances <- score_lines targetFeatureVector inFile';
        Returned ((distance, r.1) :: distances) }.
Proof. eapply getline_shorter; eauto. Qed.

(** The end of [main]: sort ascending, print the first [numMatches]. *)
Definition top_matches (numMatches : Z) (distances : list Scored) : list Scored :=
  print_top 0 numMatches (std_sort pair_ltb distances).

Definition main (targetImageFile featureType featureFile : string)
    (numMatches : Z) : outcome Report :=
  match imread targetImageFile with
  | None => Returned (1, [])
  | Some targetImage =>
      if String.eqb featureType "baseline" then
        do targetFeatureVector <-
          compute_features.computeBaselineFeatureVector targetImage;
        match open_file featureFile with
        | None => Returned (1, [])
        | Some inFile =>
            do distances <- score_lines targetFeatureVector inFile;
            Returned (0, top_matches numMatches distances)
        end
      else Returned (1, [])
  end.

End Main.

End find_matches.

(** findmatcheswithdeepnetwork.cpp. *)
Module findmatcheswithdeepnetwork.

Section Main.

(** [std::sqrt], from the C++ library. *)
Variable fsqrt : fp -> fp.

(** [computeCosineDistance]; the loop state is
    [(dotProduct, normV1, normV2)]. *)
Definition computeCosineDistance (v1 v2 : FeatureVector) : outcome fp :=
  do sums <- for_range 0 (vec_size v1) (fun i '(dotProduct, normV1, normV2) =>
    do a <- vec_at v1 i;
    do b <- vec_at v2 i;
    Returned (fp_add dotProduct (fp_mul a b),
              fp_add normV1 (fp_mul a a),
              fp_add normV2 (fp_mul b b))) (fp_zero, fp_zero, fp_zero);
  let '(dotProduct, normV1, normV2) := sums in
  let normV1 := fsqrt normV1 in
  let normV2 := fsqrt normV2 in
  Returned (fp_sub fp_one (fp_div dotProduct (fp_mul normV1 normV2))).

(** The search of the target's own vector by the base name of its path. *)
Fixpoint find_target (features : list FeatureRecord) (targetImageBaseName : string)
    : FeatureVector :=
  match features with
  | [] => []
  | feature :: rest =>
      if String.eqb feature.1 targetImageBaseName then feature.2
      else find_target rest targetImageBaseName
  end.

Fixpoint score_all (targetFeatureVector : FeatureVector)
    (features : list FeatureRecord) : outcome (list Scored) :=
  match features with
  | [] => Returned []
  | feature :: rest =>
      do distance <- computeCosineDistance targetFeatureVector feature.2;
      do distances <- score_all targetFeatureVector rest;
      Returned ((distance, feature.1) :: distances)
  end.

Variable stof : string -> outcome fp.

Definition main (targetImageFile : string) (featureFile : option string)
    (numMatches : Z) : outcome Report :=
  let targetImageBaseName := path_filename targetImageFile in
  do features <- readFeatureVectorsFromFile stof featureFile;
  let targetFeatureVector := find_target features targetImageBaseName in
  match targetFeatureVector with
  | [] => Returned (1, [])
  | _ =>
      do distances <- score_all targetFeatureVector features;
      Returned (0, print_top 0 numMatches (std_sort pair_ltb distances))
  end.

End Main.

End findmatcheswithdeepnetwork.

(** custom_design.cpp. *)
Module custom_design.

(** [sum(min(hist1, hist2))[0]] *)
Definition computeHistogramIntersection (hist1 hist2 : list fp) : fp :=
  fp_sum (zip_with fp_min hist1 hist2).

Section Distance.

Variable fsqrt : fp -> fp.

Definition computeCosineDistance :=
  findmatcheswithdeepnetwork.computeCosineDistance fsqrt.

(** The literals [0.4f] and [0.3f]. *)
Definition w_color : fp := fp_of_Q 4 10.
Definition w_texture : fp := fp_of_Q 3 10.
Definition w_deep : fp := fp_of_Q 3 10.

(** [0.4f * colorDistance + 0.3f * textureDistance + 0.3f * deepDistance] *)
Definition weighted (colorDistance textureDistance deepDistance : fp) : fp :=
  fp_add (fp_add (fp_mul w_color colorDistance) (fp_mul w_texture textureDistance))
         (fp_mul w_deep deepDistance).

Definition computeCombinedDistance (colorHist1 colorHist2 textureHist1
    textureHist2 : list fp) (deepFeature1 deepFeature2 : FeatureVector)
    : outcome fp :=
  let colorDistance :=
    fp_sub fp_one (computeHistogramIntersection colorHist1 colorHist2) in
  let textureDistance :=
    fp_sub fp_one (computeHistogramIntersection textureHist1 textureHist2) in
  do deepDistance <- computeCosineDistance deepFeature1 deepFeature2;
  let combinedDistance := weighted colorDistance textureDistance deepDistance in
  Returned combinedDistance.

End Distance.

End custom_design.

(** find_matchescolortexture.cpp and find_matchesmulti.cpp: the ranking. *)
Module find_matchescolortexture.

(** [sort(distances.begin(), distances.end(), greater<pair<float, string>>())]
    and the printing loop. *)
Definition top_matches (numMatches : Z) (distances : list Scored) : list Scored :=
  print_top 0 numMatches (std_sort pair_gtb distances).

End find_matchescolortexture.

(** ** Unsigned sizes *)

(** [size_t] on a 64-bit platform: its arithmetic wraps around 2^64. *)
Definition SIZE_MODULUS : Z := 2 ^ 64.

(** Conversion of an [int] to [size_t]. *)
Definition size_t_of_int (z : Z) : Z := z mod SIZE_MODULUS.

Definition size_t_sub (a b : Z) : Z := (a - b) mod SIZE_MODULUS.

(** Conversion of a [size_t] to [int]: the value modulo 2^32 in two's
    complement. *)
Definition int_of_size_t (u : Z) : Z := (u + 2 ^ 31) mod 2 ^ 32 - 2 ^ 31.

(** custom_design.cpp: the two listings at the end of [findTopMatches]. *)
Module custom_design_listings.

(** [i >= distances.size() - numMatches && i >= 0] with [int i]: the first
    comparison is made in [size_t]. *)
Definition least_condition (i numMatches : Z) (distances : list Scored) : bool :=
  (size_t_sub (vec_size distances) (size_t_of_int numMatches)
     <=? size_t_of_int i)
  && (0 <=? i).

(** [for (int i = ...; i >= distances.size() - numMatches && i >= 0; --i)
      cout << distances[i].second << ... << distances[i].first << ...;]
    from index [i] on; the result is the list of printed pairs. *)
Equations? print_least_from (i numMatches : Z) (distances : list Scored)
    : outcome (list Scored) by wf (Z.to_nat (i + 1)) lt :=
  print_least_from i numMatches distances
    with inspect (least_condition i numMatches distances) := {
    | exist _ true e :=
        do d <- vec_at distances i;
        do rest <- print_least_from (i - 1) numMatches distances;
        Returned (d :: rest);
    | exist _ false _ := Returned [] }.
Proof.
  unfold least_condition in e. apply andb_true_iff in e as [_ e].
  apply Z.leb_le in e. lia.
Qed.

(** The loop started at [int i = distances.size() - 1]. *)
Definition print_least (numMatches : Z) (distances : list Scored)
    : outcome (list Scored) :=
  print_least_from (int_of_size_t (size_t_sub (vec_size distances) 1))
    numMatches distances.

(** [sort(distances.begin(), distances.end())] and the two listings: the
    best matches and the least similar results. *)
Definition print_matches (numMatches : Z) (distances : list Scored)
    : outcome (list Scored * list Scored) :=
  let distances := std_sort pair_ltb distances in
  let top := print_top 0 numMatches distances in
  do least <- print_least numMatches distances;
  Returned (top, least).

End custom_design_listings.

(** find_matcheshisto.cpp. *)
Module find_matcheshisto.

Definition computeHistogramIntersection :=
  custom_design.computeHistogramIntersection.

(** [Mat featureMat(rows, cols, CV_32F, featureVector.data())]: a matrix
    header over the first [cells] values of the vector, which are read when
    the matrix is; the vector must hold that many. *)
Definition mat_over (cells : nat) (data : list fp) : outcome (list fp) :=
  if decide (cells <= length data)%nat then Returned (take cells data)
  else Undefined.

(** The body of the reading loop of [main], once the line is parsed: the
    16 x 16 matrix over the values, normalized, and its distance to the
    target. *)
Definition score_record (targetFeature featureVector : list fp) : outcome fp :=
  do featureMat <- mat_over 256 featureVector;
  let featureMat := normalizeHistogram featureMat in
  let distance :=
    fp_sub fp_one (computeHistogramIntersection targetFeature featureMat) in
  Returned distance.

Section Main.

Variable imread : string -> option Image.
Variable stof : string -> outcome fp.
Variable open_file : string -> option string.

Equations? score_lines (targetFeature : list fp) (inFile : string)
    : outcome (list Scored) by wf (String.length inFile) lt :=
  score_lines targetFeature inFile with inspect (getline inFile newline) := {
    | exist _ None _ := Returned [];
    | exist _ (Some (line, inFile')) e :=
        do r <- parse_record stof line;
        do distance <- score_record targetFeature r.2;
        do distances <- score_lines targetFeature inFile';
        Returned ((distance, r.1) :: distances) }.
Proof. eapply getline_shorter; eauto. Qed.

Definition main (targetImageFile featureType featureFile : string)
    (numMatches : Z) : outcome Report :=
  match imread targetImageFile with
  | None => Returned (1, [])
  | Some targetImage =>
      if String.eqb featureType "rg_histogram" then
        do targetFeature <-
          compute_histo_features.computeRGChromaticityHistogram targetImage 16;
        let targetFeature := normalizeHistogram (counts targetFeature) in
        match open_file featureFile with
        | None => Returned (1, [])
        | Some inFile =>
            do distances <- score_lines targetFeature inFile;
            Returned (0, print_top 0 numMatches (std_sort pair_ltb distances))
        end
      else Returned (1, [])
  end.

End Main.

End find_matcheshisto.

(** ** Matrices of floats *)

(** [m.at<float>(i, j)] on a [bins x bins] matrix, [m.at<float>(i, j, k)] on
    a [bins x bins x bins] matrix: the cells in row-major order. *)
Definition mat2_at (bins : Z) (m : list fp) (i j : Z) : outcome fp :=
  if bool_decide (in_bins bins i /\ in_bins bins j)
  then vec_at m (i * bins + j)
  else Undefined.

Definition mat3_at (bins : Z) (m : list fp) (i j k : Z) : outcome fp :=
  if bool_decide (in_bins bins i /\ in_bins bins j /\ in_bins bins k)
  then vec_at m ((i * bins + j) * bins + k)
  else Undefined.

(** [for i, j: outFile << "," << hist.at<float>(i, j)] *)
Definition write_cells2 (show_float : fp -> string) (bins : Z) (hist : list fp)
    (outFile : string) : outcome string :=
  for_range 0 bins (fun i outFile =>
    for_range 0 bins (fun j outFile =>
      do cell <- mat2_at bins hist i j;
      Returned (outFile ++ String comma (show_float cell))%string)
      outFile) outFile.

(** [for i, j, k: outFile << "," << hist.at<float>(i, j, k)] *)
Definition write_cells3 (show_float : fp -> string) (bins : Z) (hist : list fp)
    (outFile : string) : outcome string :=
  for_range 0 bins (fun i outFile =>
    for_range 0 bins (fun j outFile =>
      for_range 0 bins (fun k outFile =>
        do cell <- mat3_at bins hist i j k;
        Returned (outFile ++ String comma (show_float cell))%string)
        outFile) outFile) outFile.

(** compute_histo_features.cpp: [writeHistogramFeaturesToFile] and [main]. *)
Module compute_histo_features_store.

Section Main.

(** The names that [fs::directory_iterator(directory)] yields,
    [entry.is_regular_file()] by the path of the entry, and [cv::imread]
    ([None] for an empty matrix). *)
Variable directory_listing : string -> list string.
Variable is_regular_file : string -> bool.
Variable imread : string -> option Image.
Variable show_float : fp -> string.

(** The loop over the entries, by their paths; [outFile] is the text written
    so far. *)
Fixpoint write_entries (filenames : list string) (outFile : string)
    : outcome string :=
  match filenames with
  | [] => Returned outFile
  | filename :: rest =>
      if is_regular_file filename then
        match imread filename with
        | None => write_entries rest outFile
        | Some image =>
            let bins := 16 in
            do counted <-
              compute_histo_features.computeRGChromaticityHistogram image bins;
            let hist := normalizeHistogram (counts counted) in
            do outFile <- write_cells2 show_float bins hist
                            (outFile ++ filename)%string;
            write_entries rest (outFile ++ String newline EmptyString)%string
        end
      else write_entries rest outFile
  end.

(** The text of the output file; [None] when it cannot be opened
    ([opens = false]), in which case nothing else is done. *)
Definition writeHistogramFeaturesToFile (directory : string) (opens : bool)
    : outcome (option string) :=
  if opens then
    do text <- write_entries
                 (map (path_append directory) (directory_listing directory))
                 EmptyString;
    Returned (Some text)
  else Returned None.

(** [main], given both arguments: its exit status and the output file. *)
Definition main (imageDirectory : string) (opens : bool)
    : outcome (Z * option string) :=
  do written <- writeHistogramFeaturesToFile imageDirectory opens;
  Returned (0, written).

End Main.

End compute_histo_features_store.

(** compute_featuresmulti.cpp: [writeHistogramFeaturesToFile] and [main]. *)
Module compute_featuresmulti_store.

Section Main.

Variable directory_listing : string -> list string.
Variable is_regular_file : string -> bool.
Variable imread : string -> option Image.
Variable show_float : fp -> string.

Fixpoint write_entries (filenames : list string) (outFile : string)
    : outcome string :=
  match filenames with
  | [] => Returned outFile
  | filename :: rest =>
      if is_regular_file filename then
        match imread filename with
        | None => write_entries rest outFile
        | Some image =>
            let bins := 8 in
            let topHalf := compute_featuresmulti.topHalf image in
            let bottomHalf := compute_featuresmulti.bottomHalf image in
            do topCounted <-
              compute_featuresmulti.computeRGBHistogram image bins topHalf;
            let topHist := normalizeHistogram (counts topCounted) in
            do bottomCounted <-
              compute_featuresmulti.computeRGBHistogram image bins bottomHalf;
            let bottomHist := normalizeHistogram (counts bottomCounted) in
            do outFile <- write_cells3 show_float bins topHist
                            (outFile ++ filename)%string;
            do outFile <- write_cells3 show_float bins bottomHist outFile;
            write_entries rest (outFile ++ String newline EmptyString)%string
        end
      else write_entries rest outFile
  end.

Definition writeHistogramFeaturesToFile (directory : string) (opens : bool)
    : outcome (option string) :=
  if opens then
    do text <- write_entries
                 (map (path_append directory) (directory_listing directory))
                 EmptyString;
    Returned (Some text)
  else Returned None.

Definition main (imageDirectory : string) (opens : bool)
    : outcome (Z * option string) :=
  do written <- writeHistogramFeaturesToFile imageDirectory opens;
  Returned (0, written).

End Main.

End compute_featuresmulti_store.

(** find_matchescolortexture.cpp: the scoring of one record in [main]. *)
Module find_matchescolortexture_scores.

(** [vector<float>(v.begin() + first, v.begin() + last)]: a copy of the
    range, which must lie inside the vector. *)
Definition vector_range (v : list fp) (first last : nat) : outcome (list fp) :=
  if decide (first <= last <= length v)%nat
  then Returned (take (last - first) (drop first v))
  else Undefined.

(** The body of the loop over the records: the record is split after
    [bins * bins * bins] values, each part is intersected with the part of
    the target at the same place, and the two sums are averaged. *)
Definition score_record (targetFeatureVector featureVector : list fp)
    : outcome fp :=
  let bins := 8 in
  do colorFeatureVector <-
    vector_range featureVector 0 (Z.to_nat (bins * bins * bins));
  do textureFeatureVector <-
    vector_range featureVector (Z.to_nat (bins * bins * bins))
      (length featureVector);
  do colorDistance <-
    for_range 0 (vec_size colorFeatureVector) (fun i colorDistance =>
      do t <- vec_at targetFeatureVector i;
      do c <- vec_at colorFeatureVector i;
      Returned (fp_add colorDistance (fp_min t c))) fp_zero;
  do textureDistance <-
    for_range 0 (vec_size textureFeatureVector) (fun i textureDistance =>
      do t <- vec_at targetFeatureVector (bins * bins * bins + i);
      do x <- vec_at textureFeatureVector i;
      Returned (fp_add textureDistance (fp_min t x))) fp_zero;
  let combinedDistance :=
    fp_div (fp_add colorDistance textureDistance) (fp_of_Z 2) in
  Returned combinedDistance.

(** The loop over the records. *)
Fixpoint score_all (targetFeatureVector : list fp)
    (features : list FeatureRecord) : outcome (list Scored) :=
  match features with
  | [] => Returned []
  | feature :: rest =>
      do combinedDistance <- score_record targetFeatureVector feature.2;
      do distances <- score_all targetFeatureVector rest;
      Returned ((combinedDistance, feature.1) :: distances)
  end.

End find_matchescolortexture_scores.

(** ** A stream over one line *)

(** The characters up to the first [delim], and the text after it when there
    is one. *)
Fixpoint split_delim (delim : ascii) (s : string) : string * option string :=
  match s with
  | EmptyString => (EmptyString, None)
  | String c s' =>
      if Ascii.eqb c delim then (EmptyString, Some s')
      else let '(token, rest) := split_delim delim s' in (String c token, rest)
  end.

(** A [stringstream] that is read: the text not yet extracted, and whether
    the stream is good (neither eofbit nor failbit is set). *)
Record sstream : Type := mk_sstream { ss_text : string; ss_good : bool }.

(** [getline(ss, value, delim)], with the content that [value] has before
    the call.  On a stream that is not good nothing is extracted and [value]
    keeps its content.  On a good stream [value] is erased and receives the
    characters up to the delimiter; when the end of the text is met instead,
    eofbit is set (and failbit when no character was extracted). *)
Definition getline_into (ss : sstream) (value : string) (delim : ascii)
    : sstream * string :=
  if ss_good ss then
    match split_delim delim (ss_text ss) with
    | (token, Some rest) => (mk_sstream rest true, token)
    | (token, None) => (mk_sstream EmptyString false, token)
    end
  else (ss, value).

(** find_matchesmulti.cpp. *)
Module find_matchesmulti.

Definition computeHistogramIntersection :=
  custom_design.computeHistogramIntersection.

(** [hist.at<float>(i, j, k) = v] on a [bins x bins x bins] matrix. *)
Definition mat3_set (bins : Z) (m : list fp) (i j k : Z) (v : fp)
    : outcome (list fp) :=
  if bool_decide (in_bins bins i /\ in_bins bins j /\ in_bins bins k)
  then Returned (<[Z.to_nat ((i * bins + j) * bins + k) := v]> m)
  else Undefined.

Section Main.

Variable imread : string -> option Image.
Variable stof : string -> outcome fp.
Variable open_file : string -> option string.

(** [for i, j, k: getline(ss, value, ','); hist.at<float>(i, j, k) = stof(value);]
    on a matrix of zeros; the state of the loops is the stream, the text in
    [value] and the matrix. *)
Definition read_cells (bins : Z) (ss : sstream) (value : string)
    : outcome (sstream * string * list fp) :=
  let hist := replicate (Z.to_nat (bins * bins * bins)) fp_zero in
  for_range 0 bins (fun i state =>
    for_range 0 bins (fun j state =>
      for_range 0 bins (fun k state =>
        let '(ss, value, hist) := state in
        let '(ss, value) := getline_into ss value comma in
        do v <- stof value;
        do hist <- mat3_set bins hist i j k v;
        Returned (ss, value, hist)) state) state) (ss, value, hist).

(** The body of the reading loop of [main] for one line. *)
Definition score_line (topHist bottomHist : list fp) (line : string)
    : outcome Scored :=
  let bins := 8 in
  let ss := mk_sstream line true in
  let '(ss, filename) := getline_into ss EmptyString comma in
  let value := EmptyString in
  do state <- read_cells bins ss value;
  let '(ss, value, hist1) := state in
  do state <- read_cells bins ss value;
  let '(ss, value, hist2) := state in
  let hist1 := normalizeHistogram hist1 in
  let hist2 := normalizeHistogram hist2 in
  let distance1 := computeHistogramIntersection topHist hist1 in
  let distance2 := computeHistogramIntersection bottomHist hist2 in
  let combinedDistance := fp_div (fp_add distance1 distance2) (fp_of_Z 2) in
  Returned (combinedDistance, filename).

Equations? score_lines (topHist bottomHist : list fp) (inFile : string)
    : outcome (list Scored) by wf (String.length inFile) lt :=
  score_lines topHist bottomHist inFile
    with inspect (getline inFile newline) := {
    | exist _ None _ := Returned [];
    | exist _ (Some (line, inFile')) e :=
        do scored <- score_line topHist bottomHist line;
        do distances <- score_lines topHist bottomHist inFile';
        Returned (scored :: distances) }.
Proof. eapply getline_shorter; eauto. Qed.

Definition main (targetImageFile featureFile : string) (numMatches : Z)
    : outcome Report :=
  match imread targetImageFile with
  | None => Returned (1, [])
  | Some targetImage =>
      let bins := 8 in
      let topHalf := compute_featuresmulti.topHalf targetImage in
      let bottomHalf := compute_featuresmulti.bottomHalf targetImage in
      do topCounted <-
        compute_featuresmulti.computeRGBHistogram targetImage bins topHalf;
      let topHist := normalizeHistogram (counts topCounted) in
      do bottomCounted <-
        compute_featuresmulti.computeRGBHistogram targetImage bins bottomHalf;
      let bottomHist := normalizeHistogram (counts bottomCounted) in
      match open_file featureFile with
      | None => Returned (1, [])
      | Some inFile =>
          do distances <- score_lines topHist bottomHist inFile;
          Returned (0, print_top 0 numMatches (std_sort pair_gtb distances))
      end
  end.

End Main.

End find_matchesmulti.

(** ** The baseline programs from their first line *)

(** compute_features.cpp: [main] with its arguments.  [argv] holds the name
    of the program and its arguments, so that [argc] is its length; [opens]
    tells whether [ofstream outFile(outputFile)] can open the file.  The
    result is the exit status and the text of the output file, [None] when no
    file was opened. *)
Module compute_features_argv.

Section Main.

Variable directory_listing : string -> list string.
Variable imread : string -> option Image.
Variable show_float : fp -> string.
Variable opens : string -> bool.

Definition main (argv : list string) : outcome (Z * option string) :=
  match argv with
  | _ :: imageDirectory :: featureType :: outputFile :: _ =>
      let imageFilenames :=
        compute_features.readImageFilenames directory_listing imageDirectory in
      if opens outputFile then
        do result <- compute_features.extract_loop imread show_float featureType
                       imageFilenames EmptyString;
        Returned (result.1, Some result.2)
      else Returned (1, None)
  | _ => Returned (1, None)
  end.

End Main.

End compute_features_argv.

(** find_matches.cpp: [main] with its arguments. *)
Module find_matches_argv.

Section Main.

Variable imread : string -> option Image.
Variable stof : string -> outcome fp.
Variable open_file : string -> option string.
(** [std::stoi], from the C++ library: it throws on a text that does not
    start with a number, or whose number does not fit an [int]. *)
Variable stoi : string -> outcome Z.

Definition main (argv : list string) : outcome Report :=
  match argv with
  | _ :: targetImageFile :: featureType :: featureFile :: numMatches :: _ =>
      do numMatches <- stoi numMatches;
      find_matches.main imread stof open_file targetImageFile featureType
        featureFile numMatches
  | _ => Returned (1, [])
  end.

End Main.

End find_matches_argv.

(** ** IEEE binary32 and binary64, for comparison with the exact model *)
Module Binary32.

Definition of_Z (n : Z) : spec_float := binary_normalize 24 128 n 0 false.
Definition add : spec_float -> spec_float -> spec_float := SFadd 24 128.
Definition mul : spec_float -> spec_float -> spec_float := SFmul 24 128.
Definition div : spec_float -> spec_float -> spec_float := SFdiv 24 128.

(** A decimal literal with suffix [f], such as [0.4f]: the float nearest to
    [n / d]. *)
Definition literal (n d : Z) : spec_float := div (of_Z n) (of_Z d).

Definition double_of_Z (n : Z) : spec_float := binary_normalize 53 1024 n 0 false.
Definition double_div : spec_float -> spec_float -> spec_float := SFdiv 53 1024.

(** Conversion of a [double] to [float]. *)
Definition of_double (f : spec_float) : spec_float :=
  match f with
  | S754_finite s m e => binary_round 24 128 s m e
  | _ => f
  end.

(** [static_cast<int>] of a finite value. *)
Definition trunc (f : spec_float) : option Z :=
  match f with
  | S754_zero _ => Some 0
  | S754_finite s m e =>
      Some (cond_Zopp s (if 0 <=? e then Zpos m * 2 ^ e else Zpos m / 2 ^ (- e)))
  | _ => None
  end.

(** [cell++] on a [float] cell that holds the integer [n]. *)
Definition incr (n : Z) : option Z := trunc (add (of_Z n) (of_Z 1)).

(** [min(static_cast<int>(r * bins), bins - 1)] with [float r = v / 255.0]. *)
Definition chroma_bin (v bins : Z) : option Z :=
  let r := of_double (double_div (double_of_Z v) (double_of_Z 255)) in
  option_map (fun t => Z.min t (bins - 1)) (trunc (mul r (of_Z bins))).

(** [0.4f * colorDistance + 0.3f * textureDistance + 0.3f * deepDistance] *)
Definition weighted (colorDistance textureDistance deepDistance : spec_float)
    : spec_float :=
  add (add (mul (literal 4 10) colorDistance) (mul (literal 3 10) textureDistance))
      (mul (literal 3 10) deepDistance).

End Binary32.

(** ** Rounding to binary32 and binary64

    The exact values above leave rounding out.  Below, a value is rounded as
    IEEE 754 rounds the exact result of an operation: to the nearest number
    of the format, ties to even. *)

Module Rounded.

(** The exponent [e] of the binade of [x <> 0]: [2^e <= |x| < 2^(e+1)]. *)
Definition binade (x : Q) : Z :=
  let n := Z.abs (Qnum x) in
  let d := QDen x in
  let e := Z.log2 n - Z.log2 d in
  if (if 0 <=? e then 2 ^ e * d <=? n else d <=? 2 ^ (- e) * n) then e
  else e - 1.

(** Rounding to the nearest number of [prec] bits, ties to even; the spacing
    of the numbers is never below [2^emin] (the subnormal numbers). *)
Definition round_to (prec emin : Z) (x : Q) : Q :=
  let spacing := (2 ^ Z.max (binade x - prec + 1) emin)%Q in
  let m := (x / spacing)%Q in
  (inject_Z (round_half_even (Qnum m) (QDen m)) * spacing)%Q.

(** The value in a format of [prec] bits whose numbers stay below [2^emax]:
    a rounded value of [2^emax] or more is an infinity. *)
Definition rounded (prec emin emax : Z) (a : fp) : fp :=
  match a with
  | FNum q =>
      let r := round_to prec emin q in
      if Qle_bool (2 ^ emax) (Qabs r) then FInf (Qc_negative q)
      else FNum (Q2Qc r)
  | _ => a
  end.

Definition float_of : fp -> fp := rounded 24 (-149) 128.
Definition double_of : fp -> fp := rounded 53 (-1074) 1024.

(** [cv::sum(hist)[0]]: the cells, added one after the other in [double]. *)
Definition sum (hist : list fp) : fp :=
  foldl (fun s x => double_of (fp_add s x)) fp_zero hist.

(** [hist.copyTo(histNorm); histNorm /= sum(hist)[0];] on a matrix of
    floats: OpenCV divides a matrix by a scalar [s] by scaling it by the
    double [1. / s], converted to [float], so that each cell becomes the
    float product of the cell and that factor. *)
Definition normalizeHistogram (hist : list fp) : list fp :=
  let alpha := float_of (double_of (fp_div fp_one (sum hist))) in
  map (fun x => float_of (fp_mul x alpha)) hist.

End Rounded.

(** The value of a float of the standard library. *)
Definition spec_float_value (f : spec_float) : fp :=
  match f with
  | S754_zero _ => fp_zero
  | S754_infinity s => FInf s
  | S754_nan => FNaN
  | S754_finite s m e =>
      FNum (Q2Qc ((if s then inject_Z (Zneg m) else inject_Z (Zpos m))
                  * 2 ^ e))
  end.

(** ** Vocabulary of the statements: predicates and sample data *)

Definition red : Vec3b := mkVec3b x00 x00 xff.

Definition gray : Vec3b := mkVec3b "d" "d" "d".

Definition uniform_image (h w : Z) (p : Vec3b) : Image :=
  mkImage h w (fun _ _ => p).

Definition valid_image (image : Image) : Prop :=
  0 <= rows image <= INT_MAX /\ 0 <= cols image <= INT_MAX.

Definition rect_inside (region : Rect) (image : Image) : Prop :=
  0 <= rect_x region /\ 0 <= rect_width region /\
  rect_x region + rect_width region <= cols image /\
  0 <= rect_y region /\ 0 <= rect_height region /\
  rect_y region + rect_height region <= rows image.

(** A histogram of [N] cells that has counted [n] pixels. *)
Definition counted (N : nat) (n : Z) (h : list Z) : Prop :=
  length h = N /\ Forall (fun c => 0 <= c) h /\ hist_sum h = n.

Definition Qc_sum (qs : list Qc) : Qc := foldr Qcplus (Q2Qc 0) qs.

Definition not_nan (d : fp * string) : Prop := d.1 <> FNaN.

(** [a] may stand before [b] in a sequence sorted by [comp]. *)
Definition in_order {A : Type} (comp : A -> A -> bool) (a b : A) : Prop :=
  comp b a = false.

(** The body of the inner loop of [computeBaselineFeatureVector]. *)
Definition push_pixel (image : Image) (y x : Z) (featureVector : list fp)
    : outcome (list fp) :=
  do pixel <- at_ image y x;
  Returned (featureVector ++
            [fp_of_Z (uchar_to_int (px0 pixel));
             fp_of_Z (uchar_to_int (px1 pixel));
             fp_of_Z (uchar_to_int (px2 pixel))]).

(** A printed value that can stand between two commas. *)
Definition clean_field (s : string) : Prop :=
  s <> EmptyString /\ has_charb comma s = false /\ has_charb newline s = false.

Definition clean_id (s : string) : Prop :=
  has_charb comma s = false /\ has_charb newline s = false.

(** A value whose printed text [stof] reads as [reread v]. *)
Definition printable (show_float : fp -> string) (stof : string -> outcome fp)
    (reread : fp -> fp) (v : fp) : Prop :=
  clean_field (show_float v) /\ stof (show_float v) = Returned (reread v).

Definition storable (show_float : fp -> string) (stof : string -> outcome fp)
    (reread : fp -> fp) (r : string * list fp) : Prop :=
  clean_id r.1 /\ Forall (printable show_float stof reread) r.2.

(** The text of a record before the end of its line. *)
Definition record_line (show_float : fp -> string) (r : string * list fp)
    : string :=
  (r.1 ++ join (map (fun value => String comma (show_float value)) r.2))%string.

(** The records of the images that decode and whose patch is read. *)
Definition extracted (imread : string -> option Image)
    (imageFilenames : list string) : list (string * list fp) :=
  flat_map (fun filename =>
    match imread filename with
    | Some image =>
        match compute_features.computeBaselineFeatureVector image with
        | Returned featureVector => [(filename, featureVector)]
        | _ => []
        end
    | None => []
    end) imageFilenames.

(** Two baseline-style records (integer channel values, one empty vector). *)
Definition two_records : list (string * list fp) :=
  [("pic.0001.jpg"%string, [fp_of_Z 100; fp_of_Z 0; fp_of_Z 255]);
   ("pic.0002.jpg"%string, [])].

(** An imageId without comma that holds a line feed: one record is written,
    two are read back. *)
Definition id_of_two_lines : string := String "a" (String newline (String "b" EmptyString)).

(** A directory with one image of 9 x 9 gray pixels. *)
Definition one_image_listing (directory : string) : list string :=
  ["pic.0001.jpg"%string].
Definition gray_imread (filename : string) : option Image :=
  Some (uniform_image 9 9 gray).

(** ** Vocabulary of the further properties *)

(** One turn of the loop of [computeSSD]. *)
Definition ssd_step (a b ssd : fp) : fp :=
  fp_add ssd (fp_mul (fp_sub a b) (fp_sub a b)).

(** One turn of the loop of [computeCosineDistance]. *)
Definition cosine_step (a b : fp) (sums : fp * fp * fp) : fp * fp * fp :=
  let '(dotProduct, normV1, normV2) := sums in
  (fp_add dotProduct (fp_mul a b),
   fp_add normV1 (fp_mul a a),
   fp_add normV2 (fp_mul b b)).

(** [pixel[c]] for [c] = 0, 1, 2. *)
Definition channel (pixel : Vec3b) (c : nat) : byte :=
  match c with
  | O => px0 pixel
  | S O => px1 pixel
  | _ => px2 pixel
  end.

(** The pixel of the centre patch at row [dy] and column [dx] of the patch. *)
Definition patch_pixel (image : Image) (dy dx : nat) : Vec3b :=
  pixel_at image (int_div (rows image) 2 - 3 + Z.of_nat dy)
                 (int_div (cols image) 2 - 3 + Z.of_nat dx).

(** [f] on every element in turn, up to the first call that does not
    return. *)
Fixpoint map_outcome {A B : Type} (f : A -> outcome B) (l : list A)
    : outcome (list B) :=
  match l with
  | [] => Returned []
  | a :: l' =>
      do b <- f a;
      do bs <- map_outcome f l';
      Returned (b :: bs)
  end.

(** A line and the line feed that ends it. *)
Definition terminated (line : string) : string :=
  (line ++ String newline EmptyString)%string.

(** Two images that agree on the rows [0 .. 2 * (rows / 2) - 1]. *)
Definition same_up_to_even_height (image image' : Image) : Prop :=
  rows image' = rows image /\ cols image' = cols image /\
  forall y x : Z,
    0 <= y < 2 * (rows image / 2) -> 0 <= x < cols image ->
    pixel_at image' y x = pixel_at image y x.

(** An image of three rows and another that differs from it in the last. *)
Definition three_rows : Image := uniform_image 3 2 red.
Definition three_rows_last_gray : Image :=
  mkImage 3 2 (fun y _ => if y =? 2 then gray else red).

(** The record that compute_histo_features.cpp keeps of an image: its
    normalized rg histogram. *)
Definition rg_values (image : Image) : list fp :=
  match compute_histo_features.computeRGChromaticityHistogram image 16 with
  | Returned counted => normalizeHistogram (counts counted)
  | _ => []
  end.

(** The record that compute_featuresmulti.cpp keeps of an image: the
    normalized histograms of its two halves, one after the other. *)
Definition half_values (image : Image) (half : Image -> Rect) : list fp :=
  match compute_featuresmulti.computeRGBHistogram image 8 (half image) with
  | Returned counted => normalizeHistogram (counts counted)
  | _ => []
  end.

Definition multi_values (image : Image) : list fp :=
  half_values image compute_featuresmulti.topHalf
  ++ half_values image compute_featuresmulti.bottomHalf.

(** The records of the regular files that decode. *)
Definition stored (is_regular_file : string -> bool)
    (imread : string -> option Image) (values : Image -> list fp)
    (filenames : list string) : list (string * list fp) :=
  flat_map (fun filename =>
    if is_regular_file filename then
      match imread filename with
      | Some image => [(filename, values image)]
      | None => []
      end
    else []) filenames.

(** An image that the histogram extractors count exactly: at least one pixel,
    at most 2^24. *)
Definition countable (image : Image) : Prop :=
  valid_image image /\ 1 <= rows image /\ 1 <= cols image /\
  cols image * rows image <= 2 ^ 24.

(** The histogram that holds 1 in its first cell and 0 elsewhere. *)
Definition unit_histogram (cells : nat) : list Qc :=
  Q2Qc 1 :: replicate (cells - 1) (Q2Qc 0).

(** The text of the fields of a line after the imageId: a comma before each
    of them. *)
Definition fields_text (fields : list string) : string :=
  join (map (String comma) fields).

(** The state of a stream that holds [fields] yet to be read: good when there
    is a field left, otherwise at its end; and the text that [value] has. *)
Definition pending (fields : list string) (value : string) : sstream * string :=
  match fields with
  | [] => (mk_sstream EmptyString false, value)
  | f :: fs => (mk_sstream (f ++ fields_text fs) true, value)
  end.

(** The fields left and the text of [value] after [n] calls of [getline]. *)
Fixpoint advance (n : nat) (fields : list string) (value : string)
    : list string * string :=
  match n, fields with
  | O, _ => (fields, value)
  | S _, [] => ([], value)
  | S n', f :: fs => advance n' fs f
  end.

(** The texts that [value] holds after each of [n] calls of [getline]. *)
Fixpoint cell_texts (n : nat) (fields : list string) (value : string)
    : list string :=
  match n, fields with
  | O, _ => []
  | S n', [] => value :: cell_texts n' [] value
  | S n', f :: fs => f :: cell_texts n' fs f
  end.

(** The score that find_matchesmulti.cpp gives the values of a record. *)
Definition multi_score (topHist bottomHist values : list fp) : fp :=
  fp_div
    (fp_add
       (custom_design.computeHistogramIntersection topHist
          (normalizeHistogram (take 512 values)))
       (custom_design.computeHistogramIntersection bottomHist
          (normalizeHistogram (drop 512 values))))
    (fp_of_Z 2).

(** One turn of the loops of [read_cells] of find_matchesmulti.cpp, by the
    number [u] of the cell in row-major order. *)
Definition read_cell (stof : string -> outcome fp) (u : Z)
    (state : sstream * string * list fp)
    : outcome (sstream * string * list fp) :=
  let '(ss, value, hist) := state in
  let '(ss, value) := getline_into ss value comma in
  do v <- stof value;
  do hist <- find_matchesmulti.mat3_set 8 hist
               (u / 64) (u mod 64 / 8) (u mod 64 mod 8) v;
  Returned (ss, value, hist).

(** A record of 520 values: 1 in the first colour cell and in the first
    texture cell, 0 elsewhere. *)
Definition unit_colour : list Qc := unit_histogram 512.
Definition unit_texture : list Qc := unit_histogram 8.

(** A value of a channel: an integer from 0 to 255. *)
Definition channel_value (x : fp) : Prop :=
  exists v : Z, 0 <= v <= 255 /\ x = fp_of_Z v.

(** The scored pairs that the matcher of find_matches.cpp makes of records:
    the distance of the target to each, with its imageId. *)
Definition ssd_scores (targetFeatureVector : list fp)
    (records : list (string * list fp)) : outcome (list (fp * string)) :=
  map_outcome (fun r : string * list fp =>
                 do distance <- find_matches.computeSSD targetFeatureVector r.2;
                 Returned (distance, r.1)) records.

(** A score that is finite and not negative. *)
Definition finite_nonneg (d : fp * string) : Prop :=
  exists q : Qc, d.1 = FNum q /\ (Q2Qc 0 <= q)%Qc.

(** The scored pairs that the matcher of find_matcheshisto.cpp makes of the
    records it reads back: the values as [stof] re-reads them, normalized
    again, against the target. *)
Definition rg_scores (reread : fp -> fp) (targetFeature : list fp)
    (records : list (string * list fp)) : list (fp * string) :=
  map (fun r : string * list fp =>
         (fp_sub fp_one
            (custom_design.computeHistogramIntersection targetFeature
               (normalizeHistogram (map reread r.2))),
          r.1)) records.

(** The check, by evaluation, that a value is printed as clean text that is
    read back as the same value. *)
Definition prints_exactly (v : fp) : bool :=
  negb (String.eqb (show_float_g v) EmptyString)
  && negb (has_charb comma (show_float_g v))
  && negb (has_charb newline (show_float_g v))
  && fp_same_outcome (stof_decimal (show_float_g v)) (Returned v).

(** A feature file that holds the baseline store of the directory "olympus"
    of [one_image_listing]. *)
Definition one_image_store (featureFile : string) : option string :=
  Some (write_store show_float_g
          (extracted gray_imread
             (compute_features.readImageFilenames one_image_listing "olympus"))).

(** A feature file that holds the text [text], whatever its name. *)
Definition file_of (text : string) (featureFile : string) : option string :=
  Some text.

(** The scored pairs that the matcher of find_matchesmulti.cpp makes of the
    records it reads back. *)
Definition multi_scores (reread : fp -> fp) (topHist bottomHist : list fp)
    (records : list (string * list fp)) : list (fp * string) :=
  map (fun r : string * list fp =>
         (multi_score topHist bottomHist (map reread r.2), r.1)) records.

(** A finite value: neither an infinity nor NaN. *)
Definition finite (x : fp) : Prop := exists q : Qc, x = FNum q.

(** Ascending order of two scored pairs, as the specification words a
    ranking by distance: neither score is NaN and the first is not the
    higher one. *)
Definition scores_ascend (a b : fp * string) : Prop :=
  match a.1, b.1 with
  | FNum x, FNum y => (x <= y)%Qc
  | FInf true, (FNum _ | FInf _) => True
  | (FNum _ | FInf _), FInf false => True
  | _, _ => False
  end.

(** A store of one line whose only value is not a number, and a store of
    one line that holds a single value. *)
Definition unreadable_store (featureFile : string) : option string :=
  Some (terminated "a.jpg,x").
Definition short_store (featureFile : string) : option string :=
  Some (terminated "a.jpg,1").

(** The quotient of a count by the sum of the counts. *)
Definition quotient (c S : Z) : Qc :=
  (Q2Qc (inject_Z c) / Q2Qc (inject_Z S))%Qc.




(** ** Decimal numerals, for the proofs about [show_float_g] and
       [stof_decimal] *)

(** A decimal digit, the text of a list of digits, and its value. *)
Definition digit (a : Z) : Prop := 0 <= a <= 9.

Definition digits_string (ds : list Z) : string :=
  foldr (fun a s => String (digit_char a) s) EmptyString ds.

Definition digits_value (ds : list Z) : Z :=
  foldl (fun v a => 10 * v + a) 0 ds.

(** The fractional part of a numeral: nothing, or a point and digits. *)
Definition point_part (frac : list Z) : string :=
  match frac with
  | [] => EmptyString
  | _ => String "."%char (digits_string frac)
  end.

(** The exponent part of a numeral: nothing, or [e], a sign and digits. *)
Definition exponent_part (e : option (bool * list Z)) : string :=
  match e with
  | None => EmptyString
  | Some (negative, ds) =>
      String "e"%char
        (String (if negative then "-"%char else "+"%char) (digits_string ds))
  end.

Definition exponent_value (e : option (bool * list Z)) : Z :=
  match e with
  | None => 0
  | Some (negative, ds) =>
      if negative then - digits_value ds else digits_value ds
  end.

(** [stof_decimal] after the spaces and the sign. *)
Definition parse_unsigned (negative : bool) (s1 : string) : outcome fp :=
  let signed (q : Qc) := FNum (if negative then (- q)%Qc else q) in
  if String.prefix "inf" s1 then Returned (FInf negative)
  else if String.prefix "nan" s1 then Returned FNaN
  else
    let '(int_val, int_count, s2) := take_digits s1 0 0 in
    let '(mant, frac_count, s3) :=
      match s2 with
      | String "."%char s2' =>
          let '(v, k, r) := take_digits s2' int_val 0 in (v, k, r)
      | _ => (int_val, 0%nat, s2)
      end in
    if Nat.eqb (int_count + frac_count) 0 then Raised ParseError
    else
      let exponent :=
        match s3 with
        | String c s3' =>
            if Ascii.eqb c "e"%char || Ascii.eqb c "E"%char then
              let '(eneg, s4) := take_sign s3' in
              let '(e, ecount, _) := take_digits s4 0 0 in
              if Nat.eqb ecount 0 then 0 else if eneg then - e else e
            else 0
        | EmptyString => 0
        end in
      Returned (signed (scale10 mant (exponent - Z.of_nat frac_count))).

(** What is read back from the text printed for a value. *)
Definition reread_g (v : fp) : fp :=
  match stof_decimal (show_float_g v) with
  | Returned w => w
  | _ => v
  end.

(** [w] is [v] to six significant digits: off by a relative error of 10^-5
    at most, and equal to [v] when [v] is an integer below 10^6. *)
Definition six_digits (v w : fp) : Prop :=
  match v, w with
  | FNum q, FNum r =>
      (Qabs (r - q) <= (1 # 100000) * Qabs q)%Q /\
      (forall k : Z, Z.abs k < 1000000 -> q = Q2Qc (inject_Z k) -> r = q)
  | FInf s, FInf t => s = t
  | FNaN, FNaN => True
  | _, _ => False
  end.

(** A value whose text [std::stof] converts within the range of [float]:
    zero, an infinity, NaN, or a magnitude from 10^-37 to 10^38. *)
Definition float_range (v : fp) : Prop :=
  match v with
  | FNum q =>
      (q == 0)%Q \/
      (1 # 10 ^ 37 <= Qabs q)%Q /\ (Qabs q <= inject_Z (10 ^ 38))%Q
  | _ => True
  end.

(** A text that does not go on with a digit. *)
Definition no_digit_ahead (s : string) : Prop :=
  match s with
  | EmptyString => True
  | String c _ => is_digit c = false
  end.

(** [10^x <= n / d], in integers. *)
Definition fits10 (n d x : Z) : Prop :=
  if 0 <=? x then 10 ^ x * d <= n else d <= 10 ^ (- x) * n.

(** * Properties *)

(** ** The exact model against binary32 *)

(** The increment of a count is exact below 2^24 and without effect there. *)
Example binary32_increment :
  map Binary32.incr [0; 1; 2; 255; 65535; 16777214; 16777215; 16777216]
  = map (fun n => Some (finc n))
        [0; 1; 2; 255; 65535; 16777214; 16777215; 16777216].
Proof. vm_compute. reflexivity. Qed.

(** For every channel value and every bin count up to 32 (the programs use
    16) binary32 gives the bin of the exact model. *)
Example binary32_chroma_bins :
  forallb (fun bins =>
    forallb (fun v =>
      match Binary32.chroma_bin v bins, compute_histo_features.chroma_bin v bins with
      | Some i, Returned j => i =? j
      | _, _ => false
      end) (seqZ 0 256)) (seqZ 1 32) = true.
Proof. vm_compute. reflexivity. Qed.

(** In binary32 the weighted sum of 0.5f, 0.2f and 0.1f is the float 0.29f. *)
Example binary32_weighted_scenario :
  Binary32.weighted (Binary32.literal 1 2) (Binary32.literal 2 10)
    (Binary32.literal 1 10)
  = Binary32.literal 29 100.
Proof. vm_compute. reflexivity. Qed.

(** ** Machine integers *)

Lemma int_result_fits z : INT_MIN <= z <= INT_MAX -> int_result z = Returned z.
Proof. intros H. unfold int_result. rewrite bool_decide_eq_true_2; auto. Qed.

Lemma int_result_returned z r : int_result z = Returned r -> r = z.
Proof. unfold int_result. destruct (bool_decide _); congruence. Qed.

Lemma int_result_not_raised z e : int_result z <> Raised e.
Proof. unfold int_result. destruct (bool_decide _); discriminate. Qed.

Lemma uchar_to_int_range b : 0 <= uchar_to_int b <= 255.
Proof.
  unfold uchar_to_int. pose proof (Byte.to_N_bounded b). lia.
Qed.

(** Without overflow the bin of a channel value is the clamped quotient. *)
Lemma color_bin_spec v bins :
  0 <= v -> 1 <= bins <= INT_MAX -> v * bins <= INT_MAX ->
  color_bin v bins = Returned (Z.min (v * bins / 256) (bins - 1)).
Proof.
  intros Hv Hb Hm. unfold color_bin, int_div, int_mul, int_sub.
  assert (Hp : 0 <= v * bins) by lia.
  rewrite (int_result_fits (v * bins)) by (unfold INT_MIN; lia).
  rewrite (int_result_fits (bins - 1)) by (unfold INT_MIN; lia).
  cbn [bind]. rewrite Z.quot_div_nonneg by lia. reflexivity.
Qed.

(** Whenever a bin is assigned, it is the clamped quotient. *)
Lemma color_bin_returned v bins idx :
  0 <= v -> 1 <= bins ->
  color_bin v bins = Returned idx -> idx = Z.min (v * bins / 256) (bins - 1).
Proof.
  intros Hv Hb. unfold color_bin, int_div, int_mul, int_sub.
  destruct (int_result (v * bins)) as [p| |] eqn:Ep; try discriminate.
  destruct (int_result (bins - 1)) as [l| |] eqn:El; try discriminate.
  apply int_result_returned in Ep as ->. apply int_result_returned in El as ->.
  cbn [bind]. intros [= <-]. rewrite Z.quot_div_nonneg by lia. reflexivity.
Qed.

Lemma color_bin_not_raised v bins e : color_bin v bins <> Raised e.
Proof.
  unfold color_bin, int_mul, int_sub.
  destruct (int_result (v * bins)) as [p| e' |] eqn:Ep; cbn [bind];
    [|intros [= ->]; exact (int_result_not_raised _ _ Ep)|discriminate].
  destruct (int_result (bins - 1)) as [l| e' |] eqn:El; cbn [bind];
    [discriminate|intros [= ->]; exact (int_result_not_raised _ _ El)|discriminate].
Qed.

Lemma color_bin_in_bins v bins :
  0 <= v <= 255 -> 1 <= bins -> 255 * bins <= INT_MAX ->
  exists i, color_bin v bins = Returned i /\ in_bins bins i.
Proof.
  intros Hv Hb Hm. eexists. split; [apply color_bin_spec; nia|].
  assert (0 <= v * bins / 256) by (apply Z.div_pos; lia).
  unfold in_bins. lia.
Qed.

Lemma red_4x4_histogram :
  compute_featurescolorandtexture.computeRGBHistogram (uniform_image 4 4 red) 8
  = Returned (<[448%nat := 16]> (replicate 512 0)).
Proof. vm_compute. reflexivity. Qed.

(** C1. For a channel value v in [0,255] and a bin count bins >= 1 (an int),
    the bucket index that the colour histogram assigns is floor(v * bins / 256)
    clamped to bins - 1: every index that is assigned is that one, and one is
    assigned whenever the product v * bins fits an int (otherwise the signed
    overflow leaves the behaviour undefined; no error is raised).  The
    histogram of the solid red 4x4 image with 8 bins holds 16 at
    (rBin, gBin, bBin) = (7, 0, 0) and 0 in every other bucket. *)
Theorem C1_bucket_index_and_red_image :
  (forall v bins : Z,
      0 <= v <= 255 -> 1 <= bins <= INT_MAX ->
      (forall idx : Z,
          color_bin v bins = Returned idx ->
          idx = Z.min (v * bins / 256) (bins - 1)) /\
      (v * bins <= INT_MAX ->
       color_bin v bins = Returned (Z.min (v * bins / 256) (bins - 1))) /\
      (forall e : error, color_bin v bins <> Raised e)) /\
  (exists hist : Hist,
      compute_featurescolorandtexture.computeRGBHistogram
        (uniform_image 4 4 red) 8 = Returned hist /\
      length hist = 512%nat /\
      hist3_at 8 hist 7 0 0 = 16 /\
      forall i j k : Z,
        in_bins 8 i -> in_bins 8 j -> in_bins 8 k ->
        (i, j, k) <> (7, 0, 0) -> hist3_at 8 hist i j k = 0).
Proof.
  split.
  - intros v bins Hv Hb. split; [|split].
    + intros idx. apply color_bin_returned; lia.
    + intros Hm. apply color_bin_spec; lia.
    + intros e. apply color_bin_not_raised.
  - eexists. split; [apply red_4x4_histogram|].
    split; [reflexivity|]. split; [reflexivity|].
    intros i j k Hi Hj Hk Hne. unfold hist3_at, in_bins in *.
    rewrite list_lookup_insert_ne.
    + rewrite lookup_replicate_2 by lia. reflexivity.
    + intros E. apply Hne.
      assert ((i * 8 + j) * 8 + k = 448) by lia.
      assert (i = 7) by lia. assert (j = 0) by lia. assert (k = 0) by lia.
      congruence.
Qed.

Lemma C1_witness :
  color_bin 255 8 = Returned (Z.min (255 * 8 / 256) (8 - 1)).
Proof.
  apply (proj1 C1_bucket_index_and_red_image 255 8);
    unfold INT_MAX; lia.
Defined.

(** ** Loops *)

Lemma for_each_inv {S A : Type} (I : nat -> S -> Prop) (l : list A)
    (body : A -> S -> outcome S) (s : S) :
  I 0%nat s ->
  (forall k a s, l !! k = Some a -> I k s ->
     exists s', body a s = Returned s' /\ I (Datatypes.S k) s') ->
  exists s', for_each l body s = Returned s' /\ I (length l) s'.
Proof.
  revert I s. induction l as [|a l IH]; intros I s H0 Hstep; simpl.
  - eauto.
  - destruct (Hstep 0%nat a s eq_refl H0) as (s1 & -> & H1). simpl.
    apply (IH (fun k => I (Datatypes.S k))); [exact H1|].
    intros k b t Hk Ht. apply (Hstep (Datatypes.S k)); assumption.
Qed.

(** A loop whose body always returns the image of the state by [f]. *)
Lemma for_each_iter {S A : Type} (f : S -> S) (l : list A)
    (body : A -> S -> outcome S) (s : S) :
  (forall a s, a ∈ l -> body a s = Returned (f s)) ->
  for_each l body s = Returned (Nat.iter (length l) f s).
Proof.
  revert s. induction l as [|a l IH]; intros s Hb; simpl; [reflexivity|].
  rewrite Hb by constructor. simpl.
  rewrite IH by (intros; apply Hb; now constructor).
  rewrite <- Nat.iter_succ_r. reflexivity.
Qed.

(** ** Counting *)

Lemma counted_zero N : counted N 0 (replicate N 0).
Proof.
  split; [apply length_replicate|]. split.
  - apply Forall_replicate. lia.
  - unfold hist_sum. induction N as [|N IH]; simpl; [reflexivity|].
    rewrite IH. reflexivity.
Qed.

Lemma hist_sum_alter (f : Z -> Z) (h : list Z) (i : nat) (c : Z) :
  h !! i = Some c -> hist_sum (alter f i h) = hist_sum h - c + f c.
Proof.
  unfold hist_sum.
  revert i. induction h as [|x h IH]; intros [|i]; simpl; try discriminate.
  - intros [= ->]. lia.
  - intros H. apply IH in H.
    change (foldr Z.add 0 (list_alter f i h) = foldr Z.add 0 h - c + f c) in H.
    lia.
Qed.

Lemma cell_le_sum (h : list Z) (i : nat) (c : Z) :
  Forall (fun c => 0 <= c) h -> h !! i = Some c -> 0 <= c <= hist_sum h.
Proof.
  unfold hist_sum.
  intros Hpos. revert i. induction Hpos as [|x h Hx Hpos IH]; intros [|i]; simpl;
    try discriminate.
  - intros [= ->]. clear IH.
    assert (0 <= foldr Z.add 0 h).
    { clear -Hpos. induction Hpos; simpl; lia. }
    lia.
  - intros H. apply IH in H. lia.
Qed.

Lemma finc_nonneg c : 0 <= c -> 0 <= finc c.
Proof. unfold finc. destruct (c <? 2 ^ 24); lia. Qed.

(** While fewer than 2^24 pixels have been counted, one more increment adds
    one to the sum. *)
Lemma counted_incr N n h idx :
  counted N n h -> (idx < N)%nat -> n < 2 ^ 24 ->
  counted N (n + 1) (alter finc idx h).
Proof.
  intros (Hlen & Hpos & Hsum) Hidx Hn.
  destruct (lookup_lt_is_Some_2 h idx) as [c Hc]; [lia|].
  pose proof (cell_le_sum h idx c Hpos Hc) as Hle.
  split; [rewrite length_alter; exact Hlen|]. split.
  - apply Forall_alter; [exact Hpos|].
    intros y _. apply finc_nonneg.
  - rewrite (hist_sum_alter finc h idx c Hc).
    unfold finc. destruct (Z.ltb_spec c (2 ^ 24)); lia.
Qed.

Lemma flat3_lt bins i j k :
  in_bins bins i -> in_bins bins j -> in_bins bins k ->
  (Z.to_nat ((i * bins + j) * bins + k) < Z.to_nat (bins * bins * bins))%nat.
Proof.
  unfold in_bins. intros Hi Hj Hk.
  assert (i * bins + j <= (bins - 1) * bins + (bins - 1)) by nia.
  assert ((i * bins + j) * bins + k < bins * bins * bins) by nia.
  assert (0 <= (i * bins + j) * bins + k) by nia.
  lia.
Qed.

Lemma flat2_lt bins i j :
  in_bins bins i -> in_bins bins j ->
  (Z.to_nat (i * bins + j) < Z.to_nat (bins * bins))%nat.
Proof.
  unfold in_bins. intros Hi Hj.
  assert (i * bins + j < bins * bins) by nia.
  assert (0 <= i * bins + j) by nia.
  lia.
Qed.

Lemma at_inside image y x :
  0 <= y < rows image -> 0 <= x < cols image ->
  at_ image y x = Returned (pixel_at image y x).
Proof.
  intros Hy Hx. unfold at_. rewrite bool_decide_eq_true_2; [reflexivity|lia].
Qed.

Lemma count_pixel_counted image bins y x h n :
  1 <= bins -> 255 * bins <= INT_MAX ->
  0 <= y < rows image -> 0 <= x < cols image ->
  counted (Z.to_nat (bins * bins * bins)) n h -> n < 2 ^ 24 ->
  exists h', count_pixel image bins y x h = Returned h' /\
             counted (Z.to_nat (bins * bins * bins)) (n + 1) h'.
Proof.
  intros Hb Hm Hy Hx Hc Hn. unfold count_pixel.
  rewrite at_inside by assumption. simpl.
  set (p := pixel_at image y x).
  destruct (color_bin_in_bins _ bins (uchar_to_int_range (px2 p)) Hb Hm)
    as (r & -> & Hr).
  destruct (color_bin_in_bins _ bins (uchar_to_int_range (px1 p)) Hb Hm)
    as (g & -> & Hg).
  destruct (color_bin_in_bins _ bins (uchar_to_int_range (px0 p)) Hb Hm)
    as (b & -> & Hbl).
  cbn [bind]. unfold incr3. rewrite bool_decide_eq_true_2 by auto.
  eexists. split; [reflexivity|].
  apply counted_incr; [assumption| |assumption].
  apply flat3_lt; assumption.
Qed.

(** The two nested loops over a rectangle [x0, x0 + w) x [y0, y0 + h) that
    lies inside the image. *)
Lemma count_rect_counted N (step : Z -> Z -> list Z -> outcome (list Z))
    x0 y0 w h hist :
  (forall y x hist n,
      y0 <= y < y0 + h -> x0 <= x < x0 + w ->
      counted N n hist -> n < 2 ^ 24 ->
      exists hist', step y x hist = Returned hist' /\ counted N (n + 1) hist') ->
  0 <= w -> 0 <= h -> w * h <= 2 ^ 24 ->
  counted N 0 hist ->
  exists hist',
    for_range y0 (y0 + h) (fun y hist =>
      for_range x0 (x0 + w) (fun x hist => step y x hist) hist) hist
    = Returned hist' /\ counted N (w * h) hist'.
Proof.
  intros Hstep Hw Hh Hwh H0. unfold for_range.
  replace (y0 + h - y0) with h by lia. replace (x0 + w - x0) with w by lia.
  destruct (for_each_inv (fun k s => counted N (Z.of_nat k * w) s)
              (seqZ y0 h) (fun y hist => for_each (seqZ x0 w)
                 (fun x hist => step y x hist) hist) hist) as (s' & Hs & Hinv).
  - simpl. exact H0.
  - intros k y s Hk Hs. apply lookup_seqZ in Hk as [-> Hk].
    destruct (for_each_inv
                (fun j s => counted N (Z.of_nat k * w + Z.of_nat j) s)
                (seqZ x0 w) (fun x hist => step (y0 + Z.of_nat k) x hist) s)
      as (s' & Hs' & Hinv').
    + replace (Z.of_nat k * w + Z.of_nat 0) with (Z.of_nat k * w) by lia.
      exact Hs.
    + intros j x t Hj Ht. apply lookup_seqZ in Hj as [-> Hj].
      destruct (Hstep (y0 + Z.of_nat k) (x0 + Z.of_nat j) t _
                  ltac:(lia) ltac:(lia) Ht) as (t' & Ht' & Hc); [nia|].
      exists t'. split; [exact Ht'|].
      replace (Z.of_nat k * w + Z.of_nat (S j))
        with (Z.of_nat k * w + Z.of_nat j + 1) by lia.
      exact Hc.
    + exists s'. split; [exact Hs'|].
      rewrite length_seqZ in Hinv'.
      replace (Z.of_nat (S k) * w) with (Z.of_nat k * w + Z.of_nat (Z.to_nat w))
        by lia.
      exact Hinv'.
  - exists s'. split; [exact Hs|].
    rewrite length_seqZ in Hinv.
    replace (w * h) with (Z.of_nat (Z.to_nat h) * w) by lia.
    exact Hinv.
Qed.

(** ** Rationals *)

Lemma Qc_this_mult (a b : Qc) : (this (a * b)%Qc == this a * this b)%Q.
Proof. unfold Qcmult, Q2Qc. simpl. apply Qred_correct. Qed.

Lemma Qc_this_inv (a : Qc) : (this (/ a)%Qc == / this a)%Q.
Proof. unfold Qcinv, Q2Qc. simpl. apply Qred_correct. Qed.

Lemma Qc_this_Q2Qc (q : Q) : (this (Q2Qc q) == q)%Q.
Proof. unfold Q2Qc. simpl. apply Qred_correct. Qed.

(** Equal fractions have the same integer quotient. *)
Lemma Q_div_eq (q : Q) (n : Z) (d : positive) :
  (q == n # d)%Q -> Qnum q / Zpos (Qden q) = n / Zpos d.
Proof.
  unfold Qeq. simpl. intros H.
  rewrite <- (Z.div_mul_cancel_r (Qnum q) (Zpos (Qden q)) (Zpos d)) by lia.
  rewrite H.
  rewrite (Z.mul_comm (Zpos (Qden q)) (Zpos d)).
  apply Z.div_mul_cancel_r; lia.
Qed.

(** The bin of a chromaticity is the clamped quotient by 255. *)
Lemma chroma_bin_spec v bins :
  0 <= v <= 255 -> 1 <= bins <= INT_MAX ->
  compute_histo_features.chroma_bin v bins
  = Returned (Z.min (v * bins / 255) (bins - 1)).
Proof.
  intros Hv Hb. unfold compute_histo_features.chroma_bin.
  change (fp_div (fp_of_Z v) (fp_of_Z 255))
    with (FNum (Q2Qc (inject_Z v) / Q2Qc (inject_Z 255))%Qc).
  unfold fp_of_Z at 1. unfold fp_mul, fp_to_int.
  set (q := (Q2Qc (inject_Z v) / Q2Qc (inject_Z 255) * Q2Qc (inject_Z bins))%Qc).
  assert (Hq : (this q == (v * bins) # 255)%Q).
  { unfold q. rewrite Qc_this_mult. unfold Qcdiv.
    rewrite Qc_this_mult, Qc_this_inv. rewrite !Qc_this_Q2Qc.
    unfold Qeq. simpl. lia. }
  assert (Ht : Qnum q / Z.pos (Qden q) = v * bins / 255)
    by (apply (Q_div_eq q _ _ Hq)).
  assert (Hn : 0 <= Qnum q).
  { unfold Qeq in Hq. cbn [Qnum Qden] in Hq.
    assert (0 <= v * bins) by nia.
    pose proof (Pos2Z.is_pos (Qden q)). nia. }
  rewrite Z.quot_div_nonneg by lia. rewrite Ht.
  assert (0 <= v * bins / 255 <= bins).
  { split; [apply Z.div_pos; nia|]. apply Z.div_le_upper_bound; nia. }
  rewrite bool_decide_eq_true_2 by (unfold INT_MIN; lia).
  cbn [bind]. unfold int_sub.
  rewrite int_result_fits by (unfold INT_MIN; lia).
  reflexivity.
Qed.

Lemma chroma_bin_in_bins v bins :
  0 <= v <= 255 -> 1 <= bins <= INT_MAX ->
  exists i, compute_histo_features.chroma_bin v bins = Returned i /\
            in_bins bins i.
Proof.
  intros Hv Hb. eexists. split; [apply chroma_bin_spec; assumption|].
  assert (0 <= v * bins / 255) by (apply Z.div_pos; nia).
  unfold in_bins. lia.
Qed.

(** ** The sum of a count histogram *)

Lemma rgb_histogram_sum image bins :
  valid_image image -> 1 <= bins -> 255 * bins <= INT_MAX ->
  cols image * rows image <= 2 ^ 24 ->
  exists hist,
    compute_featurescolorandtexture.computeRGBHistogram image bins
    = Returned hist /\
    counted (Z.to_nat (bins * bins * bins)) (cols image * rows image) hist.
Proof.
  intros [Hr Hc] Hb Hm Hn.
  unfold compute_featurescolorandtexture.computeRGBHistogram.
  apply (count_rect_counted _ (count_pixel image bins) 0 0); try lia.
  - intros y x hist n Hy Hx Hcnt Hlt.
    apply count_pixel_counted; (assumption || lia).
  - apply counted_zero.
Qed.

Lemma region_histogram_sum image bins region :
  valid_image image -> rect_inside region image ->
  1 <= bins -> 255 * bins <= INT_MAX ->
  rect_width region * rect_height region <= 2 ^ 24 ->
  exists hist,
    compute_featuresmulti.computeRGBHistogram image bins region
    = Returned hist /\
    counted (Z.to_nat (bins * bins * bins))
            (rect_width region * rect_height region) hist.
Proof.
  intros [Hr Hc] (Hx & Hw & Hxw & Hy & Hh & Hyh) Hb Hm Hn.
  unfold compute_featuresmulti.computeRGBHistogram, int_add.
  rewrite !int_result_fits by (unfold INT_MIN; lia). cbn [bind].
  apply (count_rect_counted _ (count_pixel image bins)); try lia.
  - intros y x hist n Hy' Hx' Hcnt Hlt.
    apply count_pixel_counted; (assumption || lia).
  - apply counted_zero.
Qed.

Lemma chroma_histogram_sum image bins :
  valid_image image -> 1 <= bins <= INT_MAX ->
  cols image * rows image <= 2 ^ 24 ->
  exists hist,
    compute_histo_features.computeRGChromaticityHistogram image bins
    = Returned hist /\
    counted (Z.to_nat (bins * bins)) (cols image * rows image) hist.
Proof.
  intros [Hr Hc] Hb Hn.
  unfold compute_histo_features.computeRGChromaticityHistogram.
  apply (count_rect_counted _
           (fun y x hist =>
              do pixel <- at_ image y x;
              do rBin <- compute_histo_features.chroma_bin
                           (uchar_to_int (px2 pixel)) bins;
              do gBin <- compute_histo_features.chroma_bin
                           (uchar_to_int (px1 pixel)) bins;
              incr2 bins hist rBin gBin) 0 0); try lia.
  - intros y x hist n Hy Hx Hcnt Hlt.
    rewrite at_inside by lia. cbn [bind].
    destruct (chroma_bin_in_bins _ bins
                (uchar_to_int_range (px2 (pixel_at image y x))) Hb)
      as (i & -> & Hi).
    destruct (chroma_bin_in_bins _ bins
                (uchar_to_int_range (px1 (pixel_at image y x))) Hb)
      as (j & -> & Hj).
    cbn [bind]. unfold incr2. rewrite bool_decide_eq_true_2 by auto.
    eexists. split; [reflexivity|].
    apply counted_incr; [assumption| |assumption].
    apply flat2_lt; assumption.
  - apply counted_zero.
Qed.

(** ** A cell that stops counting *)

Lemma finc_iter (n : nat) (c : Z) :
  0 <= c <= 2 ^ 24 -> Nat.iter n finc c = Z.min (c + Z.of_nat n) (2 ^ 24).
Proof.
  intros Hc. induction n as [|n IH].
  - simpl. lia.
  - rewrite Nat.iter_succ, IH. unfold finc.
    destruct (Z.ltb_spec (Z.min (c + Z.of_nat n) (2 ^ 24)) (2 ^ 24)); lia.
Qed.

Lemma iter_alter {A : Type} (f : A -> A) (i n : nat) (l : list A) :
  Nat.iter n (alter f i) l = alter (Nat.iter n f) i l.
Proof.
  induction n as [|n IH].
  - simpl. symmetry. apply list_alter_id. reflexivity.
  - rewrite Nat.iter_succ, IH. rewrite list_alter_alter_eq. reflexivity.
Qed.

Lemma iter_iter {A : Type} (f : A -> A) (a b : nat) (x : A) :
  Nat.iter a (Nat.iter b f) x = Nat.iter (a * b) f x.
Proof.
  induction a as [|a IH].
  - reflexivity.
  - rewrite Nat.iter_succ, IH. rewrite <- Nat.iter_add. reflexivity.
Qed.

(** On an image of one colour every pixel increments the same cell. *)
Lemma uniform_rgb_histogram (h w : Z) (p : Vec3b) (bins r g b : Z) :
  color_bin (uchar_to_int (px2 p)) bins = Returned r ->
  color_bin (uchar_to_int (px1 p)) bins = Returned g ->
  color_bin (uchar_to_int (px0 p)) bins = Returned b ->
  in_bins bins r -> in_bins bins g -> in_bins bins b ->
  compute_featurescolorandtexture.computeRGBHistogram (uniform_image h w p) bins
  = Returned
      (alter (Nat.iter (Z.to_nat h * Z.to_nat w) finc)
         (Z.to_nat ((r * bins + g) * bins + b))
         (replicate (Z.to_nat (bins * bins * bins)) 0)).
Proof.
  intros Er Eg Eb Hr Hg Hb.
  unfold compute_featurescolorandtexture.computeRGBHistogram, for_range.
  set (idx := Z.to_nat ((r * bins + g) * bins + b)).
  cbn [rows cols uniform_image].
  rewrite (for_each_iter (Nat.iter (Z.to_nat w) (alter finc idx))).
  - rewrite length_seqZ, Z.sub_0_r, iter_iter, iter_alter. reflexivity.
  - intros y s Hy. apply elem_of_seqZ in Hy.
    rewrite (for_each_iter (alter finc idx)).
    + rewrite length_seqZ, Z.sub_0_r. reflexivity.
    + intros x t Hx. apply elem_of_seqZ in Hx.
      unfold count_pixel. rewrite at_inside by (simpl; lia).
      cbn [bind pixel_at uniform_image]. rewrite Er, Eg, Eb. cbn [bind].
      unfold incr3. rewrite bool_decide_eq_true_2; [reflexivity|auto].
Qed.

Lemma hist_sum_replicate_0 (N : nat) : hist_sum (replicate N 0) = 0.
Proof. apply counted_zero. Qed.

(** A solid red image of 4097 x 4096 pixels: the one cell that is incremented
    stays at 2^24 = 16777216, short of the 16781312 pixels scanned. *)
Lemma big_red_histogram :
  exists hist,
    compute_featurescolorandtexture.computeRGBHistogram
      (uniform_image 4097 4096 red) 8 = Returned hist /\
    hist_sum hist = 16777216.
Proof.
  rewrite (uniform_rgb_histogram 4097 4096 red 8 7 0 0);
    try reflexivity; try (unfold in_bins; lia).
  eexists. split; [reflexivity|].
  change (Z.to_nat ((7 * 8 + 0) * 8 + 0)) with 448%nat.
  change (Z.to_nat (8 * 8 * 8)) with 512%nat.
  rewrite (hist_sum_alter _ _ _ 0) by (apply lookup_replicate_2; lia).
  rewrite hist_sum_replicate_0, finc_iter by lia.
  lia.
Qed.

(** C10 (amended). For a bin count bins >= 1 with 255 * bins in the range of
    int, and an image, or a rectangle inside an image, of at most 2^24 pixels,
    the counts of the 3D colour histogram (whole image and region) and of the
    2D rg-chromaticity histogram add up to the number of pixels scanned. *)
Theorem C10_histogram_sum_is_pixel_count (image : Image) (bins : Z) :
  valid_image image -> 1 <= bins -> 255 * bins <= INT_MAX ->
  (cols image * rows image <= 2 ^ 24 ->
     (exists hist,
        compute_featurescolorandtexture.computeRGBHistogram image bins
        = Returned hist /\
        hist_sum hist = cols image * rows image) /\
     (exists hist,
        compute_histo_features.computeRGChromaticityHistogram image bins
        = Returned hist /\
        hist_sum hist = cols image * rows image)) /\
  (forall region : Rect,
     rect_inside region image ->
     rect_width region * rect_height region <= 2 ^ 24 ->
     exists hist,
       compute_featuresmulti.computeRGBHistogram image bins region
       = Returned hist /\
       hist_sum hist = rect_width region * rect_height region).
Proof.
  intros Hv Hb Hm. split.
  - intros Hn. split.
    + destruct (rgb_histogram_sum image bins Hv Hb Hm Hn) as (h & Hh & _ & _ & Hs).
      exists h. auto.
    + destruct (chroma_histogram_sum image bins Hv ltac:(lia) Hn)
        as (h & Hh & _ & _ & Hs).
      exists h. auto.
  - intros region Hin Hn.
    destruct (region_histogram_sum image bins region Hv Hin Hb Hm Hn)
      as (h & Hh & _ & _ & Hs).
    exists h. auto.
Qed.

Lemma C10_witness :
  (exists hist,
     compute_featurescolorandtexture.computeRGBHistogram
       (uniform_image 4 4 red) 8 = Returned hist /\
     hist_sum hist = 4 * 4) /\
  (exists hist,
     compute_histo_features.computeRGChromaticityHistogram
       (uniform_image 4 4 red) 8 = Returned hist /\
     hist_sum hist = 4 * 4).
Proof.
  apply (C10_histogram_sum_is_pixel_count (uniform_image 4 4 red) 8);
    unfold valid_image, INT_MAX; simpl; lia.
Defined.

(** The claim as the specification states it, for every image, fails on a
    solid red image of 4097 x 4096 pixels. *)
Lemma C10_counterexample :
  valid_image (uniform_image 4097 4096 red) /\
  exists hist,
    compute_featurescolorandtexture.computeRGBHistogram
      (uniform_image 4097 4096 red) 8 = Returned hist /\
    hist_sum hist <>
      cols (uniform_image 4097 4096 red) * rows (uniform_image 4097 4096 red).
Proof.
  split; [unfold valid_image, INT_MAX; simpl; lia|].
  destruct big_red_histogram as (hist & Hh & Hs).
  exists hist. split; [exact Hh|]. rewrite Hs. simpl. lia.
Qed.

(** ** Orders *)

Lemma Qc_ltb_trans (x y z : Qc) :
  bool_decide (x < y)%Qc = true -> bool_decide (y < z)%Qc = true ->
  bool_decide (x < z)%Qc = true.
Proof.
  rewrite !bool_decide_eq_true. apply Qclt_trans.
Qed.

Lemma Qclt_irrefl (x : Qc) : ~ (x < x)%Qc.
Proof. intros H. exact (Qclt_not_eq x x H eq_refl). Qed.

Lemma fp_ltb_irrefl (a : fp) : fp_ltb a a = false.
Proof.
  destruct a as [q|s|]; simpl; [|destruct s; reflexivity|reflexivity].
  apply bool_decide_eq_false. apply Qclt_irrefl.
Qed.

Lemma fp_ltb_asym (a b : fp) : fp_ltb a b = true -> fp_ltb b a = false.
Proof.
  destruct a as [x|s|], b as [y|t|]; simpl; try discriminate;
    try (destruct s; simpl; congruence);
    try (destruct t; simpl; congruence).
  - rewrite bool_decide_eq_true, bool_decide_eq_false.
    intros H1 H2. exact (Qclt_irrefl x (Qclt_trans _ _ _ H1 H2)).
  - destruct s, t; simpl; congruence.
Qed.

Lemma fp_ltb_trans (a b c : fp) :
  fp_ltb a b = true -> fp_ltb b c = true -> fp_ltb a c = true.
Proof.
  destruct a as [x|s|], b as [y|t|], c as [z|u|]; simpl; try discriminate;
    try apply Qc_ltb_trans;
    repeat match goal with s : bool |- _ => destruct s end;
    simpl; congruence.
Qed.

(** Two values that are not NaN and of which none is below the other are
    equal. *)
Lemma fp_ltb_total (a b : fp) :
  a <> FNaN -> b <> FNaN ->
  fp_ltb a b = false -> fp_ltb b a = false -> a = b.
Proof.
  destruct a as [x|s|], b as [y|t|]; simpl; try congruence;
    try (destruct s; simpl; congruence);
    try (destruct t; simpl; congruence).
  - rewrite !bool_decide_eq_false. intros _ _ H1 H2. f_equal.
    apply Qcle_antisym; apply Qcnot_lt_le; assumption.
  - destruct s, t; simpl; congruence.
Qed.

Lemma string_ltb_lt (s t : string) :
  String.ltb s t = true <-> String_as_OT.lt s t.
Proof.
  unfold String.ltb. rewrite <- String_as_OT.cmp_lt. unfold String_as_OT.cmp.
  destruct (String.compare s t); split; congruence.
Qed.

Lemma string_ltb_trans (s t u : string) :
  String.ltb s t = true -> String.ltb t u = true -> String.ltb s u = true.
Proof.
  rewrite !string_ltb_lt. apply String_as_OT.lt_trans.
Qed.

Lemma string_ltb_asym (s t : string) :
  String.ltb s t = true -> String.ltb t s = false.
Proof.
  unfold String.ltb. rewrite (String.compare_antisym t s).
  destruct (String.compare s t); simpl; congruence.
Qed.

Lemma pair_ltb_asym (a b : fp * string) :
  pair_ltb a b = true -> pair_ltb b a = false.
Proof.
  unfold pair_ltb. destruct a as [x s], b as [y t]; simpl.
  destruct (fp_ltb x y) eqn:Hxy.
  - intros _. rewrite (fp_ltb_asym _ _ Hxy). reflexivity.
  - simpl. destruct (fp_ltb y x) eqn:Hyx; simpl; [discriminate|].
    apply string_ltb_asym.
Qed.

Lemma pair_ltb_trans (a b c : fp * string) :
  not_nan a -> not_nan b -> not_nan c ->
  pair_ltb a b = true -> pair_ltb b c = true -> pair_ltb a c = true.
Proof.
  unfold pair_ltb, not_nan. destruct a as [x s], b as [y t], c as [z u]; simpl.
  intros Hx Hy Hz.
  destruct (fp_ltb x y) eqn:Hxy; simpl.
  - intros _. destruct (fp_ltb y z) eqn:Hyz; simpl.
    + intros _. rewrite (fp_ltb_trans _ _ _ Hxy Hyz). reflexivity.
    + destruct (fp_ltb z y) eqn:Hzy; simpl; [discriminate|]. intros _.
      rewrite (fp_ltb_total y z Hy Hz Hyz Hzy) in Hxy. rewrite Hxy. reflexivity.
  - destruct (fp_ltb y x) eqn:Hyx; simpl; [discriminate|]. intros Hst.
    rewrite (fp_ltb_total x y Hx Hy Hxy Hyx).
    destruct (fp_ltb y z) eqn:Hyz; simpl; [reflexivity|].
    destruct (fp_ltb z y) eqn:Hzy; simpl; [discriminate|].
    apply string_ltb_trans. exact Hst.
Qed.

(** ** Sorting *)

Section Sorting.

Context {A : Type}.
Variable comp : A -> A -> bool.
(** The elements on which [comp] is a strict order. *)
Variable good : A -> Prop.

Hypothesis comp_asym : forall a b, comp a b = true -> comp b a = false.
Hypothesis comp_trans :
  forall a b c, good a -> good b -> good c ->
    comp a b = true -> comp b c = true -> comp a c = true.

Lemma sort_insert_perm (x : A) (l : list A) :
  Permutation (sort_insert comp x l) (x :: l).
Proof using Type.
  induction l as [|y l IH]; simpl; [reflexivity|].
  destruct (comp x y); [reflexivity|].
  rewrite IH. apply perm_swap.
Qed.

Lemma std_sort_perm (l : list A) : Permutation (std_sort comp l) l.
Proof using Type.
  induction l as [|x l IH]; simpl; [reflexivity|].
  unfold std_sort in *. simpl. rewrite sort_insert_perm. rewrite IH. reflexivity.
Qed.

Lemma sort_insert_sorted (x : A) (l : list A) :
  Sorted (in_order comp) l -> Sorted (in_order comp) (sort_insert comp x l).
Proof using comp_asym.
  induction 1 as [|y l Hl IH Hd]; simpl.
  - repeat constructor.
  - destruct (comp x y) eqn:Hxy.
    + constructor; [constructor; assumption|].
      constructor. unfold in_order. apply comp_asym. exact Hxy.
    + constructor; [exact IH|].
      destruct Hd as [|z l Hz]; simpl.
      * constructor. exact Hxy.
      * destruct (comp x z); constructor; assumption.
Qed.

Lemma std_sort_sorted (l : list A) : Sorted (in_order comp) (std_sort comp l).
Proof using comp_asym.
  induction l as [|x l IH]; simpl; [constructor|].
  apply sort_insert_sorted. exact IH.
Qed.

Lemma sort_insert_strongly_sorted (x : A) (l : list A) :
  good x -> Forall good l ->
  StronglySorted (in_order comp) l -> StronglySorted (in_order comp) (sort_insert comp x l).
Proof using comp_asym comp_trans.
  intros Hx Hg Hs. induction Hs as [|y l Hl IH Hy]; simpl.
  - repeat constructor.
  - inversion Hg as [|? ? Hgy Hgl]; subst.
    destruct (comp x y) eqn:Hxy.
    + constructor; [constructor; assumption|].
      constructor; [apply comp_asym; exact Hxy|].
      rewrite Forall_forall in Hy, Hgl |- *. intros z Hz.
      specialize (Hy z Hz). unfold in_order in *.
      destruct (comp z x) eqn:Hzx; [|reflexivity].
      rewrite (comp_trans z x y) in Hy; auto.
    + constructor; [apply IH; exact Hgl|].
      rewrite (sort_insert_perm x l). constructor; assumption.
Qed.

Lemma std_sort_strongly_sorted (l : list A) :
  Forall good l -> StronglySorted (in_order comp) (std_sort comp l).
Proof using comp_asym comp_trans.
  induction 1 as [|x l Hx Hl IH]; simpl; [constructor|].
  apply sort_insert_strongly_sorted; [exact Hx| |exact IH].
  rewrite (std_sort_perm l). exact Hl.
Qed.

End Sorting.

Lemma print_top_take (i numMatches : Z) (distances : list (fp * string)) :
  print_top i numMatches distances
  = take (Z.to_nat (numMatches - i)) distances.
Proof.
  revert i. induction distances as [|d rest IH]; intros i; simpl.
  - rewrite take_nil. reflexivity.
  - destruct (Z.ltb_spec i numMatches).
    + rewrite IH. replace (Z.to_nat (numMatches - i))
        with (S (Z.to_nat (numMatches - (i + 1)))) by lia.
      reflexivity.
    + replace (Z.to_nat (numMatches - i)) with 0%nat by lia. reflexivity.
Qed.

Lemma pair_gtb_asym (a b : fp * string) :
  pair_gtb a b = true -> pair_gtb b a = false.
Proof. unfold pair_gtb. apply pair_ltb_asym. Qed.

Lemma pair_gtb_trans (a b c : fp * string) :
  not_nan a -> not_nan b -> not_nan c ->
  pair_gtb a b = true -> pair_gtb b c = true -> pair_gtb a c = true.
Proof.
  unfold pair_gtb. intros Ha Hb Hc H1 H2.
  exact (pair_ltb_trans c b a Hc Hb Ha H2 H1).
Qed.

Lemma score_lines_step (stof : string -> outcome fp)
    (targetFeatureVector : list fp) (inFile : string) :
  find_matches.score_lines stof targetFeatureVector inFile
  = match getline inFile newline with
    | None => Returned []
    | Some (line, inFile') =>
        do r <- parse_record stof line;
        do distance <- find_matches.computeSSD targetFeatureVector r.2;
        do distances <- find_matches.score_lines stof targetFeatureVector inFile';
        Returned ((distance, r.1) :: distances)
    end.
Proof.
  rewrite find_matches.score_lines_unfold_eq.
  unfold find_matches.score_lines_unfold.
  destruct (inspect (getline inFile newline)) as [[[line inFile']|] e];
    cbn; rewrite e; reflexivity.
Qed.

Lemma read_records_unfolded (stof : string -> outcome fp) (inFile : string) :
  read_records stof inFile
  = match getline inFile newline with
    | None => Returned []
    | Some (line, inFile') =>
        do r <- parse_record stof line;
        do features <- read_records stof inFile';
        Returned (r :: features)
    end.
Proof.
  rewrite read_records_unfold_eq. unfold read_records_unfold.
  destruct (inspect (getline inFile newline)) as [[[line inFile']|] e];
    cbn; rewrite e; reflexivity.
Qed.

Example top_matches_example :
  find_matches.top_matches 5
    [(fp_of_Q 1 2, "b.jpg"%string); (fp_of_Q 1 4, "a.jpg"%string)]
  = [(fp_of_Q 1 4, "a.jpg"%string); (fp_of_Q 1 2, "b.jpg"%string)].
Proof. vm_compute. reflexivity. Qed.

(** Ranked lists are determined by their elements. *)
Lemma strongly_sorted_perm_unique {A : Type} (R : A -> A -> Prop)
    (l1 l2 : list A) :
  (forall a b, a ∈ l1 -> b ∈ l1 -> R a b -> R b a -> a = b) ->
  StronglySorted R l1 -> StronglySorted R l2 -> Permutation l1 l2 -> l1 = l2.
Proof.
  revert l2. induction l1 as [|x l1 IH]; intros l2 Hanti H1 H2 Hp.
  - apply Permutation_nil in Hp. congruence.
  - destruct l2 as [|y l2]; [symmetry in Hp; apply Permutation_nil in Hp; congruence|].
    apply StronglySorted_inv in H1 as [H1 Hx].
    apply StronglySorted_inv in H2 as [H2 Hy].
    rewrite Forall_forall in Hx, Hy.
    assert (x = y) as ->.
    { assert (Hxin : x ∈ y :: l2) by (rewrite <- Hp; left).
      assert (Hyin : y ∈ x :: l1) by (rewrite Hp; left).
      apply elem_of_cons in Hxin as [->|Hxin]; [reflexivity|].
      apply elem_of_cons in Hyin as [->|Hyin]; [reflexivity|].
      apply Hanti; [left|right; exact Hyin| |].
      - apply Hx, list_elem_of_In. exact Hyin.
      - apply Hy, list_elem_of_In. exact Hxin. }
    f_equal. apply Permutation_cons_inv in Hp.
    apply IH; auto.
    intros a b Ha Hb. apply Hanti; right; assumption.
Qed.

Lemma string_ltb_total (s t : string) :
  String.ltb s t = false -> String.ltb t s = false -> s = t.
Proof.
  unfold String.ltb. rewrite (String.compare_antisym t s).
  destruct (String.compare s t) eqn:E; simpl; try discriminate.
  intros _ _. apply String.compare_eq_iff. exact E.
Qed.

Lemma pair_ltb_total (a b : fp * string) :
  not_nan a -> not_nan b ->
  pair_ltb a b = false -> pair_ltb b a = false -> a = b.
Proof.
  unfold pair_ltb, not_nan. destruct a as [x s], b as [y t]; simpl.
  intros Hx Hy.
  destruct (fp_ltb x y) eqn:Hxy; simpl; [discriminate|].
  destruct (fp_ltb y x) eqn:Hyx; simpl; [discriminate|].
  intros H1 H2. rewrite (fp_ltb_total x y Hx Hy Hxy Hyx).
  f_equal. apply string_ltb_total; assumption.
Qed.

Lemma pair_ltb_same_score (x : fp) (s t : string) :
  pair_ltb (x, s) (x, t) = String.ltb s t.
Proof. unfold pair_ltb. simpl. rewrite fp_ltb_irrefl. reflexivity. Qed.

Lemma string_leb_ltb (s t : string) :
  String.leb s t = true <-> String.ltb t s = false.
Proof.
  unfold String.leb, String.ltb. rewrite (String.compare_antisym s t).
  destruct (String.compare t s); simpl; split; congruence.
Qed.

Lemma strongly_sorted_lookup {A : Type} (R : A -> A -> Prop) (l : list A)
    (i j : nat) (a b : A) :
  StronglySorted R l -> (i < j)%nat -> l !! i = Some a -> l !! j = Some b ->
  R a b.
Proof.
  intros Hs. revert i j. induction Hs as [|x l Hs IH Hx]; intros i j Hij Hi Hj.
  - discriminate.
  - destruct j as [|j]; [lia|]. simpl in Hj. destruct i as [|i].
    + simpl in Hi. injection Hi as ->. rewrite Forall_forall in Hx.
      apply Hx, list_elem_of_In. eapply list_elem_of_lookup_2. exact Hj.
    + simpl in Hi. apply (IH i j); [lia|assumption..].
Qed.

Lemma std_sort_good {A : Type} (comp : A -> A -> bool) (good : A -> Prop)
    (l : list A) :
  Forall good l -> Forall good (std_sort comp l).
Proof. intros H. rewrite (std_sort_perm comp l). exact H. Qed.

Lemma std_sort_ltb_unique (l l' : list (fp * string)) :
  Forall not_nan l -> Permutation l l' ->
  std_sort pair_ltb l = std_sort pair_ltb l'.
Proof.
  intros Hg Hp.
  assert (Hg' : Forall not_nan l') by (rewrite <- Hp; exact Hg).
  apply (strongly_sorted_perm_unique (in_order pair_ltb)).
  - intros a b Ha Hb Hab Hba.
    pose proof (std_sort_good pair_ltb not_nan l Hg) as Hs.
    rewrite Forall_forall in Hs.
    apply pair_ltb_total; [| |exact Hba|exact Hab].
    + apply Hs, list_elem_of_In, Ha.
    + apply Hs, list_elem_of_In, Hb.
  - apply (std_sort_strongly_sorted pair_ltb not_nan pair_ltb_asym
             pair_ltb_trans). exact Hg.
  - apply (std_sort_strongly_sorted pair_ltb not_nan pair_ltb_asym
             pair_ltb_trans). exact Hg'.
  - rewrite !std_sort_perm. exact Hp.
Qed.

Lemma std_sort_gtb_unique (l l' : list (fp * string)) :
  Forall not_nan l -> Permutation l l' ->
  std_sort pair_gtb l = std_sort pair_gtb l'.
Proof.
  intros Hg Hp.
  assert (Hg' : Forall not_nan l') by (rewrite <- Hp; exact Hg).
  apply (strongly_sorted_perm_unique (in_order pair_gtb)).
  - intros a b Ha Hb Hab Hba.
    pose proof (std_sort_good pair_gtb not_nan l Hg) as Hs.
    rewrite Forall_forall in Hs.
    apply pair_ltb_total; [| |exact Hab|exact Hba].
    + apply Hs, list_elem_of_In, Ha.
    + apply Hs, list_elem_of_In, Hb.
  - apply (std_sort_strongly_sorted pair_gtb not_nan pair_gtb_asym
             pair_gtb_trans). exact Hg.
  - apply (std_sort_strongly_sorted pair_gtb not_nan pair_gtb_asym
             pair_gtb_trans). exact Hg'.
  - rewrite !std_sort_perm. exact Hp.
Qed.

(** C6 (amended). Among records whose scores are exactly equal (none being
    NaN), the programs that sort ascending (distance style) rank by imageId
    in ascending lexical order, and the programs that sort descending
    (similarity style) rank by imageId in descending lexical order; in both
    the ranked output depends on the records only, not on their order in the
    store. *)
Theorem C6_tie_break_follows_sort_direction (numMatches : Z)
    (distances : list (fp * string)) :
  Forall not_nan distances ->
  (forall (i j : nat) (a b : fp * string),
      (i < j)%nat ->
      find_matches.top_matches numMatches distances !! i = Some a ->
      find_matches.top_matches numMatches distances !! j = Some b ->
      a.1 = b.1 -> String.leb a.2 b.2 = true) /\
  (forall (i j : nat) (a b : fp * string),
      (i < j)%nat ->
      find_matchescolortexture.top_matches numMatches distances !! i = Some a ->
      find_matchescolortexture.top_matches numMatches distances !! j = Some b ->
      a.1 = b.1 -> String.leb b.2 a.2 = true) /\
  (forall distances' : list (fp * string),
      Permutation distances distances' ->
      find_matches.top_matches numMatches distances'
      = find_matches.top_matches numMatches distances /\
      find_matchescolortexture.top_matches numMatches distances'
      = find_matchescolortexture.top_matches numMatches distances).
Proof.
  intros Hg.
  unfold find_matches.top_matches, find_matchescolortexture.top_matches.
  rewrite !print_top_take. split; [|split].
  - intros i j [x s] [y t] Hij Hi Hj Heq. simpl in Heq. subst y.
    apply lookup_take_Some in Hi as [Hi _].
    apply lookup_take_Some in Hj as [Hj _].
    pose proof (strongly_sorted_lookup _ _ i j _ _
                  (std_sort_strongly_sorted pair_ltb not_nan pair_ltb_asym
                     pair_ltb_trans distances Hg) Hij Hi Hj) as H.
    unfold in_order in H. rewrite pair_ltb_same_score in H.
    apply string_leb_ltb. exact H.
  - intros i j [x s] [y t] Hij Hi Hj Heq. simpl in Heq. subst y.
    apply lookup_take_Some in Hi as [Hi _].
    apply lookup_take_Some in Hj as [Hj _].
    pose proof (strongly_sorted_lookup _ _ i j _ _
                  (std_sort_strongly_sorted pair_gtb not_nan pair_gtb_asym
                     pair_gtb_trans distances Hg) Hij Hi Hj) as H.
    unfold in_order, pair_gtb in H. rewrite pair_ltb_same_score in H.
    apply string_leb_ltb. exact H.
  - intros distances' Hp. rewrite !print_top_take.
    rewrite (std_sort_ltb_unique distances distances' Hg Hp).
    rewrite (std_sort_gtb_unique distances distances' Hg Hp).
    split; reflexivity.
Qed.

Lemma C6_witness :
  String.leb "a.jpg" "b.jpg" = true.
Proof.
  apply (proj1 (proj2 (C6_tie_break_follows_sort_direction 2
           [(fp_of_Q 1 2, "a.jpg"%string); (fp_of_Q 1 2, "b.jpg"%string)]
           ltac:(repeat constructor; discriminate)))
         0%nat 1%nat (fp_of_Q 1 2, "b.jpg"%string) (fp_of_Q 1 2, "a.jpg"%string));
    [lia | reflexivity | reflexivity | reflexivity].
Defined.

(** Two records of equal score in a program that sorts descending: "b.jpg" is
    printed before "a.jpg", against the ascending order of the claim. *)
Lemma C6_counterexample :
  find_matchescolortexture.top_matches 2
    [(fp_of_Q 1 2, "a.jpg"%string); (fp_of_Q 1 2, "b.jpg"%string)]
  = [(fp_of_Q 1 2, "b.jpg"%string); (fp_of_Q 1 2, "a.jpg"%string)] /\
  String.ltb "a.jpg" "b.jpg" = true /\
  String.leb "b.jpg" "a.jpg" = false.
Proof. vm_compute. auto. Qed.

(** ** The normalizer *)

Lemma nonneg_values (hist : list fp) :
  Forall is_nonneg hist ->
  exists qs, hist = map FNum qs /\ Forall (fun q => (Q2Qc 0 <= q)%Qc) qs.
Proof.
  induction 1 as [|x hist Hx _ (qs & -> & Hqs)].
  - exists []. split; [reflexivity|constructor].
  - destruct x as [q| |]; try contradiction.
    exists (q :: qs). split; [reflexivity|]. constructor; assumption.
Qed.

Lemma fp_sum_values (qs : list Qc) : fp_sum (map FNum qs) = FNum (Qc_sum qs).
Proof.
  unfold fp_sum, Qc_sum. induction qs as [|q qs IH]; simpl; [reflexivity|].
  rewrite IH. reflexivity.
Qed.

Lemma Qc_sign_pos (s : Qc) : (Q2Qc 0 < s)%Qc -> Qc_sign s = Gt.
Proof. intros H. apply Qcgt_alt. exact H. Qed.

Lemma normalize_values (qs : list Qc) :
  (Q2Qc 0 < Qc_sum qs)%Qc ->
  normalizeHistogram (map FNum qs)
  = map FNum (map (fun q => (q / Qc_sum qs)%Qc) qs).
Proof.
  intros Hs. unfold normalizeHistogram. rewrite fp_sum_values.
  rewrite !map_map. apply map_ext. intros q. simpl.
  rewrite (Qc_sign_pos _ Hs). reflexivity.
Qed.

Lemma Qc_sum_scale (c : Qc) (qs : list Qc) :
  Qc_sum (map (fun q => (q * c)%Qc) qs) = (Qc_sum qs * c)%Qc.
Proof.
  unfold Qc_sum. induction qs as [|q qs IH]; simpl.
  - ring.
  - rewrite IH. ring.
Qed.

Lemma Qc_sum_quotients (qs : list Qc) :
  (Q2Qc 0 < Qc_sum qs)%Qc ->
  Qc_sum (map (fun q => (q / Qc_sum qs)%Qc) qs) = Q2Qc 1.
Proof.
  intros Hs. unfold Qcdiv. rewrite Qc_sum_scale.
  apply Qcmult_inv_r. intros E. rewrite E in Hs.
  exact (Qclt_irrefl _ Hs).
Qed.

Lemma Qc_quotient_nonneg (q s : Qc) :
  (Q2Qc 0 <= q)%Qc -> (Q2Qc 0 < s)%Qc -> (Q2Qc 0 <= q / s)%Qc.
Proof.
  intros Hq Hs. unfold Qcdiv.
  rewrite <- (Qcmult_0_l (/ s)).
  apply Qcmult_le_compat_r; [exact Hq|].
  apply Qclt_le_weak, Qcinv_pos. exact Hs.
Qed.

(** The sum of a vector of zeros is zero, and zero over zero is NaN. *)
Lemma fp_sum_zeros (hist : list fp) :
  Forall (fun x => x = fp_zero) hist -> fp_sum hist = fp_zero.
Proof.
  unfold fp_sum. induction 1 as [|x hist Hx Hf IH]; [reflexivity|].
  subst x. cbn [foldr]. rewrite IH.
  reflexivity.
Qed.



(** An all-zero histogram does occur: the top half of an image of one row has
    no row, and compute_featuresmulti.cpp normalizes its histogram. *)
Example one_row_image_top_half :
  compute_featuresmulti.computeRGBHistogram (uniform_image 1 4 red) 8
    (compute_featuresmulti.topHalf (uniform_image 1 4 red))
  = Returned (replicate 512 0) /\
  normalizeHistogram (counts (replicate 512 0)) = replicate 512 FNaN.
Proof. split; vm_compute; reflexivity. Qed.


(** ** The combined distance *)

Lemma fp_same_eq (a b : fp) : fp_same a b = true -> a = b.
Proof.
  destruct a as [x|s|], b as [y|t|]; simpl; try discriminate.
  - intros H. f_equal. apply Qc_is_canon. apply Qeq_bool_eq. exact H.
  - intros H. f_equal. apply Bool.eqb_prop. exact H.
  - reflexivity.
Qed.

Lemma returned_same_eq (m : outcome fp) (b : fp) :
  match m with Returned a => fp_same a b = true | _ => False end ->
  m = Returned b.
Proof.
  destruct m as [a| |]; try contradiction.
  intros H. f_equal. apply fp_same_eq. exact H.
Qed.

(** Equality of two closed values, by evaluation. *)
Ltac fp_evaluate :=
  first [ apply fp_same_eq; vm_compute; reflexivity
        | apply returned_same_eq; vm_compute; reflexivity ].

Example weighted_scenario :
  custom_design.weighted (fp_of_Q 1 2) (fp_of_Q 1 5) (fp_of_Q 1 10)
  = fp_of_Q 29 100.
Proof. fp_evaluate. Qed.

(** C2. The combined distance is 0.4 * (1 - intersection of the colour
    histograms) + 0.3 * (1 - intersection of the texture histograms) + 0.3 *
    cosine distance of the deep features; when the three sub-distances are
    0.5, 0.2 and 0.1 it is 0.29. *)
Theorem C2_combined_distance_formula (fsqrt : fp -> fp)
    (colorHist1 colorHist2 textureHist1 textureHist2 : list fp)
    (deepFeature1 deepFeature2 : list fp) :
  custom_design.computeCombinedDistance fsqrt colorHist1 colorHist2
    textureHist1 textureHist2 deepFeature1 deepFeature2
  = (do deepDistance <-
       custom_design.computeCosineDistance fsqrt deepFeature1 deepFeature2;
     Returned
       (fp_add
          (fp_add
             (fp_mul (fp_of_Q 4 10)
                (fp_sub fp_one
                   (custom_design.computeHistogramIntersection
                      colorHist1 colorHist2)))
             (fp_mul (fp_of_Q 3 10)
                (fp_sub fp_one
                   (custom_design.computeHistogramIntersection
                      textureHist1 textureHist2))))
          (fp_mul (fp_of_Q 3 10) deepDistance))) /\
  (fp_sub fp_one
     (custom_design.computeHistogramIntersection colorHist1 colorHist2)
   = fp_of_Q 1 2 ->
   fp_sub fp_one
     (custom_design.computeHistogramIntersection textureHist1 textureHist2)
   = fp_of_Q 1 5 ->
   custom_design.computeCosineDistance fsqrt deepFeature1 deepFeature2
   = Returned (fp_of_Q 1 10) ->
   custom_design.computeCombinedDistance fsqrt colorHist1 colorHist2
     textureHist1 textureHist2 deepFeature1 deepFeature2
   = Returned (fp_of_Q 29 100)).
Proof.
  split.
  - reflexivity.
  - intros Hc Ht Hd. unfold custom_design.computeCombinedDistance.
    rewrite Hc, Ht, Hd. cbn [bind]. f_equal. apply weighted_scenario.
Qed.

Lemma C2_witness :
  custom_design.computeCombinedDistance sqrt_floor
    [fp_of_Z 1; fp_of_Z 0] [fp_of_Q 1 2; fp_of_Q 1 2]
    [fp_of_Z 1; fp_of_Z 0] [fp_of_Q 4 5; fp_of_Q 1 5]
    [fp_of_Z 1; fp_of_Z 0; fp_of_Z 0; fp_of_Z 0]
    [fp_of_Z 9; fp_of_Z 3; fp_of_Z 3; fp_of_Z 1]
  = Returned (fp_of_Q 29 100).
Proof.
  apply (C2_combined_distance_formula sqrt_floor); fp_evaluate.
Defined.

(** ** The centre patch *)

Lemma for_each_not_raised {S A : Type} (l : list A)
    (body : A -> S -> outcome S) (s : S) (e : error) :
  (forall a s, body a s <> Raised e) -> for_each l body s <> Raised e.
Proof.
  intros Hb. revert s. induction l as [|a l IH]; intros s; simpl; [discriminate|].
  destruct (body a s) as [s'| e' |] eqn:E; simpl.
  - apply IH.
  - intros [= ->]. exact (Hb a s E).
  - discriminate.
Qed.

(** When a loop returns, its body has returned on every element. *)
Lemma for_each_returned {S A : Type} (l : list A)
    (body : A -> S -> outcome S) (s s' : S) (a : A) :
  for_each l body s = Returned s' -> a ∈ l ->
  exists t t', body a t = Returned t'.
Proof.
  revert s. induction l as [|b l IH]; intros s Hr Ha.
  - apply elem_of_nil in Ha. contradiction.
  - simpl in Hr. destruct (body b s) as [s1| |] eqn:E; try discriminate.
    apply elem_of_cons in Ha as [->|Ha]; [eauto|].
    apply (IH s1); assumption.
Qed.

Lemma at_returned image y x p :
  at_ image y x = Returned p -> 0 <= y < rows image /\ 0 <= x < cols image.
Proof.
  unfold at_. destruct (bool_decide _) eqn:E; [|discriminate].
  intros _. apply bool_decide_eq_true in E. exact E.
Qed.

Lemma at_not_raised image y x e : at_ image y x <> Raised e.
Proof. unfold at_. destruct (bool_decide _); discriminate. Qed.

Lemma centre_bounds (n : Z) :
  0 <= n <= INT_MAX ->
  int_sub (int_div n 2) 3 = Returned (n / 2 - 3) /\
  int_add (int_div n 2) 3 = Returned (n / 2 + 3).
Proof.
  intros Hn. unfold int_sub, int_add, int_div.
  rewrite Z.quot_div_nonneg by lia.
  assert (0 <= n / 2 <= n) by (split; [apply Z.div_pos|apply Z.div_le_upper_bound]; lia).
  assert (n / 2 <= 2 ^ 30) by (apply Z.div_le_upper_bound; unfold INT_MAX in Hn; lia).
  rewrite !int_result_fits by (unfold INT_MIN, INT_MAX in *; lia).
  split; reflexivity.
Qed.

Lemma centre_inside (n : Z) :
  7 <= n -> 0 <= n / 2 - 3 /\ n / 2 + 3 < n.
Proof.
  intros Hn.
  assert (3 <= n / 2) by (apply Z.div_le_lower_bound; lia).
  pose proof (Z.div_mod n 2 ltac:(lia)).
  pose proof (Z.mod_pos_bound n 2 ltac:(lia)). lia.
Qed.

Lemma baseline_loops image :
  valid_image image ->
  compute_features.computeBaselineFeatureVector image
  = for_each (seqZ (rows image / 2 - 3) 7) (fun y featureVector =>
      for_each (seqZ (cols image / 2 - 3) 7) (fun x featureVector =>
        push_pixel image y x featureVector) featureVector) [].
Proof.
  intros [Hr Hc]. unfold compute_features.computeBaselineFeatureVector.
  destruct (centre_bounds _ Hr) as [-> ->].
  destruct (centre_bounds _ Hc) as [-> ->].
  cbn [bind]. unfold for_range_to.
  replace (rows image / 2 + 3 - (rows image / 2 - 3) + 1) with 7 by lia.
  replace (cols image / 2 + 3 - (cols image / 2 - 3) + 1) with 7 by lia.
  reflexivity.
Qed.

Lemma baseline_returns image :
  valid_image image -> 7 <= rows image -> 7 <= cols image ->
  exists featureVector,
    compute_features.computeBaselineFeatureVector image = Returned featureVector /\
    length featureVector = 147%nat.
Proof.
  intros Hv H7r H7c. rewrite (baseline_loops image Hv).
  pose proof (centre_inside _ H7r). pose proof (centre_inside _ H7c).
  destruct (for_each_inv (fun k (v : list fp) => length v = (21 * k)%nat)
              (seqZ (rows image / 2 - 3) 7)
              (fun y featureVector =>
                 for_each (seqZ (cols image / 2 - 3) 7)
                   (fun x featureVector => push_pixel image y x featureVector)
                   featureVector) []) as (v & Hret & Hlen).
  - reflexivity.
  - intros k y s Hk Hs. apply lookup_seqZ in Hk as [-> Hk].
    destruct (for_each_inv
                (fun j (v : list fp) => length v = (21 * k + 3 * j)%nat)
                (seqZ (cols image / 2 - 3) 7)
                (fun x featureVector =>
                   push_pixel image (rows image / 2 - 3 + Z.of_nat k) x
                     featureVector) s) as (v & Hret & Hlen).
    + lia.
    + intros j x t Hj Ht. apply lookup_seqZ in Hj as [-> Hj].
      unfold push_pixel. rewrite at_inside by lia. cbn [bind].
      eexists. split; [reflexivity|]. rewrite length_app. simpl. lia.
    + exists v. split; [exact Hret|]. rewrite length_seqZ in Hlen. lia.
  - exists v. split; [exact Hret|]. rewrite length_seqZ in Hlen. lia.
Qed.

Lemma baseline_returned_size image featureVector :
  valid_image image ->
  compute_features.computeBaselineFeatureVector image = Returned featureVector ->
  7 <= rows image /\ 7 <= cols image.
Proof.
  intros Hv. rewrite (baseline_loops image Hv). destruct Hv as [Hr Hc].
  intros Hret.
  assert (Hcell : forall y x,
             y ∈ seqZ (rows image / 2 - 3) 7 ->
             x ∈ seqZ (cols image / 2 - 3) 7 ->
             0 <= y < rows image /\ 0 <= x < cols image).
  { intros y x Hy Hx.
    destruct (for_each_returned _ _ _ _ y Hret Hy) as (t & t' & Hrow).
    destruct (for_each_returned _ _ _ _ x Hrow Hx) as (u & u' & Hpix).
    unfold push_pixel in Hpix.
    destruct (at_ image y x) as [p| |] eqn:E; try discriminate.
    apply (at_returned _ _ _ _ E). }
  assert (Hlo := Hcell (rows image / 2 - 3) (cols image / 2 - 3)
                   ltac:(apply elem_of_seqZ; lia) ltac:(apply elem_of_seqZ; lia)).
  assert (Hhi := Hcell (rows image / 2 + 3) (cols image / 2 + 3)
                   ltac:(apply elem_of_seqZ; lia) ltac:(apply elem_of_seqZ; lia)).
  pose proof (Z.div_mod (rows image) 2 ltac:(lia)).
  pose proof (Z.mod_pos_bound (rows image) 2 ltac:(lia)).
  pose proof (Z.div_mod (cols image) 2 ltac:(lia)).
  pose proof (Z.mod_pos_bound (cols image) 2 ltac:(lia)).
  lia.
Qed.

Lemma bind_not_raised {A B : Type} (m : outcome A) (k : A -> outcome B)
    (e : error) :
  m <> Raised e -> (forall a, k a <> Raised e) -> bind m k <> Raised e.
Proof.
  intros Hm Hk. destruct m as [a| e' |]; simpl; [apply Hk| |discriminate].
  intros [= ->]. apply Hm. reflexivity.
Qed.

Lemma baseline_not_raised image e :
  compute_features.computeBaselineFeatureVector image <> Raised e.
Proof.
  unfold compute_features.computeBaselineFeatureVector, for_range_to.
  apply bind_not_raised; [apply int_result_not_raised|]. intros yFirst.
  apply bind_not_raised; [apply int_result_not_raised|]. intros yLast.
  apply for_each_not_raised. intros y s.
  apply bind_not_raised; [apply int_result_not_raised|]. intros xFirst.
  apply bind_not_raised; [apply int_result_not_raised|]. intros xLast.
  apply for_each_not_raised. intros x t.
  apply bind_not_raised; [apply at_not_raised|]. discriminate.
Qed.

(** C9 (amended). On an image of at least 7 x 7 pixels the centre-patch
    extractor returns a vector of 147 values.  It makes no check of the size
    and raises no error, OutOfBounds or other: on an image with fewer than 7
    rows or 7 columns it reads pixels outside the image, which C++ leaves
    undefined. *)
Theorem C9_centre_patch_has_no_bounds_check (image : Image) :
  valid_image image ->
  (7 <= rows image /\ 7 <= cols image ->
     exists featureVector,
       compute_features.computeBaselineFeatureVector image
       = Returned featureVector /\
       length featureVector = 147%nat) /\
  (rows image < 7 \/ cols image < 7 ->
     compute_features.computeBaselineFeatureVector image = Undefined) /\
  (forall e : error,
     compute_features.computeBaselineFeatureVector image <> Raised e).
Proof.
  intros Hv. split; [|split].
  - intros [Hr Hc]. apply baseline_returns; assumption.
  - intros Hsmall.
    destruct (compute_features.computeBaselineFeatureVector image)
      as [v| e |] eqn:E.
    + apply (baseline_returned_size image v Hv) in E. lia.
    + exfalso. exact (baseline_not_raised image e E).
    + reflexivity.
  - intros e. apply baseline_not_raised.
Qed.

Lemma C9_witness :
  exists featureVector,
    compute_features.computeBaselineFeatureVector (uniform_image 9 9 gray)
    = Returned featureVector /\
    length featureVector = 147%nat.
Proof.
  apply (C9_centre_patch_has_no_bounds_check (uniform_image 9 9 gray));
    unfold valid_image, INT_MAX; simpl; lia.
Defined.

(** The scenario of the specification: a 9 x 9 image of gray level 100. *)
Example gray_9x9_patch :
  compute_features.computeBaselineFeatureVector (uniform_image 9 9 gray)
  = Returned (replicate 147 (fp_of_Z 100)).
Proof. vm_compute. reflexivity. Qed.

(** On a 4 x 4 image the extractor does not raise OutOfBounds: its first
    read, at row -1, is outside the image. *)
Lemma C9_counterexample :
  compute_features.computeBaselineFeatureVector (uniform_image 4 4 gray)
  = Undefined /\
  compute_features.computeBaselineFeatureVector (uniform_image 4 4 gray)
  <> Raised OutOfBounds.
Proof. split; [vm_compute; reflexivity|]. apply baseline_not_raised. Qed.

(** ** Decimal text *)

Example show_examples :
  map show_float_g
    [fp_of_Z 100; fp_of_Q 1 2; fp_of_Q 1 3; fp_of_Q 2 3; fp_of_Q 1 100000;
     fp_of_Q 1 10000; fp_of_Z 123456789; fp_of_Z 999999; fp_of_Z 1000000;
     fp_of_Q (-5) 4; fp_of_Z 0; fp_of_Q 9999995 10; fp_of_Q 1 1024]
  = ["100"; "0.5"; "0.333333"; "0.666667"; "1e-05";
     "0.0001"; "1.23457e+08"; "999999"; "1e+06";
     "-1.25"; "0"; "1e+06"; "0.000976562"]%string.
Proof. vm_compute. reflexivity. Qed.

Example stof_examples :
  map (fun s => fp_same_outcome (stof_decimal s.1) s.2)
    [("100", Returned (fp_of_Z 100)); ("0.5", Returned (fp_of_Q 1 2));
     ("0.333333", Returned (fp_of_Q 333333 1000000));
     ("1e-05", Returned (fp_of_Q 1 100000));
     ("1.23457e+08", Returned (fp_of_Z 123457000));
     ("-1.25", Returned (fp_of_Q (-5) 4));
     (EmptyString, Raised ParseError); ("abc", Raised ParseError);
     ("12abc", Returned (fp_of_Z 12)); ("nan", Returned FNaN)]%string
  = replicate 10 true.
Proof. vm_compute. reflexivity. Qed.

(** ** Text *)

Lemma has_charb_app (c : ascii) (s t : string) :
  has_charb c (s ++ t) = has_charb c s || has_charb c t.
Proof.
  induction s as [|a s IH]; simpl; [reflexivity|].
  rewrite IH. apply orb_assoc.
Qed.

Lemma split_at_app (d : ascii) (s rest : string) :
  has_charb d s = false ->
  split_at d (s ++ String d rest) = (s, rest).
Proof.
  induction s as [|a s IH]; simpl.
  - rewrite Ascii.eqb_refl. reflexivity.
  - intros H. apply orb_false_iff in H as [Ha Hs].
    rewrite Ha, (IH Hs). reflexivity.
Qed.

Lemma split_at_whole (d : ascii) (s : string) :
  has_charb d s = false -> split_at d s = (s, EmptyString).
Proof.
  induction s as [|a s IH]; simpl; [reflexivity|].
  intros H. apply orb_false_iff in H as [Ha Hs].
  rewrite Ha, (IH Hs). reflexivity.
Qed.

Lemma getline_app (d : ascii) (s rest : string) :
  has_charb d s = false ->
  getline (s ++ String d rest) d = Some (s, rest).
Proof.
  intros H. unfold getline.
  destruct (s ++ String d rest)%string eqn:E.
  - destruct s; discriminate.
  - rewrite <- E, (split_at_app d s rest H). reflexivity.
Qed.

Lemma getline_whole (d : ascii) (s : string) :
  s <> EmptyString -> has_charb d s = false ->
  getline s d = Some (s, EmptyString).
Proof.
  intros Hne H. unfold getline. destruct s; [contradiction|].
  rewrite (split_at_whole d _ H). reflexivity.
Qed.

Lemma string_app_assoc (s t u : string) : ((s ++ t) ++ u = s ++ (t ++ u))%string.
Proof. induction s as [|a s IH]; simpl; [reflexivity|]. rewrite IH. reflexivity. Qed.

Lemma string_app_nil_r (s : string) : (s ++ EmptyString)%string = s.
Proof. induction s as [|a s IH]; simpl; [reflexivity|]. rewrite IH. reflexivity. Qed.

(** ** Writing a store and reading it back *)

Section RoundTrip.

Variable show_float : fp -> string.
Variable stof : string -> outcome fp.
(** What [stof] reads from the text printed for a value. *)
Variable reread : fp -> fp.

Lemma read_values_step (ss : string) :
  read_values stof ss
  = match getline ss comma with
    | None => Returned []
    | Some (value, ss') =>
        do v <- stof value;
        do featureVector <- read_values stof ss';
        Returned (v :: featureVector)
    end.
Proof.
  rewrite read_values_unfold_eq. unfold read_values_unfold.
  destruct (inspect (getline ss comma)) as [[[value ss']|] e];
    cbn; rewrite e; reflexivity.
Qed.

Lemma write_record_line (r : string * list fp) (rest : string) :
  (write_record show_float r ++ rest)%string
  = ((record_line show_float) r ++ String newline rest)%string.
Proof.
  unfold write_record, record_line.
  rewrite !string_app_assoc. reflexivity.
Qed.

Lemma read_values_fields (v : fp) (vs : list fp) :
  Forall (printable show_float stof reread) (v :: vs) ->
  read_values stof
    (show_float v ++ join (map (fun w => String comma (show_float w)) vs))
  = Returned (map reread (v :: vs)).
Proof.
  revert v. induction vs as [|w vs IH]; intros v Hp;
    inversion Hp as [|? ? [(Hne & Hc & _) Hv] Hvs]; subst.
  - cbn [map join foldr]. rewrite string_app_nil_r, read_values_step.
    rewrite (getline_whole comma _ Hne Hc), Hv. cbn [bind].
    rewrite read_values_step. reflexivity.
  - cbn [map join foldr]. rewrite read_values_step.
    change (String comma (show_float w) ++ ?t)%string
      with (String comma (show_float w ++ t))%string.
    rewrite (getline_app comma _ _ Hc), Hv. cbn [bind].
    change (foldr String.append EmptyString ?l) with (join l).
    rewrite (IH w Hvs). reflexivity.
Qed.

Lemma parse_record_line (r : string * list fp) :
  (storable show_float stof reread) r ->
  parse_record stof ((record_line show_float) r) = Returned (r.1, map reread r.2).
Proof.
  destruct r as [id fv]. intros [[Hc _] Hp]. unfold record_line, parse_record.
  cbn [fst snd] in *. destruct fv as [|v vs].
  - cbn [map join foldr]. rewrite string_app_nil_r.
    destruct id as [|c id]; [reflexivity|].
    assert (Hne : String c id <> EmptyString) by discriminate.
    rewrite (getline_whole comma _ Hne Hc).
    rewrite read_values_step. reflexivity.
  - cbn [map join foldr].
    change (String comma (show_float v) ++ ?t)%string
      with (String comma (show_float v ++ t))%string.
    rewrite (getline_app comma _ _ Hc).
    change (foldr String.append EmptyString ?l) with (join l).
    rewrite (read_values_fields v vs Hp). reflexivity.
Qed.

Lemma record_line_one_line (r : string * list fp) :
  (storable show_float stof reread) r -> has_charb newline ((record_line show_float) r) = false.
Proof.
  destruct r as [id fv]. intros [[_ Hn] Hp]. unfold record_line.
  cbn [fst snd] in *. rewrite has_charb_app, Hn. cbn [orb].
  induction Hp as [|v vs [(_ & _ & Hv) _] _ IH]; [reflexivity|].
  cbn [map join foldr]. cbn [String.append has_charb].
  rewrite has_charb_app, Hv. exact IH.
Qed.

Lemma read_written (records : list (string * list fp)) :
  Forall (storable show_float stof reread) records ->
  read_records stof (write_store show_float records)
  = Returned (map (fun r => (r.1, map reread r.2)) records).
Proof.
  induction 1 as [|r records Hr _ IH].
  - rewrite read_records_unfolded. reflexivity.
  - unfold write_store. cbn [map join foldr].
    change (foldr String.append EmptyString ?l) with (join l).
    fold (write_store show_float records).
    rewrite write_record_line, read_records_unfolded.
    rewrite (getline_app newline _ _ (record_line_one_line r Hr)).
    rewrite (parse_record_line r Hr). cbn [bind]. rewrite IH. reflexivity.
Qed.

End RoundTrip.

Example two_records_text :
  write_store show_float_g two_records
  = ("pic.0001.jpg,100,0,255" ++ String newline ("pic.0002.jpg" ++ String newline EmptyString))%string.
Proof. vm_compute. reflexivity. Qed.

Lemma printable_by_evaluation (v : fp) :
  show_float_g v <> EmptyString ->
  has_charb comma (show_float_g v) = false ->
  has_charb newline (show_float_g v) = false ->
  fp_same_outcome (stof_decimal (show_float_g v)) (Returned v) = true ->
  printable show_float_g stof_decimal (fun v => v) v.
Proof.
  intros Hne Hc Hn Hs. split; [repeat split; assumption|].
  destruct (stof_decimal (show_float_g v)) as [a| |]; try discriminate.
  f_equal. apply fp_same_eq. exact Hs.
Qed.

(** Six significant digits: one third is read back as 0.333333. *)
Example one_third_reread :
  fp_same_outcome (stof_decimal (show_float_g (fp_of_Q 1 3)))
                  (Returned (fp_of_Q 333333 1000000)) = true.
Proof. vm_compute. reflexivity. Qed.

(** ** The extraction pass *)

Lemma path_filename_plain (s : string) :
  has_charb slash s = false -> path_filename s = s.
Proof.
  destruct s as [|c s]; [reflexivity|]. simpl.
  intros H. apply orb_false_iff in H as [-> ->]. reflexivity.
Qed.

Lemma path_filename_after (p name : string) :
  has_charb slash name = false ->
  path_filename (p ++ String slash name) = name.
Proof.
  intros Hn. induction p as [|c p IH].
  - cbn [String.append path_filename]. rewrite Ascii.eqb_refl.
    apply path_filename_plain. exact Hn.
  - cbn [String.append path_filename]. rewrite has_charb_app. cbn [has_charb].
    rewrite Ascii.eqb_refl, orb_true_r. destruct (Ascii.eqb c slash); exact IH.
Qed.

Lemma ends_with_slash_split (d : string) :
  ends_with_slash d = true -> exists p, d = (p ++ String slash EmptyString)%string.
Proof.
  induction d as [|c d IH]; [discriminate|].
  destruct d as [|c' d'].
  - simpl. intros H. apply Ascii.eqb_eq in H as ->. exists EmptyString. reflexivity.
  - intros H. destruct (IH H) as [p Hp]. exists (String c p). rewrite Hp. reflexivity.
Qed.

(** The base name of an enumerated path is the file name. *)
Lemma path_filename_append (directory name : string) :
  has_charb slash name = false ->
  path_filename (path_append directory name) = name.
Proof.
  intros Hn. unfold path_append. destruct directory as [|c d].
  - apply path_filename_plain. exact Hn.
  - destruct (ends_with_slash (String c d)) eqn:E.
    + destruct (ends_with_slash_split _ E) as [p ->].
      rewrite string_app_assoc. apply path_filename_after. exact Hn.
    + apply path_filename_after. exact Hn.
Qed.

Section Extraction.

Variable directory_listing : string -> list string.
Variable imread : string -> option Image.
Variable show_float : fp -> string.

Lemma write_store_cons (r : string * list fp) (records : list (string * list fp)) :
  write_store show_float (r :: records)
  = (write_record show_float r ++ write_store show_float records)%string.
Proof. reflexivity. Qed.

Lemma extract_loop_written (imageFilenames : list string) (outFile : string)
    (code : Z) (text : string) :
  compute_features.extract_loop imread show_float "baseline" imageFilenames outFile
  = Returned (code, text) ->
  code = 0 /\
  text = (outFile ++ write_store show_float ((extracted imread) imageFilenames))%string.
Proof.
  revert outFile. induction imageFilenames as [|filename rest IH]; intros outFile.
  - cbn [compute_features.extract_loop]. intros [= <- <-].
    split; [reflexivity|]. symmetry. apply string_app_nil_r.
  - cbn [compute_features.extract_loop extracted flat_map].
    fold ((extracted imread) rest).
    destruct (imread filename) as [image|]; [|apply IH].
    rewrite String.eqb_refl.
    destruct (compute_features.computeBaselineFeatureVector image)
      as [featureVector| |]; try discriminate.
    cbn [bind]. intros H. apply IH in H as [-> ->].
    split; [reflexivity|].
    cbn [app]. rewrite write_store_cons, string_app_assoc. reflexivity.
Qed.

Lemma extract_loop_returns (imageFilenames : list string) (outFile : string) :
  (forall filename image,
      filename ∈ imageFilenames -> imread filename = Some image ->
      valid_image image /\ 7 <= rows image /\ 7 <= cols image) ->
  exists text,
    compute_features.extract_loop imread show_float "baseline"
      imageFilenames outFile = Returned (0, text).
Proof.
  revert outFile. induction imageFilenames as [|filename rest IH];
    intros outFile Hsize.
  - eexists. reflexivity.
  - cbn [compute_features.extract_loop].
    assert (Hrest : forall f image, f ∈ rest -> imread f = Some image ->
                      valid_image image /\ 7 <= rows image /\ 7 <= cols image).
    { intros f image Hf. apply Hsize. right. exact Hf. }
    destruct (imread filename) as [image|] eqn:E; [|apply IH; exact Hrest].
    rewrite String.eqb_refl.
    destruct (Hsize filename image ltac:(left) E) as (Hv & Hr & Hc).
    destruct (baseline_returns image Hv Hr Hc) as (fv & -> & _).
    cbn [bind]. apply IH. exact Hrest.
Qed.

(** C3 (amended). The imageId that the extraction pass writes as the first
    field of a record is the path of the image as the directory enumerator
    yields it, that is the directory argument joined with the file name: the
    directory prefix is kept.  The base name of that imageId is the file
    name. *)
Theorem C3_image_id_is_the_enumerated_path (imageDirectory : string) :
  ((forall name image,
       name ∈ directory_listing imageDirectory ->
       imread (path_append imageDirectory name) = Some image ->
       valid_image image /\ 7 <= rows image /\ 7 <= cols image) ->
   exists text,
     compute_features.main directory_listing imread show_float
       imageDirectory "baseline" = Returned (0, text)) /\
  (forall (code : Z) (text : string),
     compute_features.main directory_listing imread show_float
       imageDirectory "baseline" = Returned (code, text) ->
     text = write_store show_float
              ((extracted imread) (compute_features.readImageFilenames
                            directory_listing imageDirectory))) /\
  Forall (fun r : string * list fp =>
            exists name,
              name ∈ directory_listing imageDirectory /\
              r.1 = path_append imageDirectory name /\
              (has_charb slash name = false -> path_filename r.1 = name))
    ((extracted imread) (compute_features.readImageFilenames
                  directory_listing imageDirectory)).
Proof.
  unfold compute_features.main, compute_features.readImageFilenames.
  split; [|split].
  - intros Hsize. apply extract_loop_returns.
    intros filename image Hf Him.
    apply list_elem_of_fmap in Hf as (name & -> & Hname).
    apply (Hsize name image Hname Him).
  - intros code text H. apply extract_loop_written in H as [_ ->]. reflexivity.
  - apply Forall_forall. intros r Hr. unfold extracted in Hr.
    apply in_flat_map in Hr as (filename & Hf & Hr).
    apply in_map_iff in Hf as (name & <- & Hname).
    exists name. split; [apply list_elem_of_In; exact Hname|].
    assert (r.1 = path_append imageDirectory name) as ->.
    { destruct (imread (path_append imageDirectory name)) as [image|];
        [|contradiction].
      destruct (compute_features.computeBaselineFeatureVector image);
        try contradiction.
      destruct Hr as [<-|[]]. reflexivity. }
    split; [reflexivity|]. apply path_filename_append.
Qed.

End Extraction.

Lemma C3_witness :
  exists text,
    compute_features.main one_image_listing gray_imread show_float_g
      "olympus" "baseline" = Returned (0, text).
Proof.
  apply (C3_image_id_is_the_enumerated_path one_image_listing gray_imread
           show_float_g "olympus").
  intros name image _ [= <-]. unfold valid_image, INT_MAX. simpl. lia.
Defined.

(** The store built from the directory "olympus": the imageId read back is
    "olympus/pic.0001.jpg", not the base name "pic.0001.jpg", and the matcher
    that looks its target up by base name does not find the record. *)
Lemma C3_counterexample :
  exists text,
    compute_features.main one_image_listing gray_imread show_float_g
      "olympus" "baseline" = Returned (0, text) /\
    exists records,
      read_records stof_decimal text = Returned records /\
      map fst records = ["olympus/pic.0001.jpg"%string] /\
      path_filename "other/pic.0001.jpg" = "pic.0001.jpg"%string /\
      map fst records <> [path_filename "olympus/pic.0001.jpg"] /\
      findmatcheswithdeepnetwork.find_target records "pic.0001.jpg" = [] /\
      findmatcheswithdeepnetwork.main sqrt_floor stof_decimal
        "other/pic.0001.jpg" (Some text) 3 = Returned (1, []).
Proof.
  eexists. split; [vm_compute; reflexivity|].
  eexists. split; [vm_compute; reflexivity|].
  split; [reflexivity|]. split; [reflexivity|].
  split; [discriminate|]. split; vm_compute; reflexivity.
Qed.

(** * Further properties of the programs *)

(** ** Loops over the indices of two vectors *)

Lemma for_each_ext {S A : Type} (l : list A) (body body' : A -> S -> outcome S)
    (s : S) :
  (forall a s, a ∈ l -> body a s = body' a s) ->
  for_each l body s = for_each l body' s.
Proof.
  revert s. induction l as [|a l IH]; intros s Hb; simpl; [reflexivity|].
  rewrite Hb by constructor. destruct (body' a s) as [s'| |]; simpl; try reflexivity.
  apply IH. intros b t Hin. apply Hb. now constructor.
Qed.

Lemma for_each_app {S A : Type} (l1 l2 : list A) (body : A -> S -> outcome S)
    (s : S) :
  for_each (l1 ++ l2) body s
  = (do s' <- for_each l1 body s; for_each l2 body s').
Proof.
  revert s. induction l1 as [|a l1 IH]; intros s; simpl; [reflexivity|].
  destruct (body a s) as [s'| |]; simpl; [apply IH|reflexivity..].
Qed.

Lemma vec_at_middle {A : Type} (p v : list A) (a : A) :
  vec_at (p ++ a :: v) (Z.of_nat (length p)) = Returned a.
Proof.
  unfold vec_at. rewrite bool_decide_eq_true_2 by lia.
  rewrite Nat2Z.id, list_lookup_middle by reflexivity. reflexivity.
Qed.

Lemma vec_at_end {A : Type} (p : list A) :
  vec_at p (Z.of_nat (length p)) = Undefined.
Proof.
  unfold vec_at. rewrite bool_decide_eq_true_2 by lia.
  rewrite Nat2Z.id, lookup_ge_None_2 by lia. reflexivity.
Qed.

(** The loop [for (i = 0; i < v1.size(); ++i) s = f(v1[i], v2[i], s)], started
    at index [length p1]: it folds [f] over the pairs when [v2] is at least
    as long as [v1], and otherwise reads past the end of [v2]. *)
Lemma index_loop_from {S A B : Type} (f : A -> B -> S -> S)
    (v1 p1 : list A) (v2 p2 : list B) (s : S) :
  length p1 = length p2 ->
  for_each (seqZ (Z.of_nat (length p1)) (Z.of_nat (length v1)))
    (fun i s =>
       do a <- vec_at (p1 ++ v1) i;
       do b <- vec_at (p2 ++ v2) i;
       Returned (f a b s)) s
  = if decide (length v1 <= length v2)%nat
    then Returned (foldl (fun s ab => f ab.1 ab.2 s) s (zip v1 v2))
    else Undefined.
Proof.
  revert v2 p1 p2 s. induction v1 as [|a v1 IH]; intros v2 p1 p2 s Hp.
  - rewrite seqZ_nil by (simpl; lia).
    rewrite decide_True by (simpl; lia). reflexivity.
  - rewrite seqZ_cons by (simpl; lia). cbn [for_each].
    rewrite vec_at_middle. cbn [bind]. rewrite Hp.
    destruct v2 as [|b v2].
    + rewrite app_nil_r, vec_at_end. cbn [bind].
      rewrite decide_False by (simpl; lia). reflexivity.
    + rewrite vec_at_middle. cbn [bind].
      specialize (IH v2 (p1 ++ [a]) (p2 ++ [b]) (f a b s)).
      rewrite !length_app in IH. simpl in IH.
      rewrite <- !app_assoc in IH. simpl in IH.
      replace (Z.succ (Z.of_nat (length p2)))
        with (Z.of_nat (length p1 + 1)) by lia.
      replace (Z.pred (Z.of_nat (length (a :: v1))))
        with (Z.of_nat (length v1)) by (simpl; lia).
      rewrite IH by lia. simpl.
      destruct (decide (length v1 <= length v2)%nat);
        [rewrite decide_True by lia|rewrite decide_False by lia]; reflexivity.
Qed.

Lemma index_loop {S A B : Type} (f : A -> B -> S -> S)
    (v1 : list A) (v2 : list B) (s : S) :
  for_range 0 (vec_size v1)
    (fun i s =>
       do a <- vec_at v1 i;
       do b <- vec_at v2 i;
       Returned (f a b s)) s
  = if decide (length v1 <= length v2)%nat
    then Returned (foldl (fun s ab => f ab.1 ab.2 s) s (zip v1 v2))
    else Undefined.
Proof.
  unfold for_range, vec_size. rewrite Z.sub_0_r.
  exact (index_loop_from f v1 [] v2 [] s eq_refl).
Qed.

Lemma zip_take_r {A B : Type} (l : list A) (k : list B) :
  zip l (take (length l) k) = zip l k.
Proof.
  revert k. induction l as [|a l IH]; intros [|b k]; simpl; try reflexivity.
  rewrite IH. reflexivity.
Qed.

(** ** The sum of squared differences *)

Lemma computeSSD_fold (vec1 vec2 : list fp) :
  find_matches.computeSSD vec1 vec2
  = if decide (length vec1 <= length vec2)%nat
    then Returned (foldl (fun s ab => ssd_step ab.1 ab.2 s) fp_zero (zip vec1 vec2))
    else Undefined.
Proof. unfold find_matches.computeSSD. apply (index_loop ssd_step). Qed.

Lemma Qc_square_nonneg (x : Qc) : (Q2Qc 0 <= x * x)%Qc.
Proof.
  destruct (Qclt_le_dec x (Q2Qc 0)) as [Hn|Hp].
  - replace (x * x)%Qc with ((- x) * (- x))%Qc by ring.
    assert (Q2Qc 0 <= - x)%Qc.
    { apply Qclt_le_weak in Hn. apply Qcopp_le_compat in Hn.
      replace (- Q2Qc 0)%Qc with (Q2Qc 0) in Hn by ring. exact Hn. }
    apply Qcmult_nonneg_nonneg; assumption.
  - apply Qcmult_nonneg_nonneg; assumption.
Qed.

Lemma Qc_sum_nonneg_zero (x y : Qc) :
  (Q2Qc 0 <= x)%Qc -> (Q2Qc 0 <= y)%Qc -> (x + y)%Qc = Q2Qc 0 ->
  x = Q2Qc 0 /\ y = Q2Qc 0.
Proof.
  intros Hx Hy E.
  assert (Hx' : (x <= Q2Qc 0)%Qc).
  { rewrite <- E. rewrite <- (Qcplus_0_r x) at 1.
    apply Qcplus_le_compat; [apply Qcle_refl|exact Hy]. }
  assert (x = Q2Qc 0) as -> by (apply Qcle_antisym; assumption).
  split; [reflexivity|]. rewrite Qcplus_0_l in E. exact E.
Qed.

(** The fold of [computeSSD] on finite values: the sum of the squares of the
    differences, which is zero only for equal vectors. *)
Lemma ssd_fold_values (p q : list Qc) (acc : Qc) :
  length p = length q ->
  exists d : Qc,
    foldl (fun s ab => ssd_step ab.1 ab.2 s) (FNum acc)
      (zip (map FNum p) (map FNum q)) = FNum (acc + d) /\
    foldl (fun s ab => ssd_step ab.1 ab.2 s) (FNum acc)
      (zip (map FNum q) (map FNum p)) = FNum (acc + d) /\
    (Q2Qc 0 <= d)%Qc /\ (d = Q2Qc 0 <-> p = q).
Proof.
  revert q acc. induction p as [|a p IH]; intros [|b q] acc Hl;
    try discriminate.
  - exists (Q2Qc 0). simpl. rewrite Qcplus_0_r.
    split; [reflexivity|]. split; [reflexivity|].
    split; [apply Qcle_refl|]. split; reflexivity.
  - injection Hl as Hl. cbn [map zip zip_with foldl fst snd].
    unfold ssd_step at 2 4. cbn [fp_sub fp_opp fp_add fp_mul].
    destruct (IH q (acc + (a + - b) * (a + - b))%Qc Hl)
      as (d & H1 & H2 & Hd & Hz).
    exists ((a + - b) * (a + - b) + d)%Qc.
    pose proof (Qc_square_nonneg (a + - b)) as Hs.
    split; [|split; [|split]].
    + rewrite H1. f_equal. ring.
    + replace ((b + - a) * (b + - a))%Qc with ((a + - b) * (a + - b))%Qc by ring.
      rewrite H2. f_equal. ring.
    + apply Qcplus_nonneg_nonneg; assumption.
    + split.
      * intros E. apply Qc_sum_nonneg_zero in E as [Ea Ed]; try assumption.
        apply Qcmult_integral in Ea.
        assert (a = b) as ->.
        { assert (E : (a + - b)%Qc = Q2Qc 0) by (destruct Ea; assumption).
          replace a with ((a + - b) + b)%Qc by ring. rewrite E. ring. }
        f_equal. apply Hz. exact Ed.
      * intros [= -> ->]. replace (b + - b)%Qc with (Q2Qc 0) by ring.
        rewrite (proj2 Hz eq_refl). ring.
Qed.

(** X1. [computeSSD] of find_matches.cpp runs over the indices of its first
    argument: when the second vector is shorter it reads past its end, which
    is undefined; when it is at least as long the function returns, and the
    elements of the second vector beyond the length of the first play no
    part.  It never throws. *)
Theorem X1_ssd_runs_over_first_vector (vec1 vec2 : list fp) :
  ((length vec2 < length vec1)%nat ->
     find_matches.computeSSD vec1 vec2 = Undefined) /\
  ((length vec1 <= length vec2)%nat ->
     (exists ssd, find_matches.computeSSD vec1 vec2 = Returned ssd) /\
     find_matches.computeSSD vec1 vec2
     = find_matches.computeSSD vec1 (take (length vec1) vec2)) /\
  (forall e : error, find_matches.computeSSD vec1 vec2 <> Raised e).
Proof.
  rewrite !computeSSD_fold. split; [|split].
  - intros H. rewrite decide_False by lia. reflexivity.
  - intros H. rewrite decide_True by lia. split; [eauto|].
    rewrite decide_True by (rewrite length_take; lia).
    rewrite zip_take_r. reflexivity.
  - intros e. destruct (decide _); discriminate.
Qed.

Lemma X1_witness :
  find_matches.computeSSD [fp_of_Z 1; fp_of_Z 2] [fp_of_Z 1] = Undefined.
Proof.
  apply (proj1 (X1_ssd_runs_over_first_vector [fp_of_Z 1; fp_of_Z 2] [fp_of_Z 1])).
  simpl. lia.
Defined.

(** One turn of the loop on integer values stays among the integers. *)
Lemma ssd_step_ints (a b acc : Z) :
  ssd_step (fp_of_Z a) (fp_of_Z b) (fp_of_Z acc)
  = fp_of_Z (acc + (a - b) * (a - b)).
Proof.
  unfold ssd_step, fp_of_Z. cbn [fp_sub fp_opp fp_add fp_mul]. f_equal.
  apply Qc_is_canon. cbn [this Qcplus Qcmult Qcopp Q2Qc].
  rewrite !Qred_correct.
  rewrite inject_Z_plus, inject_Z_mult.
  unfold Z.sub. rewrite inject_Z_plus, inject_Z_opp. reflexivity.
Qed.

Lemma ssd_fold_ints (vec1 vec2 : list Z) (acc : Z) :
  length vec1 = length vec2 ->
  Forall (fun v => 0 <= v <= 255) vec1 -> Forall (fun v => 0 <= v <= 255) vec2 ->
  exists d : Z,
    foldl (fun s ab => ssd_step ab.1 ab.2 s) (fp_of_Z acc)
      (zip (map fp_of_Z vec1) (map fp_of_Z vec2)) = fp_of_Z (acc + d) /\
    foldl (fun s ab => ssd_step ab.1 ab.2 s) (fp_of_Z acc)
      (zip (map fp_of_Z vec2) (map fp_of_Z vec1)) = fp_of_Z (acc + d) /\
    0 <= d <= 65025 * Z.of_nat (length vec1) /\ (d = 0 <-> vec1 = vec2).
Proof.
  intros Hl H1. revert vec2 acc Hl.
  induction H1 as [|a vec1 Ha _ IH]; intros [|b vec2] acc Hl H2;
    try discriminate.
  - exists 0. rewrite Z.add_0_r. cbn. repeat split; lia.
  - injection Hl as Hl. inversion H2 as [|? ? Hb H2']; subst.
    cbn [map zip zip_with foldl fst snd]. rewrite !ssd_step_ints.
    destruct (IH vec2 (acc + (a - b) * (a - b)) Hl H2')
      as (d & E1 & E2 & Hd & Hz).
    exists ((a - b) * (a - b) + d).
    replace (acc + (b - a) * (b - a)) with (acc + (a - b) * (a - b)) by ring.
    rewrite E1, E2, !Z.add_assoc.
    split; [reflexivity|]. split; [reflexivity|].
    assert (Hsq : 0 <= (a - b) * (a - b) <= 65025).
    { pose proof (Z.square_nonneg (a - b)).
      pose proof (Z.mul_nonneg_nonneg (255 - (a - b)) (255 + (a - b))
                    ltac:(lia) ltac:(lia)).
      lia. }
    split; [cbn [length]; lia|]. split.
    + intros E. assert (a = b) as -> by nia.
      f_equal. apply Hz. nia.
    + intros [= -> ->]. rewrite (proj2 Hz eq_refl). lia.
Qed.

(** X2. On two vectors of channel values (integers from 0 to 255) of the same
    length, at most 258 (the patches of the programs hold 147), [computeSSD]
    returns an integer from 0 to 2^24 - 1 (every square and every partial
    sum stays below 2^24, where a float holds each integer exactly), the same
    integer for both orders of its arguments, and 0 exactly when the two
    vectors are equal. *)
Theorem X2_ssd_is_zero_only_on_equal_vectors (vec1 vec2 : list Z) :
  length vec1 = length vec2 -> (length vec1 <= 258)%nat ->
  Forall (fun v => 0 <= v <= 255) vec1 -> Forall (fun v => 0 <= v <= 255) vec2 ->
  exists n : Z,
    find_matches.computeSSD (map fp_of_Z vec1) (map fp_of_Z vec2)
    = Returned (fp_of_Z n) /\
    find_matches.computeSSD (map fp_of_Z vec2) (map fp_of_Z vec1)
    = Returned (fp_of_Z n) /\
    0 <= n < 2 ^ 24 /\ (n = 0 <-> vec1 = vec2).
Proof.
  intros Hl Hn H1 H2. rewrite !computeSSD_fold.
  rewrite !decide_True by (rewrite !length_map; lia).
  destruct (ssd_fold_ints vec1 vec2 0 Hl H1 H2) as (d & E1 & E2 & Hd & Hz).
  exists d. change fp_zero with (fp_of_Z 0). rewrite E1, E2, Z.add_0_l.
  split; [reflexivity|]. split; [reflexivity|]. split; [lia|exact Hz].
Qed.

Lemma X2_witness :
  exists n : Z,
    find_matches.computeSSD (map fp_of_Z [10; 255]) (map fp_of_Z [12; 0])
    = Returned (fp_of_Z n) /\
    find_matches.computeSSD (map fp_of_Z [12; 0]) (map fp_of_Z [10; 255])
    = Returned (fp_of_Z n) /\
    0 <= n < 2 ^ 24 /\ (n = 0 <-> [10; 255] = [12; 0]).
Proof.
  apply (X2_ssd_is_zero_only_on_equal_vectors [10; 255] [12; 0]).
  - reflexivity.
  - simpl. lia.
  - repeat constructor; lia.
  - repeat constructor; lia.
Defined.

Example ssd_example :
  find_matches.computeSSD (map fp_of_Z [10; 255]) (map fp_of_Z [12; 0])
  = Returned (fp_of_Z 65029).
Proof. vm_compute. reflexivity. Qed.

(** ** The cosine distance *)

Lemma computeCosineDistance_fold (fsqrt : fp -> fp) (v1 v2 : list fp) :
  findmatcheswithdeepnetwork.computeCosineDistance fsqrt v1 v2
  = if decide (length v1 <= length v2)%nat
    then
      let '(dotProduct, normV1, normV2) :=
        foldl (fun s ab => cosine_step ab.1 ab.2 s)
          (fp_zero, fp_zero, fp_zero) (zip v1 v2) in
      Returned (fp_sub fp_one
                  (fp_div dotProduct (fp_mul (fsqrt normV1) (fsqrt normV2))))
    else Undefined.
Proof.
  unfold findmatcheswithdeepnetwork.computeCosineDistance.
  pose proof (index_loop cosine_step v1 v2 (fp_zero, fp_zero, fp_zero)) as H.
  unfold for_range in *.
  rewrite (for_each_ext _ _
             (fun i s => do a <- vec_at v1 i; do b <- vec_at v2 i;
                         Returned (cosine_step a b s))).
  - rewrite H. destruct (decide _); [|reflexivity]. cbn [bind].
    destruct (foldl _ _ _) as [[d n1] n2]. reflexivity.
  - intros i [[d n1] n2] _. reflexivity.
Qed.

Lemma cosine_fold_zero (n : nat) (qs : list Qc) (c : Qc) :
  exists c' : Qc,
    foldl (fun s ab => cosine_step ab.1 ab.2 s) (fp_zero, fp_zero, FNum c)
      (zip (replicate n fp_zero) (map FNum qs))
    = (fp_zero, fp_zero, FNum c').
Proof.
  revert qs c. induction n as [|n IH]; intros qs c.
  - exists c. reflexivity.
  - destruct qs as [|b qs]; [exists c; reflexivity|].
    cbn [replicate map zip zip_with foldl fst snd].
    destruct (IH qs (c + b * b)%Qc) as (c' & Hc'). exists c'.
    rewrite <- Hc'. reflexivity.
Qed.

Lemma zero_over_zero_times (x : fp) :
  fp_sub fp_one (fp_div fp_zero (fp_mul fp_zero x)) = FNaN.
Proof.
  unfold fp_zero, fp_of_Z. change (Q2Qc (inject_Z 0)) with (Q2Qc 0).
  destruct x as [y|s|]; reflexivity.
Qed.

(** X3. [computeCosineDistance] reads the second vector at every index of the
    first: a shorter second vector is read past its end, which is undefined.
    For an all-zero first vector (the empty one included), finite values in
    the second and a square root that maps 0 to 0, it raises no error and
    returns NaN, the quotient of zero by zero. *)
Theorem X3_cosine_distance_edges (fsqrt : fp -> fp) :
  (forall v1 v2 : list fp,
      (length v2 < length v1)%nat ->
      findmatcheswithdeepnetwork.computeCosineDistance fsqrt v1 v2 = Undefined) /\
  (forall (n : nat) (qs : list Qc),
      fsqrt fp_zero = fp_zero -> (n <= length qs)%nat ->
      findmatcheswithdeepnetwork.computeCosineDistance fsqrt
        (replicate n fp_zero) (map FNum qs) = Returned FNaN).
Proof.
  split.
  - intros v1 v2 H. rewrite computeCosineDistance_fold.
    rewrite decide_False by lia. reflexivity.
  - intros n qs Hs Hn. rewrite computeCosineDistance_fold.
    rewrite decide_True by (rewrite length_replicate, length_map; lia).
    destruct (cosine_fold_zero n qs (Q2Qc 0)) as (c' & Hc').
    change (FNum (Q2Qc 0)) with fp_zero in Hc'. rewrite Hc'.
    rewrite Hs. rewrite zero_over_zero_times. reflexivity.
Qed.

Lemma X3_witness :
  findmatcheswithdeepnetwork.computeCosineDistance sqrt_floor
    (replicate 2 fp_zero) (map FNum [Q2Qc 3; Q2Qc 4]) = Returned FNaN.
Proof.
  apply (proj2 (X3_cosine_distance_edges sqrt_floor) 2%nat [Q2Qc 3; Q2Qc 4]).
  - vm_compute. reflexivity.
  - simpl. lia.
Defined.

(** ** The matcher on deep features *)

Lemma find_target_absent (features : list (string * list fp)) (name : string) :
  (forall r, r ∈ features -> r.1 <> name) ->
  findmatcheswithdeepnetwork.find_target features name = [].
Proof.
  induction features as [|r features IH]; intros H; simpl; [reflexivity|].
  destruct (String.eqb_spec r.1 name) as [E|_].
  - exfalso. apply (H r); [constructor|exact E].
  - apply IH. intros r' Hr'. apply H. now constructor.
Qed.

Lemma find_target_first (before after : list (string * list fp))
    (name : string) (vec : list fp) :
  (forall r, r ∈ before -> r.1 <> name) ->
  findmatcheswithdeepnetwork.find_target (before ++ (name, vec) :: after) name
  = vec.
Proof.
  induction before as [|r before IH]; intros H; simpl.
  - rewrite String.eqb_refl. reflexivity.
  - destruct (String.eqb_spec r.1 name) as [E|_].
    + exfalso. apply (H r); [constructor|exact E].
    + apply IH. intros r' Hr'. apply H. now constructor.
Qed.


(** X4. The matcher of findmatcheswithdeepnetwork.cpp exits with status 1 and
    prints no match when the feature file cannot be opened, when no record
    bears the base name of the target, and when the first record that bears
    it has an empty vector. *)
Theorem X4_deep_matcher_without_target (fsqrt : fp -> fp)
    (stof : string -> outcome fp) (targetImageFile : string) (numMatches : Z) :
  findmatcheswithdeepnetwork.main fsqrt stof targetImageFile None numMatches
  = Returned (1, []) /\
  (forall (text : string) (features : list (string * list fp)),
      read_records stof text = Returned features ->
      (forall r, r ∈ features -> r.1 <> path_filename targetImageFile) ->
      findmatcheswithdeepnetwork.main fsqrt stof targetImageFile (Some text)
        numMatches = Returned (1, [])) /\
  (forall (text : string) (before after : list (string * list fp)),
      read_records stof text
      = Returned (before ++ (path_filename targetImageFile, []) :: after) ->
      (forall r, r ∈ before -> r.1 <> path_filename targetImageFile) ->
      findmatcheswithdeepnetwork.main fsqrt stof targetImageFile (Some text)
        numMatches = Returned (1, [])).
Proof.
  split; [reflexivity|]. split.
  - intros text features Hr Hn. unfold findmatcheswithdeepnetwork.main.
    cbn [readFeatureVectorsFromFile]. rewrite Hr. cbn [bind].
    rewrite (find_target_absent features _ Hn). reflexivity.
  - intros text before after Hr Hn. unfold findmatcheswithdeepnetwork.main.
    cbn [readFeatureVectorsFromFile]. rewrite Hr. cbn [bind].
    rewrite (find_target_first before after _ [] Hn). reflexivity.
Qed.

Lemma X4_witness :
  findmatcheswithdeepnetwork.main sqrt_floor stof_decimal "olympus/b.jpg"
    (Some ("a.jpg,1,2" ++ String newline EmptyString)%string) 3
  = Returned (1, []).
Proof.
  apply (proj1 (proj2 (X4_deep_matcher_without_target sqrt_floor stof_decimal
                         "olympus/b.jpg" 3))
           _ [("a.jpg"%string, [fp_of_Z 1; fp_of_Z 2])]).
  - vm_compute. reflexivity.
  - intros r Hr. apply list_elem_of_singleton in Hr as ->. discriminate.
Defined.



Example deep_matcher_example :
  findmatcheswithdeepnetwork.main sqrt_floor stof_decimal "olympus/b.jpg"
    (Some ("a.jpg,4,3" ++ String newline ("b.jpg,3,4" ++ String newline EmptyString))%string)
    1
  = Returned (0, [(fp_of_Z 0, "b.jpg"%string)]).
Proof. vm_compute. reflexivity. Qed.

(** ** The first K of a ranking *)

Lemma sorted_take_before_drop {A : Type} (R : A -> A -> Prop) (l : list A)
    (k : nat) (a b : A) :
  StronglySorted R l -> a ∈ take k l -> b ∈ drop k l -> R a b.
Proof.
  intros Hs Ha Hb.
  apply elem_of_take in Ha as (i & Hi & Hik).
  apply list_elem_of_lookup in Hb as (j & Hj). rewrite lookup_drop in Hj.
  apply (strongly_sorted_lookup R l i (k + j) a b Hs); [lia|assumption..].
Qed.

(** X6. Without NaN among the scores, a matcher that is asked for K matches
    prints min(K, n) of the n scored records (none when K <= 0), and every
    record it prints ranks at least as well as every record it leaves out:
    no smaller pair is left out by the matchers that sort ascending, no
    greater pair by those that sort descending. *)
Theorem X6_printed_matches_are_the_best (numMatches : Z)
    (distances : list (fp * string)) :
  Forall not_nan distances ->
  (exists rest : list (fp * string),
      Permutation (find_matches.top_matches numMatches distances ++ rest)
        distances /\
      length (find_matches.top_matches numMatches distances)
      = Nat.min (Z.to_nat numMatches) (length distances) /\
      forall a b : fp * string,
        a ∈ find_matches.top_matches numMatches distances -> b ∈ rest ->
        pair_ltb b a = false) /\
  (exists rest : list (fp * string),
      Permutation (find_matchescolortexture.top_matches numMatches distances ++ rest)
        distances /\
      length (find_matchescolortexture.top_matches numMatches distances)
      = Nat.min (Z.to_nat numMatches) (length distances) /\
      forall a b : fp * string,
        a ∈ find_matchescolortexture.top_matches numMatches distances ->
        b ∈ rest -> pair_ltb a b = false).
Proof.
  intros Hg.
  unfold find_matches.top_matches, find_matchescolortexture.top_matches.
  rewrite !print_top_take, Z.sub_0_r. split.
  - exists (drop (Z.to_nat numMatches) (std_sort pair_ltb distances)).
    split; [rewrite take_drop; apply std_sort_perm|].
    split.
    + rewrite length_take.
      rewrite (Permutation_length (std_sort_perm pair_ltb distances)).
      reflexivity.
    + intros a b Ha Hb.
      apply (sorted_take_before_drop (in_order pair_ltb) _ _ a b
               (std_sort_strongly_sorted pair_ltb not_nan pair_ltb_asym
                  pair_ltb_trans distances Hg) Ha Hb).
  - exists (drop (Z.to_nat numMatches) (std_sort pair_gtb distances)).
    split; [rewrite take_drop; apply std_sort_perm|].
    split.
    + rewrite length_take.
      rewrite (Permutation_length (std_sort_perm pair_gtb distances)).
      reflexivity.
    + intros a b Ha Hb.
      apply (sorted_take_before_drop (in_order pair_gtb) _ _ a b
               (std_sort_strongly_sorted pair_gtb not_nan pair_gtb_asym
                  pair_gtb_trans distances Hg) Ha Hb).
Qed.

Lemma X6_witness :
  (exists rest : list (fp * string),
      Permutation
        (find_matches.top_matches 1
           [(fp_of_Q 1 2, "b.jpg"%string); (fp_of_Q 1 4, "a.jpg"%string)] ++ rest)
        [(fp_of_Q 1 2, "b.jpg"%string); (fp_of_Q 1 4, "a.jpg"%string)] /\
      length (find_matches.top_matches 1
                [(fp_of_Q 1 2, "b.jpg"%string); (fp_of_Q 1 4, "a.jpg"%string)])
      = Nat.min (Z.to_nat 1)
          (length [(fp_of_Q 1 2, "b.jpg"%string); (fp_of_Q 1 4, "a.jpg"%string)]) /\
      forall a b : fp * string,
        a ∈ find_matches.top_matches 1
              [(fp_of_Q 1 2, "b.jpg"%string); (fp_of_Q 1 4, "a.jpg"%string)] ->
        b ∈ rest -> pair_ltb b a = false).
Proof.
  apply (X6_printed_matches_are_the_best 1
           [(fp_of_Q 1 2, "b.jpg"%string); (fp_of_Q 1 4, "a.jpg"%string)]).
  repeat constructor; discriminate.
Defined.

(** ** The histogram intersection *)

Lemma fp_min_values (x y : Qc) :
  exists m : Qc,
    fp_min (FNum x) (FNum y) = FNum m /\ fp_min (FNum y) (FNum x) = FNum m /\
    (m <= x)%Qc /\ (m <= y)%Qc /\ (m = x \/ m = y).
Proof.
  unfold fp_min, fp_ltb.
  destruct (Qc_dec x y) as [[Hlt|Hgt]| ->].
  - exists x. rewrite bool_decide_eq_false_2 by (apply Qcle_not_lt, Qclt_le_weak, Hlt).
    rewrite bool_decide_eq_true_2 by exact Hlt.
    repeat split; auto using Qcle_refl, Qclt_le_weak.
  - exists y. rewrite bool_decide_eq_true_2 by exact Hgt.
    rewrite bool_decide_eq_false_2 by (apply Qcle_not_lt, Qclt_le_weak, Hgt).
    repeat split; auto using Qcle_refl, Qclt_le_weak.
  - exists y. rewrite bool_decide_eq_false_2 by apply Qclt_irrefl.
    repeat split; auto using Qcle_refl.
Qed.

Lemma intersection_values (p q : list Qc) :
  length p = length q ->
  Forall (fun x => (Q2Qc 0 <= x)%Qc) p -> Forall (fun x => (Q2Qc 0 <= x)%Qc) q ->
  exists m : Qc,
    custom_design.computeHistogramIntersection (map FNum p) (map FNum q) = FNum m /\
    custom_design.computeHistogramIntersection (map FNum q) (map FNum p) = FNum m /\
    (Q2Qc 0 <= m)%Qc /\ (m <= Qc_sum p)%Qc /\ (m <= Qc_sum q)%Qc.
Proof.
  unfold custom_design.computeHistogramIntersection, fp_sum.
  revert q. induction p as [|x p IH]; intros [|y q] Hl Hp Hq; try discriminate.
  - exists (Q2Qc 0). split; [reflexivity|]. split; [reflexivity|].
    split; [|split]; exact (Qcle_refl (Q2Qc 0)).
  - injection Hl as Hl.
    inversion Hp as [|? ? Hx Hp']; subst. inversion Hq as [|? ? Hy Hq']; subst.
    clear Hp Hq. rename Hp' into Hp, Hq' into Hq.
    destruct (IH q Hl Hp Hq) as (m & H1 & H2 & H0 & Hmp & Hmq).
    destruct (fp_min_values x y) as (m0 & E1 & E2 & Hm0x & Hm0y & Hor).
    exists (m0 + m)%Qc. cbn [map zip_with foldr].
    rewrite H1, H2, E1, E2. cbn [fp_add].
    split; [reflexivity|]. split; [reflexivity|].
    split; [|split].
    + apply Qcplus_nonneg_nonneg; [|exact H0]. destruct Hor as [->| ->]; assumption.
    + unfold Qc_sum. cbn [foldr]. apply Qcplus_le_compat; assumption.
    + unfold Qc_sum. cbn [foldr]. apply Qcplus_le_compat; assumption.
Qed.

Lemma intersection_self (p : list Qc) :
  custom_design.computeHistogramIntersection (map FNum p) (map FNum p)
  = FNum (Qc_sum p).
Proof.
  unfold custom_design.computeHistogramIntersection, fp_sum, Qc_sum.
  induction p as [|x p IH]; [reflexivity|].
  cbn [map zip_with foldr]. rewrite IH.
  unfold fp_min, fp_ltb. rewrite bool_decide_eq_false_2 by apply Qclt_irrefl.
  reflexivity.
Qed.

(** X8. For two histograms of the same size with finite non-negative values,
    [computeHistogramIntersection] does not depend on the order of its
    arguments and lies between 0 and the smaller of the two sums; the
    intersection of a histogram with itself is its sum.  Hence for two
    normalized histograms the distance 1 - intersection lies in [0, 1], and it
    is 0 between a histogram and itself. *)
Theorem X8_intersection_bounds (p q : list Qc) :
  length p = length q ->
  Forall (fun x => (Q2Qc 0 <= x)%Qc) p -> Forall (fun x => (Q2Qc 0 <= x)%Qc) q ->
  (exists m : Qc,
      custom_design.computeHistogramIntersection (map FNum p) (map FNum q)
      = FNum m /\
      custom_design.computeHistogramIntersection (map FNum q) (map FNum p)
      = FNum m /\
      (Q2Qc 0 <= m)%Qc /\ (m <= Qc_sum p)%Qc /\ (m <= Qc_sum q)%Qc /\
      (Qc_sum p = Q2Qc 1 ->
       exists d : Qc,
         fp_sub fp_one
           (custom_design.computeHistogramIntersection (map FNum p) (map FNum q))
         = FNum d /\ (Q2Qc 0 <= d)%Qc /\ (d <= Q2Qc 1)%Qc)) /\
  custom_design.computeHistogramIntersection (map FNum p) (map FNum p)
  = FNum (Qc_sum p) /\
  (Qc_sum p = Q2Qc 1 ->
   fp_sub fp_one
     (custom_design.computeHistogramIntersection (map FNum p) (map FNum p))
   = fp_zero).
Proof.
  intros Hl Hp Hq. split; [|split].
  - destruct (intersection_values p q Hl Hp Hq) as (m & H1 & H2 & H0 & Hmp & Hmq).
    exists m. repeat (split; [assumption|]).
    intros Hone. exists (Q2Qc 1 + - m)%Qc. rewrite H1.
    split; [reflexivity|]. rewrite Hone in Hmp. split.
    + apply Qcle_minus_iff in Hmp. exact Hmp.
    + rewrite <- (Qcplus_0_r (Q2Qc 1)) at 2.
      apply Qcplus_le_compat; [apply Qcle_refl|].
      apply Qcopp_le_compat in H0. exact H0.
  - apply intersection_self.
  - intros Hone. rewrite intersection_self, Hone. reflexivity.
Qed.

Lemma X8_witness :
  custom_design.computeHistogramIntersection
    (map FNum [Q2Qc (1 # 4); Q2Qc (3 # 4)]) (map FNum [Q2Qc (1 # 4); Q2Qc (3 # 4)])
  = FNum (Qc_sum [Q2Qc (1 # 4); Q2Qc (3 # 4)]).
Proof.
  apply (X8_intersection_bounds [Q2Qc (1 # 4); Q2Qc (3 # 4)]
           [Q2Qc (1 # 4); Q2Qc (3 # 4)]).
  - reflexivity.
  - repeat constructor; discriminate.
  - repeat constructor; discriminate.
Defined.

(** ** What the histograms and the patch read *)

(** X9. The histogram of compute_histo_features.cpp is built from the red and
    the green channel alone: two images of the same size whose pixels differ
    in the blue channel only have the same histogram (the values are not
    divided by the sum of the three channels). *)
Theorem X9_rg_histogram_ignores_blue (image image' : Image) (bins : Z) :
  rows image = rows image' -> cols image = cols image' ->
  (forall y x : Z,
      0 <= y < rows image -> 0 <= x < cols image ->
      px1 (pixel_at image y x) = px1 (pixel_at image' y x) /\
      px2 (pixel_at image y x) = px2 (pixel_at image' y x)) ->
  compute_histo_features.computeRGChromaticityHistogram image bins
  = compute_histo_features.computeRGChromaticityHistogram image' bins.
Proof.
  intros Hr Hc Hp.
  unfold compute_histo_features.computeRGChromaticityHistogram, for_range.
  rewrite <- Hr, <- Hc.
  apply for_each_ext. intros y hist Hy. apply elem_of_seqZ in Hy.
  apply for_each_ext. intros x hist' Hx. apply elem_of_seqZ in Hx.
  rewrite !at_inside by lia. cbn [bind].
  destruct (Hp y x ltac:(lia) ltac:(lia)) as [-> ->]. reflexivity.
Qed.

Lemma X9_witness :
  compute_histo_features.computeRGChromaticityHistogram
    (uniform_image 2 3 (mkVec3b x00 x00 xff)) 16
  = compute_histo_features.computeRGChromaticityHistogram
    (uniform_image 2 3 (mkVec3b xff x00 xff)) 16.
Proof.
  apply (X9_rg_histogram_ignores_blue
           (uniform_image 2 3 (mkVec3b x00 x00 xff))
           (uniform_image 2 3 (mkVec3b xff x00 xff)) 16).
  - reflexivity.
  - reflexivity.
  - intros y x _ _. split; reflexivity.
Defined.

Lemma binary32_chroma_bin_checked :
  forallb (fun bins =>
    forallb (fun v =>
      match Binary32.chroma_bin v bins with
      | Some i => i =? Z.min (v * bins / 255) (bins - 1)
      | None => false
      end) (seqZ 0 256)) (seqZ 1 32) = true.
Proof. vm_compute. reflexivity. Qed.

(** X10. The bin that compute_histo_features.cpp gives a channel value v in
    [0, 255] is floor(v * bins / 255) clamped to bins - 1: value 255 falls in
    the last bin, not beyond it.  This holds of the exact values for every
    bin count of an int, and of the binary32 computation (the quotient by
    255.0 in double, rounded to float, times bins in float, truncated) for
    every bin count up to 32; the programs use 16. *)
Theorem X10_chroma_bin_formula (v bins : Z) :
  0 <= v <= 255 ->
  (1 <= bins <= INT_MAX ->
     compute_histo_features.chroma_bin v bins
     = Returned (Z.min (v * bins / 255) (bins - 1))) /\
  (1 <= bins <= 32 ->
     Binary32.chroma_bin v bins = Some (Z.min (v * bins / 255) (bins - 1))).
Proof.
  intros Hv. split.
  - intros Hb. apply chroma_bin_spec; assumption.
  - intros Hb. pose proof binary32_chroma_bin_checked as H.
    rewrite forallb_forall in H.
    specialize (H bins ltac:(apply list_elem_of_In, elem_of_seqZ; lia)).
    rewrite forallb_forall in H.
    specialize (H v ltac:(apply list_elem_of_In, elem_of_seqZ; lia)).
    destruct (Binary32.chroma_bin v bins) as [i|]; [|discriminate].
    apply Z.eqb_eq in H. congruence.
Qed.

Lemma X10_witness :
  compute_histo_features.chroma_bin 255 16 = Returned (Z.min (255 * 16 / 255) (16 - 1)) /\
  Binary32.chroma_bin 255 16 = Some (Z.min (255 * 16 / 255) (16 - 1)).
Proof.
  split.
  - apply (proj1 (X10_chroma_bin_formula 255 16 ltac:(lia))).
    unfold INT_MAX. lia.
  - apply (proj2 (X10_chroma_bin_formula 255 16 ltac:(lia))). lia.
Defined.

(** ** The content of the centre patch *)

Lemma lookup_three {A : Type} (a0 a1 a2 : A) (c : nat) (f : nat -> A) :
  f 0%nat = a0 -> f 1%nat = a1 -> f 2%nat = a2 -> (c < 3)%nat ->
  [a0; a1; a2] !! c = Some (f c).
Proof.
  intros <- <- <- Hc.
  destruct c as [|[|[|c]]]; [reflexivity..|lia].
Qed.

(** X11. Whenever [computeBaselineFeatureVector] returns, its vector lists the
    49 pixels of the 7 x 7 block centred at (rows / 2, cols / 2) row by row,
    three values per pixel in the order of the channels in memory (blue,
    green, red), each the channel value as an integer from 0 to 255. *)
Theorem X11_patch_lists_the_centre_block (image : Image) (featureVector : list fp) :
  valid_image image ->
  compute_features.computeBaselineFeatureVector image = Returned featureVector ->
  forall dy dx c : nat,
    (dy < 7)%nat -> (dx < 7)%nat -> (c < 3)%nat ->
    featureVector !! (21 * dy + 3 * dx + c)%nat
    = Some (fp_of_Z (uchar_to_int (channel (patch_pixel image dy dx) c))).
Proof.
  intros Hv Hret.
  destruct (baseline_returned_size image featureVector Hv Hret) as [H7r H7c].
  rewrite (baseline_loops image Hv) in Hret.
  pose proof (centre_inside _ H7r). pose proof (centre_inside _ H7c).
  assert (Hq : int_div (rows image) 2 = rows image / 2 /\
               int_div (cols image) 2 = cols image / 2).
  { unfold int_div. rewrite !Z.quot_div_nonneg by lia. split; reflexivity. }
  unfold patch_pixel. destruct Hq as [-> ->].
  set (value := fun dy dx c =>
         fp_of_Z (uchar_to_int
           (channel (pixel_at image (rows image / 2 - 3 + Z.of_nat dy)
                                    (cols image / 2 - 3 + Z.of_nat dx)) c))).
  destruct (for_each_inv
              (fun k (v : list fp) =>
                 length v = (21 * k)%nat /\
                 forall dy dx c, (dy < k)%nat -> (dx < 7)%nat -> (c < 3)%nat ->
                   v !! (21 * dy + 3 * dx + c)%nat = Some (value dy dx c))
              (seqZ (rows image / 2 - 3) 7)
              (fun y featureVector =>
                 for_each (seqZ (cols image / 2 - 3) 7)
                   (fun x featureVector => push_pixel image y x featureVector)
                   featureVector) []) as (v & Hv' & _ & Hall).
  - split; [reflexivity|]. intros; lia.
  - intros k y s Hk [Hlen Hs]. apply lookup_seqZ in Hk as [-> Hk].
    destruct (for_each_inv
                (fun j (v : list fp) =>
                   length v = (21 * k + 3 * j)%nat /\
                   (forall dy dx c, (dy < k)%nat -> (dx < 7)%nat -> (c < 3)%nat ->
                      v !! (21 * dy + 3 * dx + c)%nat = Some (value dy dx c)) /\
                   (forall dx c, (dx < j)%nat -> (c < 3)%nat ->
                      v !! (21 * k + 3 * dx + c)%nat = Some (value k dx c)))
                (seqZ (cols image / 2 - 3) 7)
                (fun x featureVector =>
                   push_pixel image (rows image / 2 - 3 + Z.of_nat k) x
                     featureVector) s) as (v & Hret' & Hlen' & Hold & Hnew).
    + split; [lia|]. split; [exact Hs|]. intros; lia.
    + intros j x t Hj (Hlt & Hold & Hnew). apply lookup_seqZ in Hj as [-> Hj].
      unfold push_pixel. rewrite at_inside by lia. cbn [bind].
      eexists. split; [reflexivity|]. split; [|split].
      * rewrite length_app. simpl. lia.
      * intros dy dx c Hdy Hdx Hc. rewrite lookup_app_l by lia.
        apply Hold; assumption.
      * intros dx c Hdx Hc.
        destruct (decide (dx < j)%nat) as [Hlt'|Hge].
        -- rewrite lookup_app_l by lia. apply Hnew; assumption.
        -- assert (dx = j) as -> by lia.
           rewrite lookup_app_r by lia.
           replace (21 * k + 3 * j + c - length t)%nat with c by lia.
           apply (lookup_three _ _ _ c (value k j)); [reflexivity..|exact Hc].
    + exists v. split; [exact Hret'|]. rewrite length_seqZ in *.
      split; [lia|]. intros dy dx c Hdy Hdx Hc.
      destruct (decide (dy < k)%nat) as [Hlt|Hge].
      * apply Hold; assumption.
      * assert (dy = k) as -> by lia. apply Hnew; [lia|assumption].
  - rewrite Hv' in Hret. injection Hret as <-.
    intros dy dx c Hdy Hdx Hc. apply Hall; [rewrite length_seqZ; lia|assumption..].
Qed.

Lemma X11_witness :
  replicate 147 (fp_of_Z 100) !! (21 * 1 + 3 * 2 + 0)%nat
  = Some (fp_of_Z (uchar_to_int
            (channel (patch_pixel (uniform_image 9 9 gray) 1 2) 0))).
Proof.
  apply (X11_patch_lists_the_centre_block (uniform_image 9 9 gray)
           (replicate 147 (fp_of_Z 100))); try lia.
  - unfold valid_image, INT_MAX. simpl. lia.
  - vm_compute. reflexivity.
Defined.

(** ** The two halves of the multi-region histogram *)

Lemma count_pixel_same (image image' : Image) (bins y x : Z) (hist : list Z) :
  rows image' = rows image -> cols image' = cols image ->
  (0 <= y < rows image -> 0 <= x < cols image ->
   pixel_at image' y x = pixel_at image y x) ->
  count_pixel image' bins y x hist = count_pixel image bins y x hist.
Proof.
  intros Hr Hc Hp. unfold count_pixel, at_. rewrite Hr, Hc.
  destruct (bool_decide _) eqn:E; [|reflexivity].
  apply bool_decide_eq_true in E. rewrite Hp by lia. reflexivity.
Qed.

(** The region histogram reads the pixels of the region only. *)
Lemma region_histogram_same (image image' : Image) (bins : Z) (region : Rect) :
  rows image' = rows image -> cols image' = cols image ->
  (forall y x : Z,
      rect_y region <= y < rect_y region + rect_height region ->
      rect_x region <= x < rect_x region + rect_width region ->
      0 <= y < rows image -> 0 <= x < cols image ->
      pixel_at image' y x = pixel_at image y x) ->
  compute_featuresmulti.computeRGBHistogram image' bins region
  = compute_featuresmulti.computeRGBHistogram image bins region.
Proof.
  intros Hr Hc Hp. unfold compute_featuresmulti.computeRGBHistogram, for_range.
  destruct (int_add (rect_y region) (rect_height region)) as [yEnd| |] eqn:Ey;
    [|reflexivity..].
  apply int_result_returned in Ey. cbn [bind].
  apply for_each_ext. intros y hist Hy. apply elem_of_seqZ in Hy.
  destruct (int_add (rect_x region) (rect_width region)) as [xEnd| |] eqn:Ex;
    [|reflexivity..].
  apply int_result_returned in Ex. cbn [bind].
  apply for_each_ext. intros x hist' Hx. apply elem_of_seqZ in Hx.
  apply count_pixel_same; [assumption..|].
  intros Hy' Hx'. apply Hp; lia.
Qed.

Lemma half_height (n : Z) : 0 <= n -> int_div n 2 = n / 2 /\ 0 <= n / 2 /\ 2 * (n / 2) <= n.
Proof.
  intros Hn. unfold int_div. rewrite Z.quot_div_nonneg by lia.
  split; [reflexivity|]. split; [apply Z.div_pos; lia|].
  apply Z.mul_div_le. lia.
Qed.

(** X12. The two rectangles of the multi-region programs lie inside the
    image: the top half is the rows [0, rows / 2) and the bottom half the
    rows [rows / 2, 2 * (rows / 2)).  Each histogram counts cols * (rows / 2)
    pixels, and the last row of an image of odd height is in neither half:
    two images that agree on the rows below 2 * (rows / 2) have the same two
    histograms. *)
Theorem X12_halves_of_the_image (image : Image) (bins : Z) :
  valid_image image ->
  rect_inside (compute_featuresmulti.topHalf image) image /\
  rect_inside (compute_featuresmulti.bottomHalf image) image /\
  (1 <= bins -> 255 * bins <= INT_MAX -> cols image * (rows image / 2) <= 2 ^ 24 ->
   exists topHist bottomHist : list Z,
     compute_featuresmulti.computeRGBHistogram image bins
       (compute_featuresmulti.topHalf image) = Returned topHist /\
     compute_featuresmulti.computeRGBHistogram image bins
       (compute_featuresmulti.bottomHalf image) = Returned bottomHist /\
     hist_sum topHist = cols image * (rows image / 2) /\
     hist_sum bottomHist = cols image * (rows image / 2)) /\
  (forall image' : Image,
     same_up_to_even_height image image' ->
     compute_featuresmulti.computeRGBHistogram image' bins
       (compute_featuresmulti.topHalf image')
     = compute_featuresmulti.computeRGBHistogram image bins
         (compute_featuresmulti.topHalf image) /\
     compute_featuresmulti.computeRGBHistogram image' bins
       (compute_featuresmulti.bottomHalf image')
     = compute_featuresmulti.computeRGBHistogram image bins
         (compute_featuresmulti.bottomHalf image)).
Proof.
  intros Hv. pose proof Hv as [Hr Hc].
  destruct (half_height (rows image) ltac:(lia)) as (Hq & H0 & H2).
  assert (Htop : rect_inside (compute_featuresmulti.topHalf image) image).
  { unfold rect_inside, compute_featuresmulti.topHalf. cbn. rewrite Hq. lia. }
  assert (Hbot : rect_inside (compute_featuresmulti.bottomHalf image) image).
  { unfold rect_inside, compute_featuresmulti.bottomHalf. cbn. rewrite Hq. lia. }
  split; [exact Htop|]. split; [exact Hbot|]. split.
  - intros Hb Hm Hn.
    destruct (region_histogram_sum image bins _ Hv Htop Hb Hm)
      as (t & Ht & _ & _ & Hts).
    { unfold compute_featuresmulti.topHalf. cbn. rewrite Hq. exact Hn. }
    destruct (region_histogram_sum image bins _ Hv Hbot Hb Hm)
      as (b & Hb' & _ & _ & Hbs).
    { unfold compute_featuresmulti.bottomHalf. cbn. rewrite Hq. exact Hn. }
    exists t, b. split; [exact Ht|]. split; [exact Hb'|].
    unfold compute_featuresmulti.topHalf in Hts.
    unfold compute_featuresmulti.bottomHalf in Hbs.
    cbn in Hts, Hbs. rewrite Hq in Hts, Hbs. split; assumption.
  - intros image' (Hr' & Hc' & Hp).
    unfold compute_featuresmulti.topHalf, compute_featuresmulti.bottomHalf.
    rewrite Hr', Hc'. split.
    + apply region_histogram_same; [assumption..|].
      cbn. rewrite Hq. intros y x Hy Hx _ _. apply Hp; lia.
    + apply region_histogram_same; [assumption..|].
      cbn. rewrite Hq. intros y x Hy Hx _ _. apply Hp; lia.
Qed.

Lemma X12_witness :
  compute_featuresmulti.computeRGBHistogram three_rows_last_gray 8
    (compute_featuresmulti.topHalf three_rows_last_gray)
  = compute_featuresmulti.computeRGBHistogram three_rows 8
      (compute_featuresmulti.topHalf three_rows) /\
  compute_featuresmulti.computeRGBHistogram three_rows_last_gray 8
    (compute_featuresmulti.bottomHalf three_rows_last_gray)
  = compute_featuresmulti.computeRGBHistogram three_rows 8
      (compute_featuresmulti.bottomHalf three_rows).
Proof.
  apply (X12_halves_of_the_image three_rows 8).
  - unfold valid_image, INT_MAX. simpl. lia.
  - split; [reflexivity|]. split; [reflexivity|].
    intros y x Hy Hx. change (rows three_rows) with 3 in Hy.
    change (3 / 2) with 1 in Hy. cbn.
    destruct (Z.eqb_spec y 2); [lia|reflexivity].
Defined.

(** ** Reading a store line by line *)

Lemma read_records_line (stof : string -> outcome fp) (line rest : string) :
  has_charb newline line = false ->
  read_records stof (terminated line ++ rest)
  = (do r <- parse_record stof line;
     do features <- read_records stof rest;
     Returned (r :: features)).
Proof.
  intros H. rewrite read_records_unfolded. unfold terminated.
  rewrite string_app_assoc. cbn [String.append].
  rewrite (getline_app newline line rest H). reflexivity.
Qed.

Lemma read_records_empty (stof : string -> outcome fp) :
  read_records stof EmptyString = Returned [].
Proof. rewrite read_records_unfolded. reflexivity. Qed.

Lemma read_records_last_line (stof : string -> outcome fp) (line : string) :
  line <> EmptyString -> has_charb newline line = false ->
  read_records stof line
  = (do r <- parse_record stof line; Returned [r]).
Proof.
  intros Hne H. rewrite read_records_unfolded.
  rewrite (getline_whole newline line Hne H), read_records_empty.
  destruct (parse_record stof line); reflexivity.
Qed.

(** X13. A store is read line by line: the records are the parse of each
    line, in order, and the first line that fails to parse decides the
    outcome.  The line feed after the last line may be missing.  An empty
    line is read as a record with an empty imageId and no value. *)
Theorem X13_store_is_read_line_by_line (stof : string -> outcome fp)
    (lines : list string) :
  Forall (fun line => has_charb newline line = false) lines ->
  read_records stof (join (map terminated lines))
  = map_outcome (parse_record stof) lines /\
  (forall last : string,
      last <> EmptyString -> has_charb newline last = false ->
      read_records stof (join (map terminated lines) ++ last)
      = map_outcome (parse_record stof) (lines ++ [last])) /\
  parse_record stof EmptyString = Returned (EmptyString, []).
Proof.
  intros Hl. split; [|split; [|reflexivity]].
  - induction Hl as [|line lines Hline _ IH].
    + apply read_records_empty.
    + cbn [map join foldr map_outcome]. fold (join (map terminated lines)).
      rewrite (read_records_line stof line _ Hline), IH. reflexivity.
  - intros last Hne Hlast. induction Hl as [|line lines Hline _ IH].
    + cbn [map join foldr app map_outcome String.append].
      rewrite (read_records_last_line stof last Hne Hlast).
      destruct (parse_record stof last); reflexivity.
    + cbn [map join foldr app map_outcome]. fold (join (map terminated lines)).
      rewrite string_app_assoc.
      rewrite (read_records_line stof line _ Hline), IH. reflexivity.
Qed.

Lemma X13_witness :
  read_records stof_decimal
    (join (map terminated ["a.jpg,1,2"%string; EmptyString; "b.jpg"%string]))
  = map_outcome (parse_record stof_decimal) ["a.jpg,1,2"%string; EmptyString; "b.jpg"%string].
Proof.
  apply (X13_store_is_read_line_by_line stof_decimal
           ["a.jpg,1,2"%string; EmptyString; "b.jpg"%string]).
  repeat constructor.
Defined.

(** ** Exit statuses of the baseline programs *)

Section BaselineExits.

Variable directory_listing : string -> list string.
Variable imread : string -> option Image.
Variable show_float : fp -> string.
Variable opens : string -> bool.




End BaselineExits.


(** X15. The matcher of find_matches.cpp exits with status 1, printing no
    match, when it is given fewer than four arguments, when the target image
    does not decode, when the feature type is not "baseline", and when the
    feature file cannot be opened; and whenever it exits, a status other than
    0 has one of these four causes, while status 0 comes with a number of
    matches that [stoi] read and at most that many printed matches. *)
Theorem X15_matcher_exit_status (imread : string -> option Image)
    (stof : string -> outcome fp) (open_file : string -> option string)
    (stoi : string -> outcome Z) (argv : list string) :
  ((length argv < 5)%nat ->
   find_matches_argv.main imread stof open_file stoi argv = Returned (1, [])) /\
  (forall (program targetImageFile featureType featureFile count : string)
          (more : list string) (numMatches : Z),
      argv = program :: targetImageFile :: featureType :: featureFile
               :: count :: more ->
      stoi count = Returned numMatches ->
      (imread targetImageFile = None ->
       find_matches_argv.main imread stof open_file stoi argv
       = Returned (1, [])) /\
      (imread targetImageFile <> None -> featureType <> "baseline"%string ->
       find_matches_argv.main imread stof open_file stoi argv
       = Returned (1, [])) /\
      (forall (targetImage : Image) (targetFeatureVector : list fp),
          imread targetImageFile = Some targetImage ->
          featureType = "baseline"%string ->
          compute_features.computeBaselineFeatureVector targetImage
          = Returned targetFeatureVector ->
          open_file featureFile = None ->
          find_matches_argv.main imread stof open_file stoi argv
          = Returned (1, []))) /\
  (forall (code : Z) (printed : list (fp * string)),
      find_matches_argv.main imread stof open_file stoi argv
      = Returned (code, printed) ->
      (code = 1 /\ printed = [] /\ (length argv < 5)%nat) \/
      exists (program targetImageFile featureType featureFile count : string)
             (more : list string) (numMatches : Z),
        argv = program :: targetImageFile :: featureType :: featureFile
                 :: count :: more /\
        stoi count = Returned numMatches /\
        ((code = 0 /\ (length printed <= Z.to_nat numMatches)%nat /\
          imread targetImageFile <> None /\ featureType = "baseline"%string /\
          open_file featureFile <> None) \/
         (code = 1 /\ printed = [] /\
          (imread targetImageFile = None \/ featureType <> "baseline"%string \/
           open_file featureFile = None)))).
Proof.
  split; [|split].
  - intros Hn.
    destruct argv as [|a0 [|a1 [|a2 [|a3 [|a4 more]]]]]; try reflexivity.
    cbn [length] in Hn. lia.
  - intros program target featureType featureFile count more K -> HK.
    unfold find_matches_argv.main, find_matches.main. rewrite HK. cbn [bind].
    split; [|split].
    + intros ->. reflexivity.
    + intros Him Ht. destruct (imread target); [|contradiction].
      destruct (String.eqb_spec featureType "baseline"); [contradiction|].
      reflexivity.
    + intros image tv -> -> -> ->. reflexivity.
  - intros code printed.
    destruct argv as [|a0 [|a1 [|a2 [|a3 [|a4 more]]]]];
      try (intros [= <- <-]; left; cbn [length]; repeat split; lia).
    unfold find_matches_argv.main.
    destruct (stoi a4) as [K| |] eqn:HK; try discriminate. cbn [bind].
    intros Hmain. right. exists a0, a1, a2, a3, a4, more, K.
    split; [reflexivity|]. split; [exact HK|].
    unfold find_matches.main in Hmain.
    destruct (imread a1) as [image|].
    2: { injection Hmain as <- <-. right. auto. }
    destruct (String.eqb_spec a2 "baseline") as [->|Hne].
    2: { injection Hmain as <- <-. right. auto. }
    destruct (compute_features.computeBaselineFeatureVector image) as [tv| |];
      try discriminate. cbn [bind] in Hmain.
    destruct (open_file a3) as [inFile|].
    2: { injection Hmain as <- <-. right. auto. }
    destruct (find_matches.score_lines stof tv inFile) as [ds| |];
      try discriminate. cbn [bind] in Hmain.
    injection Hmain as <- <-. left. split; [reflexivity|].
    split; [|repeat split; congruence].
    unfold find_matches.top_matches. rewrite print_top_take, Z.sub_0_r.
    rewrite length_take. lia.
Qed.

Lemma X15_witness :
  find_matches_argv.main gray_imread stof_decimal (fun _ => None)
    (fun _ => Returned 3)
    ["find_matches"; "pic.0001.jpg"; "histogram"; "features.csv"; "3"]%string
  = Returned (1, []).
Proof.
  apply (proj1 (proj2 (proj1 (proj2 (X15_matcher_exit_status gray_imread
                                       stof_decimal (fun _ => None)
                                       (fun _ => Returned 3)
                                       ["find_matches"; "pic.0001.jpg";
                                        "histogram"; "features.csv";
                                        "3"]%string))
                                "find_matches"%string "pic.0001.jpg"%string
                                "histogram"%string "features.csv"%string
                                "3"%string [] 3 eq_refl eq_refl)));
    discriminate.
Defined.

(** ** The listing of the least similar results *)

Lemma print_least_from_step (i numMatches : Z) (distances : list (fp * string)) :
  custom_design_listings.print_least_from i numMatches distances
  = if custom_design_listings.least_condition i numMatches distances
    then do d <- vec_at distances i;
         do rest <- custom_design_listings.print_least_from (i - 1) numMatches
                      distances;
         Returned (d :: rest)
    else Returned [].
Proof.
  rewrite custom_design_listings.print_least_from_unfold_eq.
  unfold custom_design_listings.print_least_from_unfold.
  destruct (inspect (custom_design_listings.least_condition i numMatches distances))
    as [[|] e]; cbn; rewrite e; reflexivity.
Qed.

Lemma size_t_small (z : Z) : 0 <= z < 2 ^ 64 -> z mod SIZE_MODULUS = z.
Proof. intros H. apply Z.mod_small. exact H. Qed.

Lemma size_t_wrapped (z : Z) :
  - 2 ^ 64 <= z < 0 -> z mod SIZE_MODULUS = z + 2 ^ 64.
Proof.
  intros H. symmetry. apply (Z.mod_unique z SIZE_MODULUS (-1)).
  - left. unfold SIZE_MODULUS. lia.
  - unfold SIZE_MODULUS. lia.
Qed.

Lemma first_index (n : Z) :
  0 <= n <= INT_MAX -> int_of_size_t (size_t_sub n 1) = n - 1.
Proof.
  intros Hn. unfold int_of_size_t, size_t_sub, INT_MAX in *.
  destruct (Z.eq_dec n 0) as [->|Hne].
  - reflexivity.
  - rewrite size_t_small by lia. rewrite Z.mod_small by lia. lia.
Qed.

(** From [i] down, with 0 <= K <= n: the elements at the indices
    [i, i - 1, ..., n - K]. *)
Lemma print_least_from_within (distances : list (fp * string))
    (numMatches : Z) (m : nat) :
  vec_size distances <= INT_MAX ->
  0 <= numMatches <= vec_size distances ->
  (m <= Z.to_nat numMatches)%nat ->
  custom_design_listings.print_least_from
    (vec_size distances - numMatches + Z.of_nat m - 1) numMatches distances
  = Returned (rev (take m (drop (Z.to_nat (vec_size distances - numMatches))
                             distances))).
Proof.
  intros Hn HK. unfold vec_size, INT_MAX in *.
  set (n := Z.of_nat (length distances)) in *.
  induction m as [|m IH]; intros Hm; rewrite print_least_from_step;
    unfold custom_design_listings.least_condition, size_t_sub, size_t_of_int,
      vec_size; fold n.
  - rewrite (size_t_small numMatches) by lia.
    rewrite (size_t_small (n - numMatches)) by lia.
    destruct (Z.eq_dec (n - numMatches) 0) as [E|E].
    + replace (n - numMatches + Z.of_nat 0 - 1) with (-1) by lia.
      rewrite andb_false_r. reflexivity.
    + rewrite (size_t_small (n - numMatches + Z.of_nat 0 - 1)) by lia.
      replace (n - numMatches <=? n - numMatches + Z.of_nat 0 - 1) with false
        by (symmetry; apply Z.leb_gt; lia).
      reflexivity.
  - rewrite (size_t_small numMatches) by lia.
    rewrite (size_t_small (n - numMatches)) by lia.
    rewrite (size_t_small (n - numMatches + Z.of_nat (S m) - 1)) by lia.
    replace (n - numMatches <=? n - numMatches + Z.of_nat (S m) - 1) with true
      by (symmetry; apply Z.leb_le; lia).
    replace (0 <=? n - numMatches + Z.of_nat (S m) - 1) with true
      by (symmetry; apply Z.leb_le; lia).
    cbn [andb].
    replace (n - numMatches + Z.of_nat (S m) - 1 - 1)
      with (n - numMatches + Z.of_nat m - 1) by lia.
    rewrite IH by lia.
    destruct (lookup_lt_is_Some_2 distances
                (Z.to_nat (n - numMatches) + m)) as [d Hd]; [lia|].
    unfold vec_at. rewrite bool_decide_eq_true_2 by lia.
    replace (Z.to_nat (n - numMatches + Z.of_nat (S m) - 1))
      with (Z.to_nat (n - numMatches) + m)%nat by lia.
    rewrite Hd. cbn [bind].
    rewrite (take_S_r _ m d) by (rewrite lookup_drop; exact Hd).
    rewrite rev_app_distr. reflexivity.
Qed.

(** X16. The listing of the least similar results at the end of
    [findTopMatches] (custom_design.cpp) prints, for 0 <= K <= n, the last K
    of the n ranked records, the worst first.  For K > n the comparison of
    the index with [distances.size() - numMatches], made in [size_t], fails at
    once and the listing is empty, while the listing of the best matches
    holds all n records (ranked, when no score is NaN). *)
Theorem X16_least_similar_listing (numMatches : Z)
    (distances : list (fp * string)) :
  vec_size distances <= INT_MAX ->
  (0 <= numMatches <= vec_size distances ->
   custom_design_listings.print_least numMatches distances
   = Returned (take (Z.to_nat numMatches) (rev distances))) /\
  (vec_size distances < numMatches <= INT_MAX ->
   custom_design_listings.print_least numMatches distances = Returned [] /\
   (Forall not_nan distances ->
    custom_design_listings.print_matches numMatches distances
    = Returned (std_sort pair_ltb distances, []))).
Proof.
  intros Hn.
  assert (Hfirst : forall l : list (fp * string),
             vec_size l <= INT_MAX ->
             int_of_size_t (size_t_sub (vec_size l) 1) = vec_size l - 1).
  { intros l Hl. apply first_index. unfold vec_size in *. lia. }
  assert (Hbig : forall l : list (fp * string),
             vec_size l <= INT_MAX -> vec_size l < numMatches <= INT_MAX ->
             custom_design_listings.print_least numMatches l = Returned []).
  { intros l Hl HK. unfold custom_design_listings.print_least.
    rewrite (Hfirst l Hl), print_least_from_step.
    unfold custom_design_listings.least_condition, size_t_sub, size_t_of_int.
    unfold vec_size, INT_MAX in *.
    rewrite (size_t_small numMatches) by lia.
    rewrite (size_t_wrapped (Z.of_nat (length l) - numMatches)) by lia.
    destruct l as [|d l].
    - rewrite andb_false_r. reflexivity.
    - cbn [length] in *. rewrite size_t_small by lia.
      replace (_ <=? _) with false by (symmetry; apply Z.leb_gt; lia).
      reflexivity. }
  split.
  - intros HK. unfold custom_design_listings.print_least.
    rewrite (Hfirst distances Hn).
    pose proof (print_least_from_within distances numMatches
                  (Z.to_nat numMatches) Hn HK ltac:(lia)) as H.
    replace (vec_size distances - numMatches + Z.of_nat (Z.to_nat numMatches) - 1)
      with (vec_size distances - 1) in H by lia.
    rewrite H. f_equal. unfold vec_size in *.
    rewrite take_ge by (rewrite length_drop; lia).
    rewrite firstn_rev. do 2 f_equal. lia.
  - intros HK. split; [apply Hbig; assumption|]. intros _.
    unfold custom_design_listings.print_matches.
    assert (Hlen : vec_size (std_sort pair_ltb distances) = vec_size distances).
    { unfold vec_size.
      rewrite (Permutation_length (std_sort_perm pair_ltb distances)).
      reflexivity. }
    rewrite Hbig by (rewrite Hlen; assumption). cbn [bind].
    rewrite print_top_take, take_ge; [reflexivity|].
    unfold vec_size in *.
    rewrite (Permutation_length (std_sort_perm pair_ltb distances)). lia.
Qed.

Lemma X16_witness :
  custom_design_listings.print_least 5
    [(fp_of_Q 1 4, "a.jpg"%string); (fp_of_Q 1 2, "b.jpg"%string)]
  = Returned [] /\
  custom_design_listings.print_matches 5
    [(fp_of_Q 1 4, "a.jpg"%string); (fp_of_Q 1 2, "b.jpg"%string)]
  = Returned (std_sort pair_ltb
                [(fp_of_Q 1 4, "a.jpg"%string); (fp_of_Q 1 2, "b.jpg"%string)],
              []).
Proof.
  destruct (proj2 (X16_least_similar_listing 5
                     [(fp_of_Q 1 4, "a.jpg"%string); (fp_of_Q 1 2, "b.jpg"%string)]
                     ltac:(unfold vec_size, INT_MAX; simpl; lia)))
    as [Hleast Hbest].
  - unfold vec_size, INT_MAX. simpl. lia.
  - split; [exact Hleast|]. apply Hbest. repeat constructor; discriminate.
Defined.

Example least_similar_examples :
  custom_design_listings.print_least 1
    [(fp_of_Q 1 4, "a.jpg"%string); (fp_of_Q 1 2, "b.jpg"%string)]
  = Returned [(fp_of_Q 1 2, "b.jpg"%string)] /\
  custom_design_listings.print_least 2
    [(fp_of_Q 1 4, "a.jpg"%string); (fp_of_Q 1 2, "b.jpg"%string)]
  = Returned [(fp_of_Q 1 2, "b.jpg"%string); (fp_of_Q 1 4, "a.jpg"%string)] /\
  custom_design_listings.print_least 3
    [(fp_of_Q 1 4, "a.jpg"%string); (fp_of_Q 1 2, "b.jpg"%string)]
  = Returned [].
Proof. repeat split; vm_compute; reflexivity. Qed.

(** ** The matcher on rg histograms *)

Lemma Qc_div_one (q : Qc) : (q / Q2Qc 1)%Qc = q.
Proof. unfold Qcdiv. change (/ Q2Qc 1)%Qc with (Q2Qc 1). ring. Qed.

(** The normalizer on finite non-negative values of positive sum. *)
Lemma normalize_nonneg_values (qs : list Qc) :
  Forall (fun q => (Q2Qc 0 <= q)%Qc) qs -> (Q2Qc 0 < Qc_sum qs)%Qc ->
  exists qs' : list Qc,
    normalizeHistogram (map FNum qs) = map FNum qs' /\
    length qs' = length qs /\
    Forall (fun q => (Q2Qc 0 <= q)%Qc) qs' /\ Qc_sum qs' = Q2Qc 1.
Proof.
  intros Hqs Hs. exists (map (fun q => (q / Qc_sum qs)%Qc) qs).
  split; [apply normalize_values; exact Hs|].
  split; [apply length_map|]. split; [|apply Qc_sum_quotients; exact Hs].
  rewrite Forall_forall in Hqs. apply Forall_forall. intros y Hy.
  apply in_map_iff in Hy as (q & <- & Hq).
  apply Qc_quotient_nonneg; [apply Hqs; exact Hq|exact Hs].
Qed.

Lemma normalize_of_sum_one (t : list Qc) :
  Qc_sum t = Q2Qc 1 -> normalizeHistogram (map FNum t) = map FNum t.
Proof.
  intros H1. rewrite normalize_values by (rewrite H1; reflexivity).
  rewrite H1. f_equal. rewrite <- (map_id t) at 2.
  apply map_ext. intros q. apply Qc_div_one.
Qed.

(** X17. The matcher of find_matcheshisto.cpp lays a 16 x 16 matrix over the
    values of a record: a record with fewer than 256 values is read past its
    end, which is undefined, and the values after the 256th play no part.
    Against a normalized target histogram, a record whose first 256 values
    are finite, non-negative and of positive sum gets a distance in [0, 1],
    and a record that holds the target's own histogram gets distance 0. *)
Theorem X17_histo_matcher_record (targetFeature : list fp) :
  (forall featureVector : list fp,
      (length featureVector < 256)%nat ->
      find_matcheshisto.score_record targetFeature featureVector = Undefined) /\
  (forall featureVector : list fp,
      (256 <= length featureVector)%nat ->
      find_matcheshisto.score_record targetFeature featureVector
      = find_matcheshisto.score_record targetFeature (take 256 featureVector)) /\
  (forall t : list Qc,
      targetFeature = map FNum t -> length t = 256%nat ->
      Forall (fun q => (Q2Qc 0 <= q)%Qc) t -> Qc_sum t = Q2Qc 1 ->
      (forall (qs : list Qc) (extra : list fp),
          length qs = 256%nat -> Forall (fun q => (Q2Qc 0 <= q)%Qc) qs ->
          (Q2Qc 0 < Qc_sum qs)%Qc ->
          exists d : Qc,
            find_matcheshisto.score_record targetFeature (map FNum qs ++ extra)
            = Returned (FNum d) /\ (Q2Qc 0 <= d)%Qc /\ (d <= Q2Qc 1)%Qc) /\
      (forall extra : list fp,
          find_matcheshisto.score_record targetFeature (targetFeature ++ extra)
          = Returned fp_zero)).
Proof.
  unfold find_matcheshisto.score_record, find_matcheshisto.mat_over.
  split; [|split].
  - intros fv H. rewrite decide_False by lia. reflexivity.
  - intros fv H. rewrite !decide_True by (rewrite ?length_take; lia).
    rewrite take_take, Nat.min_id. reflexivity.
  - intros t -> Hlen Ht H1. split.
    + intros qs extra Hl Hqs Hs.
      rewrite decide_True by (rewrite length_app, length_map; lia).
      rewrite take_app_length' by (rewrite length_map; lia). cbn [bind].
      destruct (normalize_nonneg_values qs Hqs Hs) as (qs' & -> & Hl' & Hqs' & Hs').
      unfold find_matcheshisto.computeHistogramIntersection.
      destruct (intersection_values t qs' ltac:(lia) Ht Hqs')
        as (m & -> & _ & H0 & Hmt & _).
      exists (Q2Qc 1 + - m)%Qc. split; [reflexivity|]. rewrite H1 in Hmt. split.
      * apply Qcle_minus_iff in Hmt. exact Hmt.
      * rewrite <- (Qcplus_0_r (Q2Qc 1)) at 2.
        apply Qcplus_le_compat; [apply Qcle_refl|].
        apply Qcopp_le_compat in H0. exact H0.
    + intros extra.
      rewrite decide_True by (rewrite length_app, length_map; lia).
      rewrite take_app_length' by (rewrite length_map; lia). cbn [bind].
      rewrite (normalize_of_sum_one t H1).
      unfold find_matcheshisto.computeHistogramIntersection.
      rewrite intersection_self, H1. reflexivity.
Qed.

Lemma unit_histogram_facts (cells : nat) :
  (1 <= cells)%nat ->
  length (unit_histogram cells) = cells /\
  Forall (fun q => (Q2Qc 0 <= q)%Qc) (unit_histogram cells) /\
  Qc_sum (unit_histogram cells) = Q2Qc 1.
Proof.
  intros Hc. unfold unit_histogram. split; [|split].
  - cbn [length]. rewrite length_replicate. lia.
  - constructor; [discriminate|]. apply Forall_forall. intros q Hq.
    apply list_elem_of_In, elem_of_replicate in Hq as [-> _]. apply Qcle_refl.
  - unfold Qc_sum. cbn [foldr].
    assert (H0 : foldr Qcplus (Q2Qc 0) (replicate (cells - 1) (Q2Qc 0)) = Q2Qc 0).
    { induction (cells - 1)%nat as [|n IH]; [reflexivity|].
      cbn [replicate foldr]. rewrite IH. apply Qcplus_0_l. }
    rewrite H0. apply Qcplus_0_r.
Qed.

Lemma X17_witness :
  exists d : Qc,
    find_matcheshisto.score_record (map FNum (unit_histogram 256))
      (map FNum (unit_histogram 256) ++ [])
    = Returned (FNum d) /\ (Q2Qc 0 <= d)%Qc /\ (d <= Q2Qc 1)%Qc.
Proof.
  destruct (unit_histogram_facts 256 ltac:(lia)) as (Hl & Hp & Hs).
  apply (proj1 (proj2 (proj2 (X17_histo_matcher_record
                                (map FNum (unit_histogram 256))))
                  (unit_histogram 256) eq_refl Hl Hp Hs)
           (unit_histogram 256) [] Hl Hp).
  rewrite Hs. reflexivity.
Defined.

(** ** Loops over the cells of a matrix *)

(** A loop over the [n] cells that follow the first [base] ones. *)
Lemma cells_row {St : Type} (g : St -> fp -> St) (m : list fp)
    (cell : Z -> outcome fp) (base n : nat) (s : St) :
  (forall j : nat, (j < n)%nat ->
     cell (Z.of_nat j) = vec_at m (Z.of_nat (base + j))) ->
  (base + n <= length m)%nat ->
  for_each (seqZ 0 (Z.of_nat n)) (fun j s => do c <- cell j; Returned (g s c)) s
  = Returned (foldl g s (take n (drop base m))).
Proof.
  induction n as [|n IH]; intros Hcell Hlen; [reflexivity|].
  rewrite seqZ_S, for_each_app.
  rewrite IH by (intros; try apply Hcell; lia). cbn [bind for_each].
  rewrite Z.add_0_l, Hcell by lia.
  destruct (lookup_lt_is_Some_2 m (base + n)) as [x Hx]; [lia|].
  unfold vec_at. rewrite bool_decide_eq_true_2 by lia.
  rewrite Nat2Z.id, Hx. cbn [bind].
  rewrite (take_S_r _ n x) by (rewrite lookup_drop; exact Hx).
  rewrite foldl_snoc. reflexivity.
Qed.

(** A loop over [r] blocks of [w] cells each. *)
Lemma cells_blocks {St : Type} (g : St -> fp -> St) (m : list fp)
    (inner : Z -> St -> outcome St) (base w r : nat) (s : St) :
  (forall (i : nat) (s : St), (i < r)%nat ->
     inner (Z.of_nat i) s
     = Returned (foldl g s (take w (drop (base + i * w) m)))) ->
  for_each (seqZ 0 (Z.of_nat r)) inner s
  = Returned (foldl g s (take (r * w) (drop base m))).
Proof.
  induction r as [|r IH]; intros Hin; [reflexivity|].
  rewrite seqZ_S, for_each_app.
  rewrite IH by (intros; apply Hin; lia). cbn [bind for_each].
  rewrite Z.add_0_l, Hin by lia.
  replace (S r * w)%nat with (r * w + w)%nat by lia.
  rewrite <- take_take_drop, foldl_app, drop_drop.
  reflexivity.
Qed.

Lemma cells2_loop {St : Type} (g : St -> fp -> St) (b : nat) (m : list fp) (s : St) :
  length m = (b * b)%nat ->
  for_range 0 (Z.of_nat b) (fun i s =>
    for_range 0 (Z.of_nat b) (fun j s =>
      do c <- mat2_at (Z.of_nat b) m i j; Returned (g s c)) s) s
  = Returned (foldl g s m).
Proof.
  intros Hlen. unfold for_range. rewrite !Z.sub_0_r.
  rewrite (cells_blocks g m _ 0 b b).
  - rewrite drop_0, take_ge by lia. reflexivity.
  - intros i t Hi.
    apply (cells_row g m (fun j => mat2_at (Z.of_nat b) m (Z.of_nat i) j)).
    + intros j Hj. unfold mat2_at, in_bins.
      rewrite bool_decide_eq_true_2 by lia. f_equal. lia.
    + nia.
Qed.

Lemma cells3_loop {St : Type} (g : St -> fp -> St) (b : nat) (m : list fp) (s : St) :
  length m = (b * b * b)%nat ->
  for_range 0 (Z.of_nat b) (fun i s =>
    for_range 0 (Z.of_nat b) (fun j s =>
      for_range 0 (Z.of_nat b) (fun k s =>
        do c <- mat3_at (Z.of_nat b) m i j k; Returned (g s c)) s) s) s
  = Returned (foldl g s m).
Proof.
  intros Hlen. unfold for_range. rewrite !Z.sub_0_r.
  rewrite (cells_blocks g m _ 0 (b * b) b).
  - rewrite drop_0, take_ge by lia. reflexivity.
  - intros i t Hi. rewrite (cells_blocks g m _ (0 + i * (b * b)) b b).
    + reflexivity.
    + intros j u Hj.
      apply (cells_row g m
               (fun k => mat3_at (Z.of_nat b) m (Z.of_nat i) (Z.of_nat j) k)).
      * intros k Hk. unfold mat3_at, in_bins.
        rewrite bool_decide_eq_true_2 by lia. f_equal. lia.
      * nia.
Qed.

Lemma foldl_write (show_float : fp -> string) (values : list fp)
    (outFile : string) :
  foldl (fun s c => (s ++ String comma (show_float c))%string) outFile values
  = (outFile
     ++ join (map (fun value => String comma (show_float value)) values))%string.
Proof.
  revert outFile. induction values as [|v values IH]; intros outFile.
  - simpl. rewrite string_app_nil_r. reflexivity.
  - cbn [foldl map join foldr]. rewrite IH, string_app_assoc.
    reflexivity.
Qed.

Lemma write_cells2_text (show_float : fp -> string) (hist : list fp)
    (outFile : string) :
  length hist = 256%nat ->
  write_cells2 show_float 16 hist outFile
  = Returned (outFile ++ join (map (fun value => String comma (show_float value))
                                hist))%string.
Proof.
  intros Hlen. unfold write_cells2.
  rewrite <- foldl_write.
  apply (cells2_loop (fun s c => (s ++ String comma (show_float c))%string)
           16 hist outFile Hlen).
Qed.

Lemma write_cells3_text (show_float : fp -> string) (hist : list fp)
    (outFile : string) :
  length hist = 512%nat ->
  write_cells3 show_float 8 hist outFile
  = Returned (outFile ++ join (map (fun value => String comma (show_float value))
                                hist))%string.
Proof.
  intros Hlen. unfold write_cells3.
  rewrite <- foldl_write.
  apply (cells3_loop (fun s c => (s ++ String comma (show_float c))%string)
           8 hist outFile Hlen).
Qed.

(** ** Counts as floats *)

Lemma Qc_of_Z_plus (a b : Z) :
  (Q2Qc (inject_Z a) + Q2Qc (inject_Z b))%Qc = Q2Qc (inject_Z (a + b)).
Proof.
  apply Qc_is_canon. unfold Qcplus. rewrite !Qc_this_Q2Qc.
  rewrite inject_Z_plus. reflexivity.
Qed.

Lemma Qc_of_Z_nonneg (a : Z) : 0 <= a -> (Q2Qc 0 <= Q2Qc (inject_Z a))%Qc.
Proof.
  intros Ha. unfold Qcle. rewrite !Qc_this_Q2Qc.
  change 0%Q with (inject_Z 0). rewrite <- Zle_Qle. exact Ha.
Qed.

Lemma Qc_of_Z_pos (a : Z) : 0 < a -> (Q2Qc 0 < Q2Qc (inject_Z a))%Qc.
Proof.
  intros Ha. unfold Qclt. rewrite !Qc_this_Q2Qc.
  change 0%Q with (inject_Z 0). rewrite <- Zlt_Qlt. exact Ha.
Qed.

Lemma counts_values (hist : list Z) :
  counts hist = map FNum (map (fun c => Q2Qc (inject_Z c)) hist).
Proof. unfold counts, fp_of_Z. rewrite map_map. reflexivity. Qed.

Lemma Qc_sum_counts (hist : list Z) :
  Qc_sum (map (fun c => Q2Qc (inject_Z c)) hist) = Q2Qc (inject_Z (hist_sum hist)).
Proof.
  unfold Qc_sum, hist_sum. induction hist as [|c hist IH]; [reflexivity|].
  cbn [map foldr]. rewrite IH. apply Qc_of_Z_plus.
Qed.

Lemma is_nonneg_values (qs : list Qc) :
  Forall (fun q => (Q2Qc 0 <= q)%Qc) qs -> Forall is_nonneg (map FNum qs).
Proof. intros H. apply Forall_map. exact H. Qed.

(** A histogram that has counted n > 0 pixels, normalized: as many cells,
    none negative, of sum 1. *)
Lemma normalized_counts (N : nat) (n : Z) (hist : list Z) :
  counted N n hist -> 0 < n ->
  length (normalizeHistogram (counts hist)) = N /\
  Forall is_nonneg (normalizeHistogram (counts hist)) /\
  fp_sum (normalizeHistogram (counts hist)) = fp_one.
Proof.
  intros (Hlen & Hpos & Hsum) Hn. rewrite counts_values.
  destruct (normalize_nonneg_values (map (fun c => Q2Qc (inject_Z c)) hist))
    as (qs' & -> & Hl' & Hqs' & Hs').
  - apply Forall_map. eapply Forall_impl; [|exact Hpos].
    intros c Hc. apply Qc_of_Z_nonneg. exact Hc.
  - rewrite Qc_sum_counts, Hsum. apply Qc_of_Z_pos. exact Hn.
  - rewrite length_map, Hl', length_map. split; [exact Hlen|].
    split; [apply is_nonneg_values; exact Hqs'|].
    rewrite fp_sum_values, Hs'. reflexivity.
Qed.

(** A histogram that has counted no pixel, normalized: NaN in every cell. *)
Lemma normalized_no_count (N : nat) (hist : list Z) :
  counted N 0 hist -> normalizeHistogram (counts hist) = replicate N FNaN.
Proof.
  intros (Hlen & Hpos & Hsum).
  assert (Hz : Forall (fun c => c = 0) hist).
  { unfold hist_sum in Hsum. clear Hlen.
    induction Hpos as [|c hist Hc Hpos IH]; [constructor|].
    cbn [foldr] in Hsum.
    assert (0 <= foldr Z.add 0 hist).
    { clear -Hpos. induction Hpos; simpl; lia. }
    constructor; [lia|]. apply IH. lia. }
  assert (Hzero : Forall (fun x => x = fp_zero) (counts hist)).
  { unfold counts. apply Forall_map. eapply Forall_impl; [|exact Hz].
    intros c ->. reflexivity. }
  unfold normalizeHistogram. rewrite (fp_sum_zeros _ Hzero).
  subst N. unfold counts. clear -Hz.
  induction Hz as [|c hist -> _ IH]; [reflexivity|].
  cbn [map length replicate]. rewrite IH. reflexivity.
Qed.

(** ** The stores of the histogram extractors *)

Lemma rg_values_counted (image : Image) :
  countable image ->
  exists counted : list Z,
    compute_histo_features.computeRGChromaticityHistogram image 16
    = Returned counted /\
    rg_values image = normalizeHistogram (counts counted) /\
    length (rg_values image) = 256%nat /\
    Forall is_nonneg (rg_values image) /\
    fp_sum (rg_values image) = fp_one.
Proof.
  intros (Hv & Hr & Hc & Hn).
  destruct (chroma_histogram_sum image 16 Hv ltac:(unfold INT_MAX; lia) Hn)
    as (counted & Hret & Hcnt).
  exists counted. split; [exact Hret|]. unfold rg_values. rewrite Hret.
  split; [reflexivity|].
  apply (normalized_counts _ _ _ Hcnt). nia.
Qed.

Section HistogramStores.

Variable directory_listing : string -> list string.
Variable is_regular_file : string -> bool.
Variable imread : string -> option Image.
Variable show_float : fp -> string.

Lemma stored_cons (values : Image -> list fp) (filename : string)
    (rest : list string) :
  stored is_regular_file imread values (filename :: rest)
  = (if is_regular_file filename then
       match imread filename with
       | Some image => [(filename, values image)]
       | None => []
       end
     else []) ++ stored is_regular_file imread values rest.
Proof. reflexivity. Qed.

Lemma rg_write_entries_text (filenames : list string) (outFile : string) :
  (forall filename image,
      filename ∈ filenames -> imread filename = Some image -> countable image) ->
  compute_histo_features_store.write_entries is_regular_file imread show_float
    filenames outFile
  = Returned (outFile ++ write_store show_float
                (stored is_regular_file imread rg_values filenames))%string.
Proof.
  revert outFile. induction filenames as [|filename rest IH]; intros outFile H.
  - simpl. rewrite string_app_nil_r. reflexivity.
  - assert (Hrest : forall f image,
               f ∈ rest -> imread f = Some image -> countable image).
    { intros f image Hf. apply H. now constructor. }
    cbn [compute_histo_features_store.write_entries]. rewrite stored_cons.
    destruct (is_regular_file filename); [|apply IH; exact Hrest].
    destruct (imread filename) as [image|] eqn:E; [|apply IH; exact Hrest].
    destruct (rg_values_counted image (H filename image ltac:(constructor) E))
      as (counted & -> & Hval & Hlen & _).
    cbn [bind]. rewrite <- Hval.
    rewrite (write_cells2_text show_float _ _ Hlen). cbn [bind].
    rewrite (IH _ Hrest). f_equal.
    cbn [app]. rewrite write_store_cons. unfold write_record. cbn [fst snd].
    rewrite !string_app_assoc. reflexivity.
Qed.

(** X18. For a directory whose decodable regular files hold images of at
    least one and at most 2^24 pixels, [writeHistogramFeaturesToFile] of
    compute_histo_features.cpp writes one record for every regular file that
    decodes, in the order of the directory, and nothing for the other
    entries; the record holds the path of the file and the 256 cells of its
    normalized histogram, none of them negative or NaN.  When the output
    file cannot be opened nothing is written and [main] still exits with
    status 0. *)
Theorem X18_rg_store (directory : string) :
  (forall filename image,
      filename ∈ map (path_append directory) (directory_listing directory) ->
      imread filename = Some image -> countable image) ->
  compute_histo_features_store.writeHistogramFeaturesToFile directory_listing
    is_regular_file imread show_float directory true
  = Returned (Some (write_store show_float
                      (stored is_regular_file imread rg_values
                         (map (path_append directory)
                            (directory_listing directory))))) /\
  Forall (fun r : string * list fp =>
            length r.2 = 256%nat /\ Forall is_nonneg r.2)
    (stored is_regular_file imread rg_values
       (map (path_append directory) (directory_listing directory))) /\
  compute_histo_features_store.main directory_listing is_regular_file imread
    show_float directory false = Returned (0, None).
Proof.
  intros H. split; [|split; [|reflexivity]].
  - unfold compute_histo_features_store.writeHistogramFeaturesToFile.
    rewrite (rg_write_entries_text _ EmptyString H). reflexivity.
  - apply Forall_forall. intros r Hr. unfold stored in Hr.
    apply in_flat_map in Hr as (filename & Hf & Hr).
    destruct (is_regular_file filename); [|contradiction].
    destruct (imread filename) as [image|] eqn:E; [|contradiction].
    destruct Hr as [<-|[]]. cbn [snd].
    destruct (rg_values_counted image
                (H filename image ltac:(apply list_elem_of_In; exact Hf) E))
      as (_ & _ & _ & Hlen & Hpos & Hsum).
    auto.
Qed.

End HistogramStores.

Lemma X18_witness :
  compute_histo_features_store.writeHistogramFeaturesToFile one_image_listing
    (fun _ => true) gray_imread show_float_g "olympus" true
  = Returned (Some (write_store show_float_g
                      (stored (fun _ => true) gray_imread rg_values
                         (map (path_append "olympus")
                            (one_image_listing "olympus"))))) /\
  Forall (fun r : string * list fp =>
            length r.2 = 256%nat /\ Forall is_nonneg r.2)
    (stored (fun _ => true) gray_imread rg_values
       (map (path_append "olympus") (one_image_listing "olympus"))) /\
  compute_histo_features_store.main one_image_listing (fun _ => true)
    gray_imread show_float_g "olympus" false = Returned (0, None).
Proof.
  apply (X18_rg_store one_image_listing (fun _ => true) gray_imread
           show_float_g "olympus").
  intros filename image _ [= <-].
  unfold countable, valid_image, INT_MAX. simpl. lia.
Defined.

Lemma half_values_counted (image : Image) (half : Image -> Rect) :
  countable image ->
  rect_inside (half image) image ->
  rect_width (half image) = cols image ->
  rect_height (half image) = rows image / 2 ->
  exists counted : list Z,
    compute_featuresmulti.computeRGBHistogram image 8 (half image)
    = Returned counted /\
    half_values image half = normalizeHistogram (counts counted) /\
    length (half_values image half) = 512%nat /\
    (2 <= rows image ->
     Forall is_nonneg (half_values image half) /\
     fp_sum (half_values image half) = fp_one) /\
    (rows image = 1 -> half_values image half = replicate 512 FNaN).
Proof.
  intros (Hv & Hr & Hc & Hn) Hin Hw Hh.
  assert (Hhalf : 0 <= rows image / 2 <= rows image).
  { split; [apply Z.div_pos; lia|]. apply Z.div_le_upper_bound; lia. }
  destruct (region_histogram_sum image 8 (half image) Hv Hin ltac:(lia)
              ltac:(unfold INT_MAX; lia)) as (counted & Hret & Hcnt).
  { rewrite Hw, Hh. nia. }
  exists counted. split; [exact Hret|]. unfold half_values. rewrite Hret.
  split; [reflexivity|]. rewrite Hw, Hh in Hcnt.
  change (Z.to_nat (8 * 8 * 8)) with 512%nat in Hcnt.
  split; [|split].
  - unfold normalizeHistogram, counts. rewrite !length_map.
    destruct Hcnt as [Hl _]. exact Hl.
  - intros H2.
    assert (1 <= rows image / 2) by (apply Z.div_le_lower_bound; lia).
    destruct (normalized_counts _ _ _ Hcnt ltac:(nia)) as (_ & Hp & Hs).
    split; assumption.
  - intros H1. rewrite H1 in Hcnt. change (1 / 2) with 0 in Hcnt.
    rewrite Z.mul_0_r in Hcnt. apply normalized_no_count. exact Hcnt.
Qed.

Lemma multi_values_counted (image : Image) :
  countable image ->
  exists topCounted bottomCounted : list Z,
    compute_featuresmulti.computeRGBHistogram image 8
      (compute_featuresmulti.topHalf image) = Returned topCounted /\
    compute_featuresmulti.computeRGBHistogram image 8
      (compute_featuresmulti.bottomHalf image) = Returned bottomCounted /\
    half_values image compute_featuresmulti.topHalf
    = normalizeHistogram (counts topCounted) /\
    half_values image compute_featuresmulti.bottomHalf
    = normalizeHistogram (counts bottomCounted) /\
    length (half_values image compute_featuresmulti.topHalf) = 512%nat /\
    length (half_values image compute_featuresmulti.bottomHalf) = 512%nat /\
    (2 <= rows image ->
     Forall is_nonneg (multi_values image) /\
     fp_sum (half_values image compute_featuresmulti.topHalf) = fp_one /\
     fp_sum (half_values image compute_featuresmulti.bottomHalf) = fp_one) /\
    (rows image = 1 -> multi_values image = replicate 1024 FNaN).
Proof.
  intros Hc. pose proof Hc as (Hv & Hr & _).
  destruct (half_height (rows image) ltac:(lia)) as (Hq & H0 & H2).
  destruct (half_values_counted image compute_featuresmulti.topHalf Hc)
    as (t & Ht & Htv & Htl & Htp & Htn).
  { unfold rect_inside, compute_featuresmulti.topHalf. cbn. rewrite Hq.
    destruct Hv. lia. }
  { reflexivity. }
  { cbn. exact Hq. }
  destruct (half_values_counted image compute_featuresmulti.bottomHalf Hc)
    as (b & Hb & Hbv & Hbl & Hbp & Hbn).
  { unfold rect_inside, compute_featuresmulti.bottomHalf. cbn. rewrite Hq.
    destruct Hv. lia. }
  { reflexivity. }
  { cbn. exact Hq. }
  exists t, b. repeat (split; [assumption|]). split.
  - intros Hrows. destruct (Htp Hrows) as [Hp1 Hs1].
    destruct (Hbp Hrows) as [Hp2 Hs2].
    split; [|split; assumption].
    unfold multi_values. apply Forall_app. split; assumption.
  - intros Hrows. unfold multi_values. rewrite (Htn Hrows), (Hbn Hrows).
    reflexivity.
Qed.

Lemma join_app (texts1 texts2 : list string) :
  join (texts1 ++ texts2) = (join texts1 ++ join texts2)%string.
Proof.
  unfold join. induction texts1 as [|t texts1 IH]; [reflexivity|].
  cbn [app foldr]. rewrite IH, string_app_assoc. reflexivity.
Qed.

Section MultiStore.

Variable directory_listing : string -> list string.
Variable is_regular_file : string -> bool.
Variable imread : string -> option Image.
Variable show_float : fp -> string.

Lemma multi_write_entries_text (filenames : list string) (outFile : string) :
  (forall filename image,
      filename ∈ filenames -> imread filename = Some image -> countable image) ->
  compute_featuresmulti_store.write_entries is_regular_file imread show_float
    filenames outFile
  = Returned (outFile ++ write_store show_float
                (stored is_regular_file imread multi_values filenames))%string.
Proof.
  revert outFile. induction filenames as [|filename rest IH]; intros outFile H.
  - simpl. rewrite string_app_nil_r. reflexivity.
  - assert (Hrest : forall f image,
               f ∈ rest -> imread f = Some image -> countable image).
    { intros f image Hf. apply H. now constructor. }
    cbn [compute_featuresmulti_store.write_entries].
    rewrite (stored_cons is_regular_file imread).
    destruct (is_regular_file filename); [|apply IH; exact Hrest].
    destruct (imread filename) as [image|] eqn:E; [|apply IH; exact Hrest].
    destruct (multi_values_counted image (H filename image ltac:(constructor) E))
      as (t & b & -> & -> & Htv & Hbv & Htl & Hbl & _).
    cbn [bind]. rewrite <- Htv, <- Hbv.
    rewrite (write_cells3_text show_float _ _ Htl). cbn [bind].
    rewrite (write_cells3_text show_float _ _ Hbl). cbn [bind].
    rewrite (IH _ Hrest). f_equal.
    cbn [app]. rewrite write_store_cons. unfold write_record, multi_values.
    cbn [fst snd]. rewrite map_app, join_app.
    rewrite !string_app_assoc. reflexivity.
Qed.

(** X19. For a directory whose decodable regular files hold images of at
    least one and at most 2^24 pixels, [writeHistogramFeaturesToFile] of
    compute_featuresmulti.cpp writes one record for every regular file that
    decodes: its path and 1024 values, the normalized histogram of the top
    half followed by that of the bottom half.  For an image of two rows or
    more no value is negative or NaN; for an image of a single row both
    halves are empty and all 1024 values are NaN. *)
Theorem X19_multi_store (directory : string) :
  (forall filename image,
      filename ∈ map (path_append directory) (directory_listing directory) ->
      imread filename = Some image -> countable image) ->
  compute_featuresmulti_store.writeHistogramFeaturesToFile directory_listing
    is_regular_file imread show_float directory true
  = Returned (Some (write_store show_float
                      (stored is_regular_file imread multi_values
                         (map (path_append directory)
                            (directory_listing directory))))) /\
  (forall image : Image,
      countable image ->
      length (multi_values image) = 1024%nat /\
      (2 <= rows image -> Forall is_nonneg (multi_values image)) /\
      (rows image = 1 -> multi_values image = replicate 1024 FNaN)).
Proof.
  intros H. split.
  - unfold compute_featuresmulti_store.writeHistogramFeaturesToFile.
    rewrite (multi_write_entries_text _ EmptyString H). reflexivity.
  - intros image Hc.
    destruct (multi_values_counted image Hc)
      as (t & b & _ & _ & _ & _ & Htl & Hbl & Hp & Hn).
    split; [|split].
    + unfold multi_values. rewrite length_app, Htl, Hbl. reflexivity.
    + intros Hrows. destruct (Hp Hrows) as (Hpos & _). exact Hpos.
    + exact Hn.
Qed.

End MultiStore.

Lemma X19_witness :
  compute_featuresmulti_store.writeHistogramFeaturesToFile one_image_listing
    (fun _ => true) gray_imread show_float_g "olympus" true
  = Returned (Some (write_store show_float_g
                      (stored (fun _ => true) gray_imread multi_values
                         (map (path_append "olympus")
                            (one_image_listing "olympus"))))) /\
  Forall is_nonneg (multi_values (uniform_image 9 9 gray)) /\
  multi_values (uniform_image 1 4 red) = replicate 1024 FNaN.
Proof.
  destruct (X19_multi_store one_image_listing (fun _ => true) gray_imread
              show_float_g "olympus") as [Hstore Hvalues].
  { intros filename image _ [= <-].
    unfold countable, valid_image, INT_MAX. simpl. lia. }
  split; [exact Hstore|]. split.
  - apply (Hvalues (uniform_image 9 9 gray)).
    + unfold countable, valid_image, INT_MAX. simpl. lia.
    + simpl. lia.
  - apply (Hvalues (uniform_image 1 4 red)).
    + unfold countable, valid_image, INT_MAX. simpl. lia.
    + reflexivity.
Defined.

Example one_row_record :
  multi_values (uniform_image 1 4 red) = replicate 1024 FNaN.
Proof. vm_compute. reflexivity. Qed.

(** ** The scores of the matcher on colour and texture *)

Lemma vec_at_drop {A : Type} (v : list A) (n : nat) (i : Z) :
  0 <= i -> vec_at v (Z.of_nat n + i) = vec_at (drop n v) i.
Proof.
  intros Hi. unfold vec_at. rewrite !bool_decide_eq_true_2 by lia.
  rewrite lookup_drop. replace (Z.to_nat (Z.of_nat n + i)) with (n + Z.to_nat i)%nat
    by lia. reflexivity.
Qed.

(** Two reads of vectors may be exchanged: a read returns or is undefined. *)
Lemma vec_at_swap {A B C : Type} (v : list A) (w : list B) (i j : Z)
    (k : A -> B -> outcome C) :
  (do a <- vec_at v i; do b <- vec_at w j; k a b)
  = (do b <- vec_at w j; do a <- vec_at v i; k a b).
Proof.
  unfold vec_at.
  destruct (bool_decide (0 <= i)), (bool_decide (0 <= j));
    destruct (v !! Z.to_nat i), (w !! Z.to_nat j); reflexivity.
Qed.

(** The loop [for (i = 0; i < part.size(); ++i) sum += min(target[i], part[i])]. *)
Lemma min_loop (target part : list fp) :
  for_range 0 (vec_size part) (fun i sum =>
    do t <- vec_at target i;
    do c <- vec_at part i;
    Returned (fp_add sum (fp_min t c))) fp_zero
  = if decide (length part <= length target)%nat
    then Returned (foldl (fun s ab => fp_add s (fp_min ab.2 ab.1)) fp_zero
                     (zip part target))
    else Undefined.
Proof.
  rewrite <- (index_loop (fun c t s => fp_add s (fp_min t c)) part target).
  apply for_each_ext. intros i s _. apply vec_at_swap.
Qed.

Lemma min_loop_from (target part : list fp) (n : nat) :
  for_range 0 (vec_size part) (fun i sum =>
    do t <- vec_at target (Z.of_nat n + i);
    do c <- vec_at part i;
    Returned (fp_add sum (fp_min t c))) fp_zero
  = if decide (length part <= length (drop n target))%nat
    then Returned (foldl (fun s ab => fp_add s (fp_min ab.2 ab.1)) fp_zero
                     (zip part (drop n target)))
    else Undefined.
Proof.
  rewrite <- min_loop. apply for_each_ext. intros i s Hi.
  apply elem_of_seqZ in Hi. rewrite vec_at_drop by lia. reflexivity.
Qed.

(** The sums of minima of the two loops, on finite values: the intersection. *)
Lemma min_fold_values (p q : list Qc) (acc : Qc) :
  length p = length q ->
  exists m : Qc,
    custom_design.computeHistogramIntersection (map FNum q) (map FNum p)
    = FNum m /\
    foldl (fun s ab => fp_add s (fp_min ab.2 ab.1)) (FNum acc)
      (zip (map FNum p) (map FNum q)) = FNum (acc + m).
Proof.
  unfold custom_design.computeHistogramIntersection, fp_sum.
  revert q acc. induction p as [|x p IH]; intros [|y q] acc Hl; try discriminate.
  - exists (Q2Qc 0). split; [reflexivity|]. simpl. rewrite Qcplus_0_r. reflexivity.
  - injection Hl as Hl. cbn [map zip zip_with foldl foldr fst snd].
    destruct (fp_min_values y x) as (m0 & E1 & _).
    rewrite E1. cbn [fp_add].
    destruct (IH q (acc + m0)%Qc Hl) as (m & -> & ->).
    exists (m0 + m)%Qc. cbn [fp_add]. split; [reflexivity|].
    f_equal. ring.
Qed.

(** X20. The matcher of find_matchescolortexture.cpp splits every record
    after its 512th value.  Against a target of 520 values, a record with
    fewer than 512 values or more than 520 leads to reads outside a vector,
    which are undefined; a record with 512 to 520 values is scored, on the
    texture values it has.  For a record of 520 finite values the score is
    the mean of the intersection of the colour parts and the intersection of
    the texture parts. *)
Theorem X20_colour_texture_score (targetFeatureVector : list fp) :
  length targetFeatureVector = 520%nat ->
  (forall featureVector : list fp,
      (length featureVector < 512)%nat ->
      find_matchescolortexture_scores.score_record targetFeatureVector
        featureVector = Undefined) /\
  (forall featureVector : list fp,
      (520 < length featureVector)%nat ->
      find_matchescolortexture_scores.score_record targetFeatureVector
        featureVector = Undefined) /\
  (forall featureVector : list fp,
      (512 <= length featureVector <= 520)%nat ->
      exists combinedDistance : fp,
        find_matchescolortexture_scores.score_record targetFeatureVector
          featureVector = Returned combinedDistance) /\
  (forall targetColor targetTexture color texture : list Qc,
      targetFeatureVector = map FNum (targetColor ++ targetTexture) ->
      length targetColor = 512%nat -> length color = 512%nat ->
      length texture = 8%nat ->
      find_matchescolortexture_scores.score_record targetFeatureVector
        (map FNum (color ++ texture))
      = Returned
          (fp_div
             (fp_add
                (custom_design.computeHistogramIntersection
                   (map FNum targetColor) (map FNum color))
                (custom_design.computeHistogramIntersection
                   (map FNum targetTexture) (map FNum texture)))
             (fp_of_Z 2))).
Proof.
  intros Ht.
  unfold find_matchescolortexture_scores.score_record,
    find_matchescolortexture_scores.vector_range.
  change (Z.to_nat (8 * 8 * 8)) with 512%nat. change (8 * 8 * 8) with (Z.of_nat 512).
  split; [|split; [|split]].
  - intros fv H. rewrite decide_False by lia. reflexivity.
  - intros fv H. rewrite !decide_True by lia. cbn [bind].
    rewrite min_loop, min_loop_from.
    rewrite decide_True by (rewrite length_take, drop_0; lia). cbn [bind].
    rewrite decide_False by (rewrite length_take, !length_drop; lia).
    reflexivity.
  - intros fv H. rewrite !decide_True by lia. cbn [bind].
    rewrite min_loop, min_loop_from.
    rewrite decide_True by (rewrite length_take, drop_0; lia). cbn [bind].
    rewrite decide_True by (rewrite length_take, !length_drop; lia).
    cbn [bind]. eauto.
  - intros tc tt c x -> Htc Hc Hx.
    rewrite !length_map, !length_app in *.
    rewrite !decide_True by lia. cbn [bind].
    rewrite min_loop, min_loop_from.
    rewrite decide_True by (rewrite length_take, drop_0, !length_map, !length_app; lia).
    cbn [bind].
    rewrite decide_True
      by (rewrite length_take, !length_drop, !length_map, !length_app; lia).
    cbn [bind]. rewrite drop_0, Nat.sub_0_r.
    rewrite !map_app.
    rewrite take_app_length' by (rewrite length_map; lia).
    rewrite !drop_app_length' by (rewrite length_map; lia).
    rewrite take_ge by (rewrite length_map; lia).
    assert (Hz1 : zip (map FNum c) (map FNum tc ++ map FNum tt)
                  = zip (map FNum c) (map FNum tc)).
    { rewrite <- (zip_take_r (map FNum c) (map FNum tc ++ map FNum tt)).
      rewrite take_app_length' by (rewrite !length_map; lia). reflexivity. }
    rewrite Hz1.
    destruct (min_fold_values c tc (Q2Qc 0) ltac:(lia)) as (m1 & -> & E1).
    destruct (min_fold_values x tt (Q2Qc 0) ltac:(lia)) as (m2 & -> & E2).
    change fp_zero with (FNum (Q2Qc 0)). rewrite E1, E2.
    rewrite !Qcplus_0_l. reflexivity.
Qed.

Lemma X20_witness :
  find_matchescolortexture_scores.score_record
    (map FNum (unit_colour ++ unit_texture))
    (map FNum (unit_colour ++ unit_texture))
  = Returned
      (fp_div
         (fp_add
            (custom_design.computeHistogramIntersection
               (map FNum unit_colour) (map FNum unit_colour))
            (custom_design.computeHistogramIntersection
               (map FNum unit_texture) (map FNum unit_texture)))
         (fp_of_Z 2)).
Proof.
  destruct (unit_histogram_facts 512 ltac:(lia)) as (Hc & _).
  destruct (unit_histogram_facts 8 ltac:(lia)) as (Hx & _).
  apply (X20_colour_texture_score (map FNum (unit_colour ++ unit_texture)));
    try assumption; reflexivity.
Defined.

Example colour_texture_example :
  find_matchescolortexture_scores.score_record
    (map FNum (unit_colour ++ unit_texture))
    (map FNum (unit_colour ++ unit_texture))
  = Returned fp_one.
Proof. fp_evaluate. Qed.

(** ** The matcher on the two halves: reading a line *)

Lemma split_delim_app (d : ascii) (s rest : string) :
  has_charb d s = false ->
  split_delim d (s ++ String d rest) = (s, Some rest).
Proof.
  induction s as [|a s IH]; simpl.
  - rewrite Ascii.eqb_refl. reflexivity.
  - intros H. apply orb_false_iff in H as [Ha Hs].
    rewrite Ha, (IH Hs). reflexivity.
Qed.

Lemma split_delim_whole (d : ascii) (s : string) :
  has_charb d s = false -> split_delim d s = (s, None).
Proof.
  induction s as [|a s IH]; simpl; [reflexivity|].
  intros H. apply orb_false_iff in H as [Ha Hs].
  rewrite Ha, (IH Hs). reflexivity.
Qed.

(** Reading the text before the fields leaves the fields pending. *)
Lemma getline_before_fields (s : string) (fields : list string) (value : string) :
  has_charb comma s = false ->
  getline_into (mk_sstream (s ++ fields_text fields) true) value comma
  = ((pending fields s).1, s).
Proof.
  intros Hs. unfold getline_into. cbn [ss_good ss_text].
  destruct fields as [|f fs].
  - unfold fields_text. cbn [map join foldr]. rewrite string_app_nil_r.
    rewrite (split_delim_whole comma s Hs). reflexivity.
  - unfold fields_text. cbn [map join foldr String.append].
    rewrite (split_delim_app comma s _ Hs). reflexivity.
Qed.

(** One call of [getline] on pending fields. *)
Lemma getline_pending (fields : list string) (value : string) :
  Forall (fun f => has_charb comma f = false) fields ->
  getline_into (pending fields value).1 (pending fields value).2 comma
  = pending (advance 1 fields value).1 (advance 1 fields value).2.
Proof.
  intros Hf. destruct fields as [|f fs]; [reflexivity|].
  inversion Hf as [|? ? Hc Hfs]; subst. cbn [pending advance fst snd].
  rewrite (getline_before_fields f fs value Hc).
  destruct fs; reflexivity.
Qed.

Lemma advance_S (n : nat) (fields : list string) (value : string) :
  advance (S n) fields value
  = advance n (advance 1 fields value).1 (advance 1 fields value).2.
Proof. destruct fields; destruct n; reflexivity. Qed.

Lemma cell_texts_S (n : nat) (fields : list string) (value : string) :
  cell_texts (S n) fields value
  = (advance 1 fields value).2
    :: cell_texts n (advance 1 fields value).1 (advance 1 fields value).2.
Proof. destruct fields; reflexivity. Qed.

Lemma advance_comma_free (n : nat) (fields : list string) (value : string) :
  Forall (fun f => has_charb comma f = false) fields ->
  Forall (fun f => has_charb comma f = false) (advance n fields value).1.
Proof.
  revert fields value. induction n as [|n IH]; intros fields value Hf;
    [exact Hf|].
  destruct fields as [|f fs]; [exact Hf|].
  inversion Hf; subst. apply IH. assumption.
Qed.

Lemma advance_add (n m : nat) (fields : list string) (value : string) :
  advance (n + m) fields value
  = advance m (advance n fields value).1 (advance n fields value).2.
Proof.
  revert fields value. induction n as [|n IH]; intros fields value;
    [reflexivity|].
  destruct fields as [|f fs].
  - cbn [Nat.add advance fst snd]. destruct m; reflexivity.
  - cbn [Nat.add advance]. apply IH.
Qed.

Lemma cell_texts_add (n m : nat) (fields : list string) (value : string) :
  cell_texts (n + m) fields value
  = cell_texts n fields value
    ++ cell_texts m (advance n fields value).1 (advance n fields value).2.
Proof.
  revert fields value. induction n as [|n IH]; intros fields value;
    [reflexivity|].
  destruct fields as [|f fs].
  - cbn [Nat.add cell_texts advance fst snd app]. f_equal.
    rewrite (IH [] value). f_equal. destruct n; reflexivity.
  - cbn [Nat.add cell_texts advance app]. f_equal. apply IH.
Qed.

Lemma last_cons_default {A : Type} (l : list A) (a d : A) :
  last (a :: l) d = last l a.
Proof.
  revert a d. induction l as [|b l IH]; intros a d; [reflexivity|].
  change (last (a :: b :: l) d) with (last (b :: l) d).
  rewrite (IH b d), (IH b a). reflexivity.
Qed.

(** The texts are the fields in turn, then the last field time and again. *)
Lemma cell_texts_fields (n : nat) (fields : list string) (value : string) :
  cell_texts n fields value
  = take n (fields ++ replicate n (last fields value)).
Proof.
  revert fields value. induction n as [|n IH]; intros fields value;
    [reflexivity|].
  destruct fields as [|f fs].
  - cbn [cell_texts last app replicate take]. f_equal.
    rewrite (IH [] value). reflexivity.
  - cbn [cell_texts app take]. f_equal. rewrite (IH fs f).
    rewrite (last_cons_default fs f value).
    rewrite !take_app, !take_replicate. do 2 f_equal. lia.
Qed.

Lemma map_outcome_app {A B : Type} (f : A -> outcome B) (l1 l2 : list A) :
  map_outcome f (l1 ++ l2)
  = (do b1 <- map_outcome f l1;
     do b2 <- map_outcome f l2;
     Returned (b1 ++ b2)).
Proof.
  induction l1 as [|a l1 IH]; cbn [app map_outcome].
  - destruct (map_outcome f l2); reflexivity.
  - destruct (f a) as [b| |]; cbn [bind]; [|reflexivity..].
    rewrite IH. destruct (map_outcome f l1) as [b1| |]; cbn [bind];
      [|reflexivity..].
    destruct (map_outcome f l2); reflexivity.
Qed.

Lemma map_outcome_length {A B : Type} (f : A -> outcome B) (l : list A)
    (bs : list B) :
  map_outcome f l = Returned bs -> length bs = length l.
Proof.
  revert bs. induction l as [|a l IH]; intros bs; cbn [map_outcome].
  - intros [= <-]. reflexivity.
  - destruct (f a) as [b| |]; try discriminate. cbn [bind].
    destruct (map_outcome f l) as [bs'| |]; try discriminate. cbn [bind].
    intros [= <-]. simpl. rewrite (IH bs' eq_refl). reflexivity.
Qed.

Lemma cell_texts_length (n : nat) (fields : list string) (value : string) :
  length (cell_texts n fields value) = n.
Proof.
  revert fields value. induction n as [|n IH]; intros [|f fs] value;
    cbn [cell_texts length]; try reflexivity; rewrite IH; reflexivity.
Qed.

Lemma for_each_fmap {St A B : Type} (f : A -> B) (l : list A)
    (body : B -> St -> outcome St) (s : St) :
  for_each (f <$> l) body s = for_each l (fun a s => body (f a) s) s.
Proof.
  revert s. induction l as [|a l IH]; intros s; cbn [fmap list_fmap for_each];
    [reflexivity|].
  destruct (body (f a) s) as [s'| |]; cbn [bind]; [apply IH|reflexivity..].
Qed.

Lemma bind_returned {A : Type} (m : outcome A) : (do a <- m; Returned a) = m.
Proof. destruct m; reflexivity. Qed.

(** Two nested loops of [r] and [b] turns are one loop of [r * b] turns. *)
Lemma loop_flatten {St : Type} (b : Z) (r : nat)
    (body : Z -> Z -> St -> outcome St) (s : St) :
  0 < b ->
  for_each (seqZ 0 (Z.of_nat r))
    (fun i s => for_each (seqZ 0 b) (fun j s => body i j s) s) s
  = for_each (seqZ 0 (Z.of_nat r * b))
      (fun t s => body (t / b) (t mod b) s) s.
Proof.
  intros Hb. induction r as [|r IH]; [reflexivity|].
  rewrite seqZ_S.
  replace (Z.of_nat (S r) * b) with (Z.of_nat r * b + b) by lia.
  rewrite seqZ_app by nia. rewrite !for_each_app, IH.
  destruct (for_each (seqZ 0 (Z.of_nat r * b)) _ s) as [s'| |];
    cbn [bind]; [|reflexivity..].
  cbn [for_each]. rewrite bind_returned, !Z.add_0_l.
  replace (Z.of_nat r * b) with (Z.of_nat r * b + 0) at 1 by lia.
  rewrite <- fmap_add_seqZ, for_each_fmap.
  apply for_each_ext. intros j t Hj. apply elem_of_seqZ in Hj.
  replace ((Z.of_nat r * b + j) / b) with (Z.of_nat r)
    by (apply (Z.div_unique _ _ _ j); lia).
  replace ((Z.of_nat r * b + j) mod b) with j
    by (apply (Z.mod_unique _ _ (Z.of_nat r)); lia).
  reflexivity.
Qed.

Section MultiMatcher.

Variable stof : string -> outcome fp.

Lemma read_cells_flat (ss : sstream) (value : string) :
  find_matchesmulti.read_cells stof 8 ss value
  = for_each (seqZ 0 512) (read_cell stof) (ss, value, replicate 512 fp_zero).
Proof.
  unfold find_matchesmulti.read_cells, for_range.
  change (8 - 0) with (Z.of_nat 8). change (Z.to_nat (8 * 8 * 8)) with 512%nat.
  rewrite (for_each_ext _ _
             (fun i state =>
                for_each (seqZ 0 64)
                  (fun t state =>
                     (fun i t state =>
                        let '(ss, value, hist) := state in
                        let '(ss, value) := getline_into ss value comma in
                        do v <- stof value;
                        do hist <- find_matchesmulti.mat3_set 8 hist
                                     i (t / 8) (t mod 8) v;
                        Returned (ss, value, hist)) i t state) state)).
  - rewrite (loop_flatten 64 8
               (fun i t state =>
                  let '(ss, value, hist) := state in
                  let '(ss, value) := getline_into ss value comma in
                  do v <- stof value;
                  do hist <- find_matchesmulti.mat3_set 8 hist
                               i (t / 8) (t mod 8) v;
                  Returned (ss, value, hist))) by lia.
    reflexivity.
  - intros i state _.
    apply (loop_flatten 8 8
             (fun j k state =>
                let '(ss, value, hist) := state in
                let '(ss, value) := getline_into ss value comma in
                do v <- stof value;
                do hist <- find_matchesmulti.mat3_set 8 hist i j k v;
                Returned (ss, value, hist))). lia.
Qed.

Lemma pending_value (fields : list string) (value : string) :
  (pending fields value).2 = value.
Proof. destruct fields; reflexivity. Qed.

Lemma pending_stream (fields : list string) (value value' : string) :
  (pending fields value).1 = (pending fields value').1.
Proof. destruct fields; reflexivity. Qed.

Lemma cell_number (u : Z) :
  0 <= u < 512 ->
  in_bins 8 (u / 64) /\ in_bins 8 (u mod 64 / 8) /\ in_bins 8 (u mod 64 mod 8) /\
  (u / 64 * 8 + u mod 64 / 8) * 8 + u mod 64 mod 8 = u.
Proof.
  intros Hu. unfold in_bins.
  pose proof (Z.div_mod u 64 ltac:(lia)).
  pose proof (Z.mod_pos_bound u 64 ltac:(lia)).
  pose proof (Z.div_mod (u mod 64) 8 ltac:(lia)).
  pose proof (Z.mod_pos_bound (u mod 64) 8 ltac:(lia)).
  assert (0 <= u / 64 < 8)
    by (split; [apply Z.div_pos; lia|apply Z.div_lt_upper_bound; lia]).
  assert (0 <= u mod 64 / 8 < 8)
    by (split; [apply Z.div_pos; lia|apply Z.div_lt_upper_bound; lia]).
  lia.
Qed.

(** The cells from number [t] on: [n] calls of [getline] and of [stof], the
    first call of [stof] that does not return deciding the outcome. *)
Lemma read_from (n t : nat) (done : list fp) (fields : list string)
    (value : string) :
  Forall (fun f => has_charb comma f = false) fields ->
  length done = t -> (t + n = 512)%nat ->
  for_each (seqZ (Z.of_nat t) (Z.of_nat n)) (read_cell stof)
    ((pending fields value).1, (pending fields value).2,
     done ++ replicate n fp_zero)
  = (do vs <- map_outcome stof (cell_texts n fields value);
     Returned ((pending (advance n fields value).1 (advance n fields value).2).1,
               (pending (advance n fields value).1 (advance n fields value).2).2,
               done ++ vs)).
Proof.
  revert t done fields value.
  induction n as [|n IH]; intros t done fields value Hf Hd Ht.
  - reflexivity.
  - rewrite seqZ_cons by lia. cbn [for_each].
    unfold read_cell at 1. rewrite (getline_pending fields value Hf).
    rewrite (cell_texts_S n fields value), (advance_S n fields value).
    cbn [map_outcome].
    set (fields' := (advance 1 fields value).1).
    set (value' := (advance 1 fields value).2).
    assert (Hf' : Forall (fun f => has_charb comma f = false) fields')
      by (apply advance_comma_free; exact Hf).
    destruct (pending fields' value') as [ss' v'] eqn:E.
    assert (v' = value') as -> by (rewrite <- (pending_value fields' value'), E;
                                   reflexivity).
    destruct (stof value') as [x| |]; cbn [bind]; [|reflexivity..].
    destruct (cell_number (Z.of_nat t) ltac:(lia)) as (Hi & Hj & Hk & Hu).
    unfold find_matchesmulti.mat3_set.
    rewrite bool_decide_eq_true_2 by auto. rewrite Hu, Nat2Z.id. cbn [bind].
    rewrite insert_app_r_alt by lia.
    replace (t - length done)%nat with 0%nat by lia.
    cbn [replicate]. change (<[0%nat:=x]> (fp_zero :: replicate n fp_zero))
      with (x :: replicate n fp_zero).
    replace (Z.succ (Z.of_nat t)) with (Z.of_nat (S t)) by lia.
    replace (Z.pred (Z.of_nat (S n))) with (Z.of_nat n) by lia.
    replace ss' with (pending fields' value').1 by (rewrite E; reflexivity).
    rewrite <- (pending_value fields' value') at 2.
    rewrite (cons_middle x done), app_assoc.
    rewrite (IH (S t) (done ++ [x]) fields' value' Hf')
      by (rewrite ?length_app; simpl; lia).
    destruct (map_outcome stof (cell_texts n fields' value')) as [vs| |];
      cbn [bind]; [|reflexivity..].
    rewrite <- app_assoc. reflexivity.
Qed.

Lemma read_cells_values (fields : list string) (value : string) :
  Forall (fun f => has_charb comma f = false) fields ->
  find_matchesmulti.read_cells stof 8 (pending fields value).1
    (pending fields value).2
  = (do vs <- map_outcome stof (cell_texts 512 fields value);
     Returned ((pending (advance 512 fields value).1
                  (advance 512 fields value).2).1,
               (pending (advance 512 fields value).1
                  (advance 512 fields value).2).2,
               vs)).
Proof.
  intros Hf. rewrite read_cells_flat.
  exact (read_from 512 0 [] fields value Hf eq_refl eq_refl).
Qed.

(** The score of a line, by its imageId and its fields. *)
Lemma score_line_values (topHist bottomHist : list fp)
    (imageId : string) (fields : list string) :
  has_charb comma imageId = false ->
  Forall (fun f => has_charb comma f = false) fields ->
  find_matchesmulti.score_line stof topHist bottomHist
    (imageId ++ fields_text fields)
  = (do values <-
       map_outcome stof
         (take 1024 (fields ++ replicate 1024 (last fields EmptyString)));
     Returned (multi_score topHist bottomHist values, imageId)).
Proof.
  intros Hid Hf. unfold find_matchesmulti.score_line.
  rewrite (getline_before_fields imageId fields EmptyString Hid).
  rewrite (pending_stream fields imageId EmptyString).
  rewrite <- (pending_value fields EmptyString) at 2.
  rewrite (read_cells_values fields EmptyString Hf).
  rewrite <- cell_texts_fields.
  change 1024%nat with (512 + 512)%nat.
  rewrite cell_texts_add, map_outcome_app.
  destruct (map_outcome stof (cell_texts 512 fields EmptyString))
    as [vs1| |] eqn:E1; cbn [bind]; [|reflexivity..].
  set (fields' := (advance 512 fields EmptyString).1).
  set (value' := (advance 512 fields EmptyString).2).
  rewrite (read_cells_values fields' value')
    by (apply advance_comma_free; exact Hf).
  destruct (map_outcome stof (cell_texts 512 fields' value'))
    as [vs2| |] eqn:E2; cbn [bind]; [|reflexivity..].
  apply map_outcome_length in E1. rewrite cell_texts_length in E1.
  unfold multi_score, find_matchesmulti.computeHistogramIntersection.
  rewrite take_app_length', drop_app_length' by (symmetry; exact E1).
  reflexivity.
Qed.

(** X21. On a line of the store, the matcher of find_matchesmulti.cpp takes
    the text before the first comma as imageId and then calls [getline] and
    [stof] 1024 times, whatever the line holds.  The values are the fields of
    the line in turn; fields after the 1024th are not read; when the line has
    fewer, the stream is at its end, [getline] leaves its argument as it is
    and the last field is converted again for every cell that remains (the
    empty text when the line has no field at all, a blank line included).
    The first call of [stof] that does not return decides the outcome;
    otherwise the score is half the sum of the intersections of the two
    halves, each with the normalized 512 values read for it. *)
Theorem X21_multi_matcher_reads_1024_values (topHist bottomHist : list fp)
    (imageId : string) (fields : list string) :
  has_charb comma imageId = false ->
  Forall (fun f => has_charb comma f = false) fields ->
  find_matchesmulti.score_line stof topHist bottomHist
    (imageId ++ fields_text fields)
  = (do values <-
       map_outcome stof
         (take 1024 (fields ++ replicate 1024 (last fields EmptyString)));
     Returned (multi_score topHist bottomHist values, imageId)).
Proof. apply score_line_values. Qed.

End MultiMatcher.

Lemma X21_witness :
  find_matchesmulti.score_line stof_decimal [] []
    ("a.jpg" ++ fields_text ["1"%string; "3"%string])
  = (do values <-
       map_outcome stof_decimal
         (take 1024 (["1"%string; "3"%string]
                     ++ replicate 1024 (last ["1"%string; "3"%string] EmptyString)));
     Returned (multi_score [] [] values, "a.jpg"%string)).
Proof.
  apply (X21_multi_matcher_reads_1024_values stof_decimal [] [] "a.jpg"
           ["1"%string; "3"%string]).
  - reflexivity.
  - repeat constructor.
Defined.

(** A line with a single field is scored as the line that repeats it 1024
    times, and a blank line makes [stof] throw. *)
Example short_line_examples :
  find_matchesmulti.score_line stof_decimal (replicate 512 (fp_of_Q 1 512))
    (replicate 512 (fp_of_Q 1 512)) "a.jpg,2"
  = find_matchesmulti.score_line stof_decimal (replicate 512 (fp_of_Q 1 512))
      (replicate 512 (fp_of_Q 1 512))
      ("a.jpg" ++ fields_text (replicate 1024 "2"%string)) /\
  find_matchesmulti.score_line stof_decimal [] [] EmptyString
  = Raised ParseError.
Proof. split; vm_compute; reflexivity. Qed.

(** ** The histogram of an image of one colour *)

Lemma flat3_injective (bins i j k r g b : Z) :
  in_bins bins i -> in_bins bins j -> in_bins bins k ->
  in_bins bins r -> in_bins bins g -> in_bins bins b ->
  (i * bins + j) * bins + k = (r * bins + g) * bins + b ->
  (i, j, k) = (r, g, b).
Proof.
  unfold in_bins. intros Hi Hj Hk Hr Hg Hb E.
  assert (k = b).
  { assert (Hm : k - b = bins * ((r * bins + g) - (i * bins + j))) by lia.
    assert (- bins < k - b < bins) by lia.
    destruct (Z.eq_dec ((r * bins + g) - (i * bins + j)) 0) as [E0|Hne];
      [lia|]. nia. }
  subst k.
  assert (E' : i * bins + j = r * bins + g) by nia.
  assert (j = g).
  { assert (Hm : j - g = bins * (r - i)) by lia.
    destruct (Z.eq_dec (r - i) 0) as [E0|Hne]; [lia|]. nia. }
  subst j. assert (i = r) by nia. subst i. reflexivity.
Qed.

(** X22. On an image of a single colour, of any size from 0 x 0 on,
    [computeRGBHistogram] leaves every cell at 0 but the cell of that colour,
    which holds the number of pixels, or 2^24 when there are more: a float
    cell stays at 16777216 when it is incremented. *)
Theorem X22_histogram_of_one_colour (h w bins : Z) (p : Vec3b) :
  0 <= h -> 0 <= w -> 1 <= bins -> 255 * bins <= INT_MAX ->
  exists (hist : list Z) (r g b : Z),
    color_bin (uchar_to_int (px2 p)) bins = Returned r /\
    color_bin (uchar_to_int (px1 p)) bins = Returned g /\
    color_bin (uchar_to_int (px0 p)) bins = Returned b /\
    compute_featurescolorandtexture.computeRGBHistogram (uniform_image h w p) bins
    = Returned hist /\
    hist3_at bins hist r g b = Z.min (h * w) (2 ^ 24) /\
    forall i j k : Z,
      in_bins bins i -> in_bins bins j -> in_bins bins k ->
      (i, j, k) <> (r, g, b) -> hist3_at bins hist i j k = 0.
Proof.
  intros Hh Hw Hb Hm.
  destruct (color_bin_in_bins _ bins (uchar_to_int_range (px2 p)) Hb Hm)
    as (r & Er & Hr).
  destruct (color_bin_in_bins _ bins (uchar_to_int_range (px1 p)) Hb Hm)
    as (g & Eg & Hg).
  destruct (color_bin_in_bins _ bins (uchar_to_int_range (px0 p)) Hb Hm)
    as (b & Eb & Hbl).
  eexists _, r, g, b. repeat (split; [eassumption|]).
  split; [apply (uniform_rgb_histogram h w p bins r g b); assumption|].
  pose proof (flat3_lt bins r g b Hr Hg Hbl) as Hlt.
  unfold hist3_at. split.
  - rewrite list_lookup_alter_eq.
    rewrite lookup_replicate_2 by exact Hlt. cbn [fmap option_fmap option_map default].
    rewrite finc_iter by lia.
    rewrite Nat2Z.inj_mul, !Z2Nat.id by lia. reflexivity.
  - intros i j k Hi Hj Hk Hne.
    rewrite list_lookup_alter_ne.
    + pose proof (flat3_lt bins i j k Hi Hj Hk) as Hlt'.
      rewrite lookup_replicate_2 by exact Hlt'. reflexivity.
    + intros E. apply Hne.
      apply (flat3_injective bins i j k r g b); try assumption.
      unfold in_bins in *. nia.
Qed.

Lemma X22_witness :
  exists (hist : list Z) (r g b : Z),
    color_bin (uchar_to_int (px2 red)) 8 = Returned r /\
    color_bin (uchar_to_int (px1 red)) 8 = Returned g /\
    color_bin (uchar_to_int (px0 red)) 8 = Returned b /\
    compute_featurescolorandtexture.computeRGBHistogram
      (uniform_image 5000 5000 red) 8 = Returned hist /\
    hist3_at 8 hist r g b = Z.min (5000 * 5000) (2 ^ 24) /\
    forall i j k : Z,
      in_bins 8 i -> in_bins 8 j -> in_bins 8 k ->
      (i, j, k) <> (r, g, b) -> hist3_at 8 hist i j k = 0.
Proof.
  apply (X22_histogram_of_one_colour 5000 5000 8 red);
    unfold INT_MAX; lia.
Defined.

(** ** From the baseline extractor to the baseline matcher *)

Lemma baseline_channel_values (image : Image) (featureVector : list fp) :
  valid_image image ->
  compute_features.computeBaselineFeatureVector image = Returned featureVector ->
  length featureVector = 147%nat /\ Forall channel_value featureVector.
Proof.
  intros Hv Hret.
  destruct (baseline_returned_size image featureVector Hv Hret) as [H7r H7c].
  destruct (baseline_returns image Hv H7r H7c) as (fv & Hfv & Hlen).
  assert (fv = featureVector) as -> by congruence.
  split; [exact Hlen|].
  rewrite (baseline_loops image Hv) in Hret.
  pose proof (centre_inside _ H7r). pose proof (centre_inside _ H7c).
  destruct (for_each_inv (fun _ (v : list fp) => Forall channel_value v)
              (seqZ (rows image / 2 - 3) 7)
              (fun y featureVector =>
                 for_each (seqZ (cols image / 2 - 3) 7)
                   (fun x featureVector => push_pixel image y x featureVector)
                   featureVector) []) as (v & Hv' & Hall).
  - constructor.
  - intros k y s Hk Hs. apply lookup_seqZ in Hk as [-> Hk].
    apply (for_each_inv (fun _ (v : list fp) => Forall channel_value v)).
    + exact Hs.
    + intros j x t Hj Ht. apply lookup_seqZ in Hj as [-> Hj].
      unfold push_pixel. rewrite at_inside by lia. cbn [bind].
      eexists. split; [reflexivity|]. apply Forall_app. split; [exact Ht|].
      repeat constructor; eexists; (split; [apply uchar_to_int_range|reflexivity]).
  - rewrite Hv' in Hret. injection Hret as <-. exact Hall.
Qed.

Lemma channel_values_finite (values : list fp) :
  Forall channel_value values -> exists qs : list Qc, values = map FNum qs.
Proof.
  induction 1 as [|x values (v & _ & ->) _ (qs & ->)].
  - exists []. reflexivity.
  - exists (Q2Qc (inject_Z v) :: qs). reflexivity.
Qed.

(** The distance between two patches is finite and not negative; between a
    patch and itself it is zero. *)
Lemma ssd_of_patches (vec1 vec2 : list fp) :
  length vec1 = length vec2 ->
  Forall channel_value vec1 -> Forall channel_value vec2 ->
  exists q : Qc,
    find_matches.computeSSD vec1 vec2 = Returned (FNum q) /\
    (Q2Qc 0 <= q)%Qc /\ (vec1 = vec2 -> q = Q2Qc 0).
Proof.
  intros Hl H1 H2.
  destruct (channel_values_finite vec1 H1) as (p & ->).
  destruct (channel_values_finite vec2 H2) as (q & ->).
  rewrite !length_map in Hl.
  rewrite computeSSD_fold. rewrite decide_True by (rewrite !length_map; lia).
  destruct (ssd_fold_values p q (Q2Qc 0) Hl) as (d & Hd & _ & Hpos & Hz).
  exists d. change fp_zero with (FNum (Q2Qc 0)). rewrite Hd, Qcplus_0_l.
  split; [reflexivity|]. split; [exact Hpos|].
  intros E. apply Hz.
  apply (f_equal (map (fun x => match x with FNum y => y | _ => Q2Qc 0 end))) in E.
  rewrite !map_map in E. cbn in E. rewrite !map_id in E. exact E.
Qed.

(** The first of a ranking that holds a score of zero among scores that are
    finite and not negative. *)
Lemma best_of_nonneg (distances : list (fp * string)) (imageId : string) :
  Forall finite_nonneg distances ->
  (fp_zero, imageId) ∈ distances ->
  exists best : fp * string,
    head (std_sort pair_ltb distances) = Some best /\ best.1 = fp_zero.
Proof.
  intros Hfin Hin.
  assert (Hnn : Forall not_nan distances).
  { eapply Forall_impl; [|exact Hfin]. intros d (q & Hq & _).
    unfold not_nan. rewrite Hq. discriminate. }
  pose proof (std_sort_strongly_sorted pair_ltb not_nan pair_ltb_asym
                pair_ltb_trans distances Hnn) as Hs.
  pose proof (std_sort_perm pair_ltb distances) as Hp.
  rewrite <- Hp in Hin. rewrite <- Hp in Hfin.
  destruct (std_sort pair_ltb distances) as [|a s]; [inversion Hin|].
  exists a. split; [reflexivity|].
  inversion Hfin as [|? ? (q & Hq & Hq0) _]; subst.
  apply elem_of_cons in Hin as [<-|Hin]; [reflexivity|].
  inversion Hs as [|? ? _ Hall]; subst.
  rewrite Forall_forall in Hall.
  specialize (Hall _ (proj1 (list_elem_of_In _ _) Hin)).
  unfold in_order, pair_ltb in Hall. cbn [fst snd] in Hall.
  apply orb_false_iff in Hall as [Hlt _]. rewrite Hq in *.
  unfold fp_zero, fp_of_Z, fp_ltb in Hlt.
  apply bool_decide_eq_false in Hlt.
  change (Q2Qc (inject_Z 0)) with (Q2Qc 0) in Hlt.
  apply Qcnot_lt_le in Hlt.
  rewrite (Qcle_antisym _ _ Hlt Hq0). reflexivity.
Qed.

(** ** The first K of the baseline matcher *)

Lemma finite_values (values : list fp) :
  Forall finite values -> exists qs : list Qc, values = map FNum qs.
Proof.
  induction 1 as [|x values (q & ->) _ (qs & ->)].
  - exists []. reflexivity.
  - exists (q :: qs). reflexivity.
Qed.

Lemma computeSSD_finite (vec1 vec2 : list fp) :
  (length vec1 <= length vec2)%nat ->
  Forall finite vec1 -> Forall finite vec2 ->
  exists q : Qc,
    find_matches.computeSSD vec1 vec2 = Returned (FNum q) /\ (Q2Qc 0 <= q)%Qc.
Proof.
  intros Hl H1 H2.
  assert (H2' : Forall finite (take (length vec1) vec2)).
  { apply Forall_take. exact H2. }
  destruct (finite_values vec1 H1) as (p & ->).
  destruct (finite_values _ H2') as (q & Hq).
  rewrite computeSSD_fold, decide_True by exact Hl.
  rewrite <- zip_take_r, Hq.
  destruct (ssd_fold_values p q (Q2Qc 0)) as (d & Hd & _ & Hpos & _).
  { apply (f_equal length) in Hq.
    rewrite length_take, !length_map in Hq. rewrite length_map in Hl. lia. }
  exists d. change fp_zero with (FNum (Q2Qc 0)). rewrite Hd, Qcplus_0_l.
  split; [reflexivity|exact Hpos].
Qed.

(** The reading loop of the matcher on a store that is read to its end. *)
Lemma score_lines_of_records (stof : string -> outcome fp)
    (targetFeatureVector : list fp) (inFile : string)
    (records : list (string * list fp)) :
  read_records stof inFile = Returned records ->
  Forall finite targetFeatureVector ->
  Forall (fun r : string * list fp =>
            (length targetFeatureVector <= length r.2)%nat /\
            Forall finite r.2) records ->
  exists distances : list (fp * string),
    find_matches.score_lines stof targetFeatureVector inFile
    = Returned distances /\
    map snd distances = map fst records /\
    Forall finite_nonneg distances.
Proof.
  intros Hread Htv. remember (String.length inFile) as n eqn:Hn.
  revert inFile records Hn Hread.
  induction n as [n IH] using lt_wf_ind. intros inFile records Hn.
  rewrite score_lines_step, read_records_unfolded.
  destruct (getline inFile newline) as [[line rest]|] eqn:E.
  - destruct (parse_record stof line) as [r| |]; try discriminate. cbn [bind].
    destruct (read_records stof rest) as [rs| |] eqn:Er; try discriminate.
    cbn [bind]. intros [= <-] Hall.
    inversion Hall as [|? ? [Hlen Hfin] Hall']; subst.
    destruct (computeSSD_finite targetFeatureVector r.2 Hlen Htv Hfin)
      as (q & -> & Hq).
    cbn [bind]. apply getline_shorter in E.
    destruct (IH (String.length rest) ltac:(lia) rest rs eq_refl Er Hall')
      as (ds & -> & Hids & Hds).
    cbn [bind]. eexists. split; [reflexivity|]. split.
    + cbn [map snd fst]. rewrite Hids. reflexivity.
    + constructor; [|exact Hds]. exists q. split; [reflexivity|exact Hq].
  - intros [= <-] _. exists []. split; [reflexivity|].
    split; [reflexivity|constructor].
Qed.

Lemma strongly_sorted_take {A : Type} (R : A -> A -> Prop) (l : list A)
    (k : nat) :
  StronglySorted R l -> StronglySorted R (take k l).
Proof.
  intros Hs. revert k. induction Hs as [|a l Hl IH Ha]; intros [|k];
    cbn [take]; try constructor.
  - apply IH.
  - apply Forall_take. exact Ha.
Qed.

Lemma strongly_sorted_impl {A : Type} (R S : A -> A -> Prop) (good : A -> Prop)
    (l : list A) :
  (forall a b, good a -> good b -> R a b -> S a b) ->
  Forall good l -> StronglySorted R l -> StronglySorted S l.
Proof.
  intros HRS Hg Hs. induction Hs as [|a l Hl IH Ha]; [constructor|].
  inversion Hg as [|? ? Hga Hgl]; subst.
  constructor; [apply IH; exact Hgl|].
  rewrite Forall_forall in Ha, Hgl |- *. intros x Hx.
  apply HRS; [exact Hga|apply Hgl; exact Hx|apply Ha; exact Hx].
Qed.

Lemma in_order_scores_ascend (a b : fp * string) :
  not_nan a -> not_nan b ->
  in_order pair_ltb a b -> scores_ascend a b.
Proof.
  unfold not_nan, in_order, pair_ltb, scores_ascend. intros Ha Hb H.
  apply orb_false_iff in H as [Hlt _].
  destruct a.1 as [x|s|], b.1 as [y|t|]; try contradiction;
    cbn [fp_ltb] in Hlt.
  - apply bool_decide_eq_false in Hlt. apply Qcnot_lt_le. exact Hlt.
  - destruct t; [discriminate|exact I].
  - destruct s; [exact I|discriminate].
  - destruct s, t; try exact I. discriminate.
Qed.

(** A ranking of scores without NaN: the first [numMatches], in ascending
    order; all of them when [numMatches] is at least their number. *)
Lemma top_matches_ranked (numMatches : Z) (distances : list (fp * string)) :
  Forall not_nan distances ->
  StronglySorted scores_ascend (find_matches.top_matches numMatches distances) /\
  (vec_size distances <= numMatches ->
   Permutation (find_matches.top_matches numMatches distances) distances).
Proof.
  intros Hnn. unfold find_matches.top_matches.
  rewrite print_top_take, Z.sub_0_r.
  pose proof (std_sort_strongly_sorted pair_ltb not_nan pair_ltb_asym
                pair_ltb_trans distances Hnn) as Hs.
  pose proof (std_sort_perm pair_ltb distances) as Hp.
  split.
  - apply strongly_sorted_take.
    apply (strongly_sorted_impl (in_order pair_ltb) scores_ascend not_nan).
    + apply in_order_scores_ascend.
    + rewrite Hp. exact Hnn.
    + exact Hs.
  - intros HK. rewrite take_ge; [exact Hp|].
    rewrite (Permutation_length Hp). unfold vec_size in HK. lia.
Qed.

(** C5 (amended). On a store that the matcher of find_matches.cpp reads to
    its end (every value is a number that [stof] converts to a finite value,
    every record holds at least the 147 values of the target), for a target
    of 7 x 7 pixels or more and every K: the matcher exits with status 0 and
    prints pairs in ascending order of distance, no distance being NaN; when
    K is at least the number of records it prints every record exactly once;
    on an empty store it prints nothing and exits with status 0; with K = 0
    it prints nothing. *)
Theorem C5_top_k_edge_cases (imread : string -> option Image)
    (stof : string -> outcome fp) (open_file : string -> option string)
    (targetImageFile featureFile : string) (numMatches : Z)
    (targetImage : Image) (inFile : string)
    (records : list (string * list fp)) :
  imread targetImageFile = Some targetImage ->
  valid_image targetImage -> 7 <= rows targetImage -> 7 <= cols targetImage ->
  open_file featureFile = Some inFile ->
  read_records stof inFile = Returned records ->
  Forall (fun r : string * list fp =>
            (147 <= length r.2)%nat /\ Forall finite r.2) records ->
  exists ranked : list (fp * string),
    find_matches.main imread stof open_file targetImageFile "baseline"
      featureFile numMatches = Returned (0, ranked) /\
    StronglySorted scores_ascend ranked /\
    Forall not_nan ranked /\
    (vec_size records <= numMatches ->
     Permutation (map snd ranked) (map fst records)) /\
    (inFile = EmptyString -> ranked = []) /\
    (numMatches = 0 -> ranked = []).
Proof.
  intros Him Hv H7r H7c Hopen Hread Hrecords.
  destruct (baseline_returns targetImage Hv H7r H7c) as (tv & Htv & Hlen).
  destruct (baseline_channel_values targetImage tv Hv Htv) as [_ Hchan].
  assert (Hfin : Forall finite tv).
  { eapply Forall_impl; [|exact Hchan]. intros x (v & _ & ->).
    eexists. reflexivity. }
  destruct (score_lines_of_records stof tv inFile records Hread Hfin)
    as (distances & Hscore & Hids & Hds).
  { rewrite Hlen. exact Hrecords. }
  assert (Hnn : Forall not_nan distances).
  { eapply Forall_impl; [|exact Hds]. intros d (q & Hq & _).
    unfold not_nan. rewrite Hq. discriminate. }
  destruct (top_matches_ranked numMatches distances Hnn) as [Hsorted Hperm].
  exists (find_matches.top_matches numMatches distances).
  split; [|split; [|split; [|split; [|split]]]].
  - unfold find_matches.main. rewrite Him, String.eqb_refl, Htv.
    cbn [bind]. rewrite Hopen, Hscore. reflexivity.
  - exact Hsorted.
  - unfold find_matches.top_matches. rewrite print_top_take.
    apply Forall_take. rewrite (std_sort_perm pair_ltb distances). exact Hnn.
  - intros HK. rewrite <- Hids. apply Permutation_map. apply Hperm.
    unfold vec_size in *. rewrite <- (length_map snd distances), Hids.
    rewrite length_map. exact HK.
  - intros ->. rewrite read_records_unfolded in Hread. cbn in Hread.
    injection Hread as <-. destruct distances; [reflexivity|discriminate].
  - intros ->. unfold find_matches.top_matches. rewrite print_top_take.
    reflexivity.
Qed.

Lemma C5_witness :
  exists ranked : list (fp * string),
    find_matches.main gray_imread stof_decimal one_image_store
      "olympus/pic.0001.jpg" "baseline" "features.csv" 5
    = Returned (0, ranked) /\
    StronglySorted scores_ascend ranked /\
    Forall not_nan ranked /\
    (vec_size [("olympus/pic.0001.jpg"%string, replicate 147 (fp_of_Z 100))]
     <= 5 ->
     Permutation (map snd ranked)
       (map fst [("olympus/pic.0001.jpg"%string,
                  replicate 147 (fp_of_Z 100))])) /\
    (write_store show_float_g
       (extracted gray_imread
          (compute_features.readImageFilenames one_image_listing "olympus"))
     = EmptyString -> ranked = []) /\
    (5 = 0 -> ranked = []).
Proof.
  apply (C5_top_k_edge_cases gray_imread stof_decimal one_image_store
           "olympus/pic.0001.jpg" "features.csv" 5 (uniform_image 9 9 gray)).
  - reflexivity.
  - unfold valid_image, INT_MAX. simpl. lia.
  - simpl. lia.
  - simpl. lia.
  - reflexivity.
  - vm_compute. reflexivity.
  - constructor; [|constructor]. split; [simpl; lia|].
    apply Forall_forall. intros x Hx. apply list_elem_of_In in Hx.
    apply elem_of_replicate in Hx as [-> _]. eexists. reflexivity.
Defined.

(** Not every store is read to its end: on a store whose value is not a
    number [stof] throws, and on a store whose record is shorter than the
    target's vector [computeSSD] reads past its end; in neither case does the
    matcher return a ranking, whatever K. *)
Lemma C5_counterexample :
  stof_decimal "x" = Raised ParseError /\
  find_matches.main gray_imread stof_decimal unreadable_store
    "olympus/pic.0001.jpg" "baseline" "features.csv" 5 = Raised ParseError /\
  find_matches.main gray_imread stof_decimal short_store
    "olympus/pic.0001.jpg" "baseline" "features.csv" 5 = Undefined.
Proof. repeat split; vm_compute; reflexivity. Qed.

Section BaselinePipeline.

Variable directory_listing : string -> list string.
Variable imread : string -> option Image.
Variable show_float : fp -> string.
Variable stof : string -> outcome fp.
Variable open_file : string -> option string.

(** [stof] reads the printed text of every channel value as that value. *)
Hypothesis channel_values_print :
  forall v : Z, 0 <= v <= 255 ->
    printable show_float stof (fun x => x) (fp_of_Z v).

Lemma score_lines_written (targetFeatureVector : list fp)
    (records : list (string * list fp)) :
  Forall (storable show_float stof (fun x => x)) records ->
  find_matches.score_lines stof targetFeatureVector
    (write_store show_float records)
  = ssd_scores targetFeatureVector records.
Proof.
  induction 1 as [|r records Hr _ IH].
  - rewrite score_lines_step. reflexivity.
  - unfold write_store. cbn [map join foldr].
    change (foldr String.append EmptyString ?l) with (join l).
    fold (write_store show_float records).
    rewrite write_record_line, score_lines_step.
    rewrite (getline_app newline _ _
               (record_line_one_line show_float stof _ r Hr)).
    rewrite (parse_record_line show_float stof _ r Hr). cbn [bind fst snd].
    rewrite map_id, IH. unfold ssd_scores. cbn [map_outcome].
    destruct (find_matches.computeSSD targetFeatureVector r.2); reflexivity.
Qed.

Lemma extracted_records (imageFilenames : list string) (r : string * list fp) :
  r ∈ extracted imread imageFilenames ->
  exists image,
    r.1 ∈ imageFilenames /\ imread r.1 = Some image /\
    compute_features.computeBaselineFeatureVector image = Returned r.2.
Proof.
  intros Hr. apply list_elem_of_In in Hr. unfold extracted in Hr.
  apply in_flat_map in Hr as (filename & Hf & Hr).
  destruct (imread filename) as [image|] eqn:E; [|contradiction].
  destruct (compute_features.computeBaselineFeatureVector image) as [fv| |] eqn:Ef;
    try contradiction.
  destruct Hr as [<-|[]]. exists image. cbn [fst snd].
  split; [apply list_elem_of_In; exact Hf|]. split; assumption.
Qed.

Lemma extracted_member (imageFilenames : list string) (filename : string)
    (image : Image) (featureVector : list fp) :
  filename ∈ imageFilenames -> imread filename = Some image ->
  compute_features.computeBaselineFeatureVector image = Returned featureVector ->
  (filename, featureVector) ∈ extracted imread imageFilenames.
Proof.
  intros Hf Him Hfv. apply list_elem_of_In. unfold extracted.
  apply in_flat_map. exists filename. split; [apply list_elem_of_In; exact Hf|].
  rewrite Him, Hfv. left. reflexivity.
Qed.

Lemma ssd_scores_of_patches (targetFeatureVector : list fp)
    (records : list (string * list fp)) :
  length targetFeatureVector = 147%nat ->
  Forall channel_value targetFeatureVector ->
  Forall (fun r : string * list fp =>
            length r.2 = 147%nat /\ Forall channel_value r.2) records ->
  exists distances : list (fp * string),
    ssd_scores targetFeatureVector records = Returned distances /\
    map snd distances = map fst records /\
    Forall finite_nonneg distances /\
    forall imageId : string,
      (imageId, targetFeatureVector) ∈ records ->
      (fp_zero, imageId) ∈ distances.
Proof.
  intros Hl Ht. induction 1 as [|r records [Hr1 Hr2] _ IH].
  - exists []. split; [reflexivity|]. split; [reflexivity|].
    split; [constructor|]. intros id Hin. inversion Hin.
  - destruct IH as (ds & Hds & Hids & Hfin & Hself).
    destruct (ssd_of_patches targetFeatureVector r.2 ltac:(lia) Ht Hr2)
      as (q & Hq & Hq0 & Hqz).
    exists ((FNum q, r.1) :: ds). unfold ssd_scores in *. cbn [map_outcome].
    rewrite Hq. cbn [bind]. rewrite Hds. cbn [bind].
    split; [reflexivity|]. split; [cbn [map snd]; rewrite Hids; reflexivity|].
    split; [constructor; [exists q; auto|exact Hfin]|].
    intros id Hin. apply elem_of_cons in Hin as [E|Hin].
    + subst r. cbn [fst snd] in *. rewrite (Hqz eq_refl).
      apply elem_of_cons. left. reflexivity.
    + apply elem_of_cons. right. apply Hself. exact Hin.
Qed.

(** X23. The store that the extractor of compute_features.cpp writes for a
    directory is read without loss by the matcher of find_matches.cpp, given
    images of at least 7 x 7 pixels, paths without comma or line feed, and a
    printing of the integers 0 .. 255 that [stof] reads back exactly: the
    matcher exits with status 0, scores one pair per stored record, in the
    order of the store, with distances that are finite and not negative; and
    when the target is one of the images of the directory, the first match
    that is printed has distance 0. *)
Theorem X23_baseline_store_is_matched (imageDirectory targetImageFile
    featureFile : string) (numMatches : Z) (targetImage : Image) :
  (forall filename image,
      filename ∈ compute_features.readImageFilenames directory_listing
                   imageDirectory ->
      imread filename = Some image ->
      valid_image image /\ 7 <= rows image /\ 7 <= cols image) ->
  (forall filename,
      filename ∈ compute_features.readImageFilenames directory_listing
                   imageDirectory ->
      clean_id filename) ->
  imread targetImageFile = Some targetImage ->
  valid_image targetImage -> 7 <= rows targetImage -> 7 <= cols targetImage ->
  exists (text : string) (distances : list (fp * string)),
    compute_features.main directory_listing imread show_float imageDirectory
      "baseline" = Returned (0, text) /\
    (open_file featureFile = Some text ->
     find_matches.main imread stof open_file targetImageFile "baseline"
       featureFile numMatches
     = Returned (0, find_matches.top_matches numMatches distances)) /\
    map snd distances
    = map fst (extracted imread
                 (compute_features.readImageFilenames directory_listing
                    imageDirectory)) /\
    Forall finite_nonneg distances /\
    (targetImageFile ∈ compute_features.readImageFilenames directory_listing
                         imageDirectory ->
     1 <= numMatches ->
     exists best : fp * string,
       head (find_matches.top_matches numMatches distances) = Some best /\
       best.1 = fp_zero).
Proof.
  intros Himages Hclean Htarget Hvt H7r H7c.
  set (filenames := compute_features.readImageFilenames directory_listing
                      imageDirectory) in *.
  (* the extraction *)
  destruct (extract_loop_returns imread show_float filenames EmptyString Himages)
    as (text & Htext).
  pose proof (extract_loop_written imread show_float filenames EmptyString 0 text
                Htext) as [_ Hwritten].
  cbn [String.append] in Hwritten.
  (* the records *)
  assert (Hrecords : Forall (fun r : string * list fp =>
                               length r.2 = 147%nat /\ Forall channel_value r.2)
                       (extracted imread filenames)).
  { apply Forall_forall. intros r Hr. apply list_elem_of_In in Hr.
    destruct (extracted_records filenames r Hr) as (image & Hf & Him & Hfv).
    destruct (Himages r.1 image Hf Him) as (Hv & _).
    apply (baseline_channel_values image r.2 Hv Hfv). }
  assert (Hstorable : Forall (storable show_float stof (fun x => x))
                        (extracted imread filenames)).
  { apply Forall_forall. intros r Hr. apply list_elem_of_In in Hr.
    destruct (extracted_records filenames r Hr) as (image & Hf & Him & Hfv).
    destruct (Himages r.1 image Hf Him) as (Hv & _).
    destruct (baseline_channel_values image r.2 Hv Hfv) as [_ Hvals].
    split; [apply Hclean; exact Hf|].
    eapply Forall_impl; [|exact Hvals].
    intros x (v & Hrange & ->). apply channel_values_print. exact Hrange. }
  (* the target *)
  destruct (baseline_returns targetImage Hvt H7r H7c) as (tv & Htv & _).
  destruct (baseline_channel_values targetImage tv Hvt Htv) as [Htl Htvals].
  destruct (ssd_scores_of_patches tv _ Htl Htvals Hrecords)
    as (distances & Hscores & Hids & Hfin & Hself).
  exists text, distances. split; [exact Htext|]. split; [|split; [|split]].
  - intros Hopen. unfold find_matches.main.
    rewrite Htarget, String.eqb_refl, Htv. cbn [bind]. rewrite Hopen.
    rewrite Hwritten, (score_lines_written tv _ Hstorable), Hscores.
    reflexivity.
  - exact Hids.
  - exact Hfin.
  - intros Hmember HK.
    destruct (best_of_nonneg distances targetImageFile Hfin) as (best & Hb & Hz).
    { apply Hself. apply (extracted_member filenames _ targetImage); assumption. }
    exists best. split; [|exact Hz].
    unfold find_matches.top_matches. rewrite print_top_take, Z.sub_0_r.
    destruct (std_sort pair_ltb distances) as [|a s]; [discriminate|].
    replace (Z.to_nat numMatches) with (S (Z.to_nat (numMatches - 1))) by lia.
    exact Hb.
Qed.

End BaselinePipeline.

Lemma prints_exactly_printable (v : fp) :
  prints_exactly v = true ->
  printable show_float_g stof_decimal (fun x => x) v.
Proof.
  unfold prints_exactly. intros H.
  apply andb_true_iff in H as [H Hs]. apply andb_true_iff in H as [H Hn].
  apply andb_true_iff in H as [He Hc].
  apply negb_true_iff in He, Hc, Hn.
  apply printable_by_evaluation; try assumption.
  intros E. rewrite E in He. discriminate.
Qed.

Lemma channel_values_print_exactly (v : Z) :
  0 <= v <= 255 ->
  printable show_float_g stof_decimal (fun x => x) (fp_of_Z v).
Proof.
  intros Hv. apply prints_exactly_printable.
  assert (H : forallb (fun v => prints_exactly (fp_of_Z v)) (seqZ 0 256) = true)
    by (vm_compute; reflexivity).
  rewrite forallb_forall in H. apply H.
  apply list_elem_of_In, elem_of_seqZ. lia.
Qed.

Lemma X23_witness :
  exists (text : string) (distances : list (fp * string)),
    compute_features.main one_image_listing gray_imread show_float_g "olympus"
      "baseline" = Returned (0, text) /\
    (one_image_store "features.csv" = Some text ->
     find_matches.main gray_imread stof_decimal
       one_image_store
       "olympus/pic.0001.jpg" "baseline" "features.csv" 3
     = Returned (0, find_matches.top_matches 3 distances)) /\
    map snd distances
    = map fst (extracted gray_imread
                 (compute_features.readImageFilenames one_image_listing
                    "olympus")) /\
    Forall finite_nonneg distances /\
    ("olympus/pic.0001.jpg"%string
       ∈ compute_features.readImageFilenames one_image_listing "olympus" ->
     1 <= 3 ->
     exists best : fp * string,
       head (find_matches.top_matches 3 distances) = Some best /\
       best.1 = fp_zero).
Proof.
  apply (X23_baseline_store_is_matched one_image_listing gray_imread
           show_float_g stof_decimal
           one_image_store
           channel_values_print_exactly
           "olympus" "olympus/pic.0001.jpg" "features.csv" 3
           (uniform_image 9 9 gray)).
  - intros filename image _ [= <-]. unfold valid_image, INT_MAX. simpl. lia.
  - intros filename Hf. apply list_elem_of_singleton in Hf as ->.
    split; reflexivity.
  - reflexivity.
  - unfold valid_image, INT_MAX. simpl. lia.
  - simpl. lia.
  - simpl. lia.
Defined.

(** The extractor and then the matcher on a directory of one image, the
    target: the image is matched at distance 0. *)
Example baseline_pipeline_example :
  exists text : string,
    compute_features.main one_image_listing gray_imread show_float_g "olympus"
      "baseline" = Returned (0, text) /\
    find_matches.main gray_imread stof_decimal (fun _ => Some text)
      "olympus/pic.0001.jpg" "baseline" "features.csv" 3
    = Returned (0, [(fp_zero, "olympus/pic.0001.jpg"%string)]).
Proof.
  eexists. split; [vm_compute; reflexivity|]. vm_compute. reflexivity.
Qed.

(** ** From the rg extractor to the rg matcher *)

Lemma histo_score_lines_step (stof : string -> outcome fp)
    (targetFeature : list fp) (inFile : string) :
  find_matcheshisto.score_lines stof targetFeature inFile
  = match getline inFile newline with
    | None => Returned []
    | Some (line, inFile') =>
        do r <- parse_record stof line;
        do distance <- find_matcheshisto.score_record targetFeature r.2;
        do distances <- find_matcheshisto.score_lines stof targetFeature inFile';
        Returned ((distance, r.1) :: distances)
    end.
Proof.
  rewrite find_matcheshisto.score_lines_unfold_eq.
  unfold find_matcheshisto.score_lines_unfold.
  destruct (inspect (getline inFile newline)) as [[[line inFile']|] e];
    cbn; rewrite e; reflexivity.
Qed.

Lemma prints_exactly_all (values : list fp) :
  forallb prints_exactly values = true ->
  Forall (printable show_float_g stof_decimal (fun x => x)) values.
Proof.
  intros H. rewrite forallb_forall in H. apply Forall_forall.
  intros v Hv. apply prints_exactly_printable, H, Hv.
Qed.

Section RgPipeline.

Variable directory_listing : string -> list string.
Variable is_regular_file : string -> bool.
Variable imread : string -> option Image.
Variable show_float : fp -> string.
Variable stof : string -> outcome fp.
Variable open_file : string -> option string.
(** What [stof] reads from the text printed for a value. *)
Variable reread : fp -> fp.

Lemma histo_score_lines_written (targetFeature : list fp)
    (records : list (string * list fp)) :
  Forall (storable show_float stof reread) records ->
  Forall (fun r : string * list fp => length r.2 = 256%nat) records ->
  find_matcheshisto.score_lines stof targetFeature
    (write_store show_float records)
  = Returned (rg_scores reread targetFeature records).
Proof.
  intros Hs. induction Hs as [|r records Hr _ IH]; intros Hl.
  - rewrite histo_score_lines_step. reflexivity.
  - inversion Hl as [|? ? Hlen Hl']; subst.
    unfold write_store. cbn [map join foldr].
    change (foldr String.append EmptyString ?l) with (join l).
    fold (write_store show_float records).
    rewrite write_record_line, histo_score_lines_step.
    rewrite (getline_app newline _ _
               (record_line_one_line show_float stof reread r Hr)).
    rewrite (parse_record_line show_float stof reread r Hr). cbn [bind fst snd].
    unfold find_matcheshisto.score_record, find_matcheshisto.mat_over.
    rewrite decide_True by (rewrite length_map; lia).
    rewrite take_ge by (rewrite length_map; lia). cbn [bind].
    rewrite (IH Hl'). reflexivity.
Qed.

(** X24. The records that the extractor of compute_histo_features.cpp writes
    hold the 256 values that the matcher of find_matcheshisto.cpp lays its
    16 x 16 matrix over: run on that store, with paths free of comma and line
    feed and values printed as text that [stof] reads, the matcher reads no
    record past its end, exits with status 0 and ranks one pair per stored
    record, scored on the values as they are read back. *)
Theorem X24_rg_store_is_matched (directory targetImageFile featureFile : string)
    (numMatches : Z) (targetImage : Image) :
  (forall filename image,
      filename ∈ map (path_append directory) (directory_listing directory) ->
      imread filename = Some image -> countable image) ->
  (forall filename,
      filename ∈ map (path_append directory) (directory_listing directory) ->
      clean_id filename) ->
  (forall r : string * list fp,
      r ∈ stored is_regular_file imread rg_values
            (map (path_append directory) (directory_listing directory)) ->
      Forall (printable show_float stof reread) r.2) ->
  imread targetImageFile = Some targetImage -> countable targetImage ->
  exists text : string,
    compute_histo_features_store.writeHistogramFeaturesToFile directory_listing
      is_regular_file imread show_float directory true
    = Returned (Some text) /\
    (open_file featureFile = Some text ->
     find_matcheshisto.main imread stof open_file targetImageFile
       "rg_histogram" featureFile numMatches
     = Returned
         (0, take (Z.to_nat numMatches)
               (std_sort pair_ltb
                  (rg_scores reread (rg_values targetImage)
                     (stored is_regular_file imread rg_values
                        (map (path_append directory)
                           (directory_listing directory))))))).
Proof.
  intros Himages Hclean Hprint Htarget Hct.
  set (filenames := map (path_append directory) (directory_listing directory))
    in *.
  eexists. split.
  - unfold compute_histo_features_store.writeHistogramFeaturesToFile.
    fold filenames.
    rewrite (rg_write_entries_text is_regular_file imread show_float
               filenames EmptyString Himages).
    reflexivity.
  - intros Hopen. cbn [String.append] in Hopen.
    unfold find_matcheshisto.main. rewrite Htarget. cbn [String.eqb Ascii.eqb].
    destruct (rg_values_counted targetImage Hct) as (counted & -> & Hval & _).
    cbn [bind]. rewrite <- Hval, Hopen.
    rewrite histo_score_lines_written.
    + cbn [bind]. rewrite print_top_take, Z.sub_0_r. reflexivity.
    + apply Forall_forall. intros r Hr. apply list_elem_of_In in Hr.
      split; [|apply Hprint; exact Hr].
      apply list_elem_of_In in Hr. unfold stored in Hr.
      apply in_flat_map in Hr as (filename & Hf & Hr).
      destruct (is_regular_file filename); [|contradiction].
      destruct (imread filename) as [image|]; [|contradiction].
      destruct Hr as [<-|[]]. apply Hclean, list_elem_of_In. exact Hf.
    + apply Forall_forall. intros r Hr. unfold stored in Hr.
      apply in_flat_map in Hr as (filename & Hf & Hr).
      destruct (is_regular_file filename); [|contradiction].
      destruct (imread filename) as [image|] eqn:E; [|contradiction].
      destruct Hr as [<-|[]]. cbn [snd].
      destruct (rg_values_counted image
                  (Himages filename image ltac:(apply list_elem_of_In; exact Hf) E))
        as (_ & _ & _ & Hlen & _).
      exact Hlen.
Qed.

End RgPipeline.

Lemma X24_witness :
  exists text : string,
    compute_histo_features_store.writeHistogramFeaturesToFile one_image_listing
      (fun _ => true) gray_imread show_float_g "olympus" true
    = Returned (Some text) /\
    (file_of
       (write_store show_float_g
          (stored (fun _ => true) gray_imread rg_values
             (map (path_append "olympus") (one_image_listing "olympus"))))
       "features.csv" = Some text ->
     find_matcheshisto.main gray_imread stof_decimal
       (file_of
          (write_store show_float_g
             (stored (fun _ => true) gray_imread rg_values
                (map (path_append "olympus") (one_image_listing "olympus")))))
       "olympus/pic.0001.jpg" "rg_histogram" "features.csv" 3
     = Returned
         (0, take (Z.to_nat 3)
               (std_sort pair_ltb
                  (rg_scores (fun x => x) (rg_values (uniform_image 9 9 gray))
                     (stored (fun _ => true) gray_imread rg_values
                        (map (path_append "olympus")
                           (one_image_listing "olympus"))))))).
Proof.
  apply (X24_rg_store_is_matched one_image_listing (fun _ => true) gray_imread
           show_float_g stof_decimal _ (fun x => x) "olympus"
           "olympus/pic.0001.jpg" "features.csv" 3 (uniform_image 9 9 gray)).
  - intros filename image _ [= <-].
    unfold countable, valid_image, INT_MAX. simpl. lia.
  - intros filename Hf. apply list_elem_of_singleton in Hf as ->.
    split; reflexivity.
  - intros r Hr. apply list_elem_of_singleton in Hr as ->.
    apply prints_exactly_all. vm_compute. reflexivity.
  - reflexivity.
  - unfold countable, valid_image, INT_MAX. simpl. lia.
Defined.

Example rg_pipeline_example :
  find_matcheshisto.main gray_imread stof_decimal
    (file_of
       (write_store show_float_g
          (stored (fun _ => true) gray_imread rg_values
             (map (path_append "olympus") (one_image_listing "olympus")))))
    "olympus/pic.0001.jpg" "rg_histogram" "features.csv" 3
  = Returned (0, [(fp_zero, "olympus/pic.0001.jpg"%string)]).
Proof. vm_compute. reflexivity. Qed.

(** ** From the multi-region extractor to the multi-region matcher *)

Lemma multi_score_lines_step (stof : string -> outcome fp)
    (topHist bottomHist : list fp) (inFile : string) :
  find_matchesmulti.score_lines stof topHist bottomHist inFile
  = match getline inFile newline with
    | None => Returned []
    | Some (line, inFile') =>
        do scored <- find_matchesmulti.score_line stof topHist bottomHist line;
        do distances <-
          find_matchesmulti.score_lines stof topHist bottomHist inFile';
        Returned (scored :: distances)
    end.
Proof.
  rewrite find_matchesmulti.score_lines_unfold_eq.
  unfold find_matchesmulti.score_lines_unfold.
  destruct (inspect (getline inFile newline)) as [[[line inFile']|] e];
    cbn; rewrite e; reflexivity.
Qed.

Section MultiPipeline.

Variable directory_listing : string -> list string.
Variable is_regular_file : string -> bool.
Variable imread : string -> option Image.
Variable show_float : fp -> string.
Variable stof : string -> outcome fp.
Variable open_file : string -> option string.
Variable reread : fp -> fp.

Lemma map_outcome_printed (values : list fp) :
  Forall (printable show_float stof reread) values ->
  map_outcome stof (map show_float values) = Returned (map reread values).
Proof.
  induction 1 as [|v values [_ Hv] _ IH]; [reflexivity|].
  cbn [map map_outcome]. rewrite Hv. cbn [bind]. rewrite IH. reflexivity.
Qed.

Lemma score_line_written (topHist bottomHist : list fp)
    (r : string * list fp) :
  storable show_float stof reread r -> length r.2 = 1024%nat ->
  find_matchesmulti.score_line stof topHist bottomHist
    (record_line show_float r)
  = Returned (multi_score topHist bottomHist (map reread r.2), r.1).
Proof.
  intros [[Hid _] Hp] Hlen. unfold record_line.
  rewrite <- (map_map show_float (String comma)).
  fold (fields_text (map show_float r.2)).
  rewrite score_line_values.
  - rewrite take_app_length' by (rewrite length_map; exact (eq_sym Hlen)).
    rewrite (map_outcome_printed r.2 Hp). reflexivity.
  - exact Hid.
  - apply Forall_map. eapply Forall_impl; [|exact Hp].
    intros v [(_ & Hc & _) _]. exact Hc.
Qed.

Lemma multi_score_lines_written (topHist bottomHist : list fp)
    (records : list (string * list fp)) :
  Forall (storable show_float stof reread) records ->
  Forall (fun r : string * list fp => length r.2 = 1024%nat) records ->
  find_matchesmulti.score_lines stof topHist bottomHist
    (write_store show_float records)
  = Returned (multi_scores reread topHist bottomHist records).
Proof.
  intros Hs. induction Hs as [|r records Hr _ IH]; intros Hl.
  - rewrite multi_score_lines_step. reflexivity.
  - inversion Hl as [|? ? Hlen Hl']; subst.
    unfold write_store. cbn [map join foldr].
    change (foldr String.append EmptyString ?l) with (join l).
    fold (write_store show_float records).
    rewrite write_record_line, multi_score_lines_step.
    rewrite (getline_app newline _ _
               (record_line_one_line show_float stof reread r Hr)).
    rewrite (score_line_written topHist bottomHist r Hr Hlen). cbn [bind].
    rewrite (IH Hl'). reflexivity.
Qed.

(** X25. The records that the extractor of compute_featuresmulti.cpp writes
    hold the 1024 values that the matcher of find_matchesmulti.cpp reads from
    every line.  For images of two rows or more (so that neither half is
    empty), with paths free of comma and line feed and values printed as text
    that [stof] reads: no stored value and no value of the target's two
    histograms is negative or NaN, and the matcher, run on that store, never
    converts a field twice, exits with status 0 and ranks, in descending
    order, one pair per stored record, scored on the values as they are read
    back. *)
Theorem X25_multi_store_is_matched (directory targetImageFile
    featureFile : string) (numMatches : Z) (targetImage : Image) :
  (forall filename image,
      filename ∈ map (path_append directory) (directory_listing directory) ->
      imread filename = Some image -> countable image /\ 2 <= rows image) ->
  (forall filename,
      filename ∈ map (path_append directory) (directory_listing directory) ->
      clean_id filename) ->
  (forall r : string * list fp,
      r ∈ stored is_regular_file imread multi_values
            (map (path_append directory) (directory_listing directory)) ->
      Forall (printable show_float stof reread) r.2) ->
  imread targetImageFile = Some targetImage -> countable targetImage ->
  2 <= rows targetImage ->
  exists text : string,
    compute_featuresmulti_store.writeHistogramFeaturesToFile directory_listing
      is_regular_file imread show_float directory true
    = Returned (Some text) /\
    Forall (fun r : string * list fp => Forall is_nonneg r.2)
      (stored is_regular_file imread multi_values
         (map (path_append directory) (directory_listing directory))) /\
    Forall is_nonneg (multi_values targetImage) /\
    (open_file featureFile = Some text ->
     find_matchesmulti.main imread stof open_file targetImageFile featureFile
       numMatches
     = Returned
         (0, take (Z.to_nat numMatches)
               (std_sort pair_gtb
                  (multi_scores reread
                     (half_values targetImage compute_featuresmulti.topHalf)
                     (half_values targetImage compute_featuresmulti.bottomHalf)
                     (stored is_regular_file imread multi_values
                        (map (path_append directory)
                           (directory_listing directory))))))).
Proof.
  intros Himages2 Hclean Hprint Htarget Hct Hrt.
  set (filenames := map (path_append directory) (directory_listing directory))
    in *.
  assert (Himages : forall filename image,
             filename ∈ filenames -> imread filename = Some image ->
             countable image).
  { intros filename image Hf E. apply (Himages2 filename image Hf E). }
  eexists. split; [|split; [|split]].
  - unfold compute_featuresmulti_store.writeHistogramFeaturesToFile.
    fold filenames.
    rewrite (multi_write_entries_text is_regular_file imread show_float
               filenames EmptyString Himages).
    reflexivity.
  - apply Forall_forall. intros r Hr. unfold stored in Hr.
    apply in_flat_map in Hr as (filename & Hf & Hr).
    destruct (is_regular_file filename); [|contradiction].
    destruct (imread filename) as [image|] eqn:E; [|contradiction].
    destruct Hr as [<-|[]]. cbn [snd].
    apply list_elem_of_In in Hf.
    destruct (Himages2 filename image Hf E) as [Hc Hrows].
    destruct (multi_values_counted image Hc)
      as (_ & _ & _ & _ & _ & _ & _ & _ & Hp & _).
    apply (Hp Hrows).
  - destruct (multi_values_counted targetImage Hct)
      as (_ & _ & _ & _ & _ & _ & _ & _ & Hp & _).
    apply (Hp Hrt).
  - intros Hopen. cbn [String.append] in Hopen.
    unfold find_matchesmulti.main. rewrite Htarget.
    destruct (multi_values_counted targetImage Hct)
      as (t & b & -> & -> & Htv & Hbv & _).
    cbn [bind]. rewrite <- Htv, <- Hbv, Hopen.
    rewrite multi_score_lines_written.
    + cbn [bind]. rewrite print_top_take, Z.sub_0_r. reflexivity.
    + apply Forall_forall. intros r Hr. apply list_elem_of_In in Hr.
      split; [|apply Hprint; exact Hr].
      apply list_elem_of_In in Hr. unfold stored in Hr.
      apply in_flat_map in Hr as (filename & Hf & Hr).
      destruct (is_regular_file filename); [|contradiction].
      destruct (imread filename) as [image|]; [|contradiction].
      destruct Hr as [<-|[]]. apply Hclean, list_elem_of_In. exact Hf.
    + apply Forall_forall. intros r Hr. unfold stored in Hr.
      apply in_flat_map in Hr as (filename & Hf & Hr).
      destruct (is_regular_file filename); [|contradiction].
      destruct (imread filename) as [image|] eqn:E; [|contradiction].
      destruct Hr as [<-|[]]. cbn [snd].
      destruct (multi_values_counted image
                  (Himages filename image ltac:(apply list_elem_of_In; exact Hf) E))
        as (_ & _ & _ & _ & _ & _ & Htl & Hbl & _).
      unfold multi_values. rewrite length_app, Htl, Hbl. reflexivity.
Qed.

End MultiPipeline.

Lemma X25_witness :
  exists text : string,
    compute_featuresmulti_store.writeHistogramFeaturesToFile one_image_listing
      (fun _ => true) gray_imread show_float_g "olympus" true
    = Returned (Some text) /\
    Forall (fun r : string * list fp => Forall is_nonneg r.2)
      (stored (fun _ => true) gray_imread multi_values
         (map (path_append "olympus") (one_image_listing "olympus"))) /\
    Forall is_nonneg (multi_values (uniform_image 9 9 gray)) /\
    (file_of
       (write_store show_float_g
          (stored (fun _ => true) gray_imread multi_values
             (map (path_append "olympus") (one_image_listing "olympus"))))
       "features.csv" = Some text ->
     find_matchesmulti.main gray_imread stof_decimal
       (file_of
          (write_store show_float_g
             (stored (fun _ => true) gray_imread multi_values
                (map (path_append "olympus") (one_image_listing "olympus")))))
       "olympus/pic.0001.jpg" "features.csv" 3
     = Returned
         (0, take (Z.to_nat 3)
               (std_sort pair_gtb
                  (multi_scores (fun x => x)
                     (half_values (uniform_image 9 9 gray)
                        compute_featuresmulti.topHalf)
                     (half_values (uniform_image 9 9 gray)
                        compute_featuresmulti.bottomHalf)
                     (stored (fun _ => true) gray_imread multi_values
                        (map (path_append "olympus")
                           (one_image_listing "olympus"))))))).
Proof.
  apply (X25_multi_store_is_matched one_image_listing (fun _ => true)
           gray_imread show_float_g stof_decimal _ (fun x => x) "olympus"
           "olympus/pic.0001.jpg" "features.csv" 3 (uniform_image 9 9 gray)).
  - intros filename image _ [= <-].
    unfold countable, valid_image, INT_MAX. simpl. lia.
  - intros filename Hf. apply list_elem_of_singleton in Hf as ->.
    split; reflexivity.
  - intros r Hr. apply list_elem_of_singleton in Hr as ->.
    apply prints_exactly_all. vm_compute. reflexivity.
  - reflexivity.
  - unfold countable, valid_image, INT_MAX. simpl. lia.
  - simpl. lia.
Defined.

Example multi_pipeline_example :
  find_matchesmulti.main gray_imread stof_decimal
    (file_of
       (write_store show_float_g
          (stored (fun _ => true) gray_imread multi_values
             (map (path_append "olympus") (one_image_listing "olympus")))))
    "olympus/pic.0001.jpg" "features.csv" 3
  = Returned (0, [(fp_one, "olympus/pic.0001.jpg"%string)]).
Proof.
  assert (exists d : fp,
             find_matchesmulti.main gray_imread stof_decimal
               (file_of
                  (write_store show_float_g
                     (stored (fun _ => true) gray_imread multi_values
                        (map (path_append "olympus")
                           (one_image_listing "olympus")))))
               "olympus/pic.0001.jpg" "features.csv" 3
             = Returned (0, [(d, "olympus/pic.0001.jpg"%string)]) /\
             fp_same d fp_one = true) as (d & -> & Hd).
  { eexists. split; vm_compute; reflexivity. }
  apply fp_same_eq in Hd. rewrite Hd. reflexivity.
Qed.

(** ** The normalizer in the arithmetic of the code *)

(** ** Rounding *)

Lemma round_half_even_near (n d : Z) :
  0 < d ->
  2 * n - d <= 2 * d * round_half_even n d <= 2 * n + d.
Proof.
  intros Hd. unfold round_half_even.
  pose proof (Z.div_mod n d ltac:(lia)) as E.
  pose proof (Z.mod_pos_bound n d Hd) as Hr.
  destruct (Z.ltb_spec (2 * (n mod d)) d).
  - nia.
  - destruct (Z.ltb_spec d (2 * (n mod d))).
    + nia.
    + destruct (Z.even (n / d)); nia.
Qed.

Lemma round_half_even_exact (n d k : Z) :
  0 < d -> n = k * d -> round_half_even n d = k.
Proof.
  intros Hd ->. unfold round_half_even.
  rewrite Z.div_mul, Z.mod_mul by lia.
  destruct (Z.ltb_spec (2 * 0) d); [reflexivity|lia].
Qed.

(** The integer nearest to a rational is within one half of it. *)
Lemma nearest_integer (m : Q) :
  (m - (1 # 2) <= inject_Z (round_half_even (Qnum m) (QDen m)) <= m + (1 # 2))%Q.
Proof.
  destruct m as [n d]. cbn [Qnum Qden].
  pose proof (round_half_even_near n (Zpos d) ltac:(lia)) as H.
  unfold Qle, Qminus, Qplus, Qopp, inject_Z. cbn [Qnum Qden].
  split; nia.
Qed.













Lemma Qred_of_Z (k : Z) : Qred (inject_Z k) = inject_Z k.
Proof. apply Qred_identity. cbn. apply Z.gcd_1_r. Qed.











Lemma normalize_counts_quotients (hist : list Z) :
  0 < hist_sum hist ->
  normalizeHistogram (counts hist)
  = map (fun c => FNum (quotient c (hist_sum hist))) hist.
Proof.
  intros HS. rewrite counts_values, normalize_values.
  - rewrite Qc_sum_counts, !map_map. reflexivity.
  - rewrite Qc_sum_counts. apply Qc_of_Z_pos. exact HS.
Qed.







(** The rounding above agrees with the floats of the standard library:
    quotients rounded to double, and from double to float, among them
    subnormal floats and the largest ones. *)
Example rounded_as_spec_float :
  forallb (fun p : Z * Z =>
             fp_same (Rounded.double_of (fp_div (fp_of_Z p.1) (fp_of_Z p.2)))
               (spec_float_value
                  (Binary32.double_div (Binary32.double_of_Z p.1)
                     (Binary32.double_of_Z p.2)))
             && fp_same
                  (Rounded.float_of
                     (Rounded.double_of (fp_div (fp_of_Z p.1) (fp_of_Z p.2))))
                  (spec_float_value
                     (Binary32.of_double
                        (Binary32.double_div (Binary32.double_of_Z p.1)
                           (Binary32.double_of_Z p.2)))))
    [(1, 3); (2, 3); (1, 10); (7, 1); (16777217, 1); (16777219, 1);
     (33554434, 1); (1, 16777216); (5, 7); (-5, 7); (1, 255); (100, 147);
     (1, 2 ^ 130); (3, 2 ^ 140); (1, 2 ^ 149); (1, 2 ^ 150); (3, 2 ^ 151);
     (1, 2 ^ 151); (2 ^ 127, 1); (2 ^ 128 - 1, 1); (2 ^ 128 - 2 ^ 103, 1);
     (2 ^ 128 - 2 ^ 104, 1); (2 ^ 128 - 2 ^ 103 - 1, 1); (0, 1);
     (1, 3 * 2 ^ 134)]
  = true.
Proof. vm_compute. reflexivity. Qed.

(** The float product of the normalizer, as the standard library computes
    it: a count times the factor for a sum of 3, of 147 and of 9 * 9. *)
Example scaled_cell_as_spec_float :
  forallb (fun p : Z * Z =>
             fp_same
               (Rounded.float_of
                  (fp_mul (fp_of_Z p.1)
                     (Rounded.float_of
                        (Rounded.double_of (fp_div fp_one (fp_of_Z p.2))))))
               (spec_float_value
                  (Binary32.mul (Binary32.of_Z p.1)
                     (Binary32.of_double
                        (Binary32.double_div (Binary32.double_of_Z 1)
                           (Binary32.double_of_Z p.2))))))
    [(1, 3); (2, 3); (3, 3); (100, 147); (47, 147); (81, 81); (40, 81);
     (16777216, 16777216); (1, 16777216); (12345, 4194304)]
  = true.
Proof. vm_compute. reflexivity. Qed.

(** ** Decimal text: what is printed is read back *)

Lemma stof_decimal_unfold (s : string) :
  stof_decimal s
  = parse_unsigned (take_sign (skip_spaces s)).1 (take_sign (skip_spaces s)).2.
Proof.
  unfold stof_decimal, parse_unsigned.
  destruct (take_sign (skip_spaces s)) as [negative s1]. reflexivity.
Qed.

Lemma digit_cases (a : Z) :
  digit a ->
  a = 0 \/ a = 1 \/ a = 2 \/ a = 3 \/ a = 4 \/ a = 5 \/ a = 6 \/ a = 7 \/
  a = 8 \/ a = 9.
Proof. unfold digit. lia. Qed.

Ltac digit_case H :=
  apply digit_cases in H;
  destruct H as [->|[->|[->|[->|[->|[->|[->|[->|[->| ->]]]]]]]]].

Lemma digit_char_is_digit (a : Z) :
  digit a -> is_digit (digit_char a) = true /\ digit_value (digit_char a) = a.
Proof. intros H. digit_case H; split; reflexivity. Qed.

Lemma digits_value_from (ds : list Z) (acc : Z) :
  foldl (fun v a => 10 * v + a) acc ds
  = acc * 10 ^ Z.of_nat (length ds) + digits_value ds.
Proof.
  unfold digits_value. revert acc. induction ds as [|a ds IH]; intros acc.
  - cbn. lia.
  - cbn [foldl length]. rewrite IH, (IH (10 * 0 + a)).
    rewrite Nat2Z.inj_succ, Z.pow_succ_r by lia. ring.
Qed.

Lemma digits_value_app (ds es : list Z) :
  digits_value (ds ++ es)
  = digits_value ds * 10 ^ Z.of_nat (length es) + digits_value es.
Proof.
  unfold digits_value at 1. rewrite foldl_app.
  fold (digits_value ds). apply digits_value_from.
Qed.

Lemma digits_string_app (ds es : list Z) :
  digits_string (ds ++ es) = (digits_string ds ++ digits_string es)%string.
Proof.
  induction ds as [|a ds IH]; [reflexivity|].
  cbn [app digits_string foldr String.append]. f_equal. exact IH.
Qed.

Lemma take_digits_string (ds : list Z) (rest : string) (acc : Z) (count : nat) :
  Forall digit ds -> no_digit_ahead rest ->
  take_digits (digits_string ds ++ rest) acc count
  = (foldl (fun v a => 10 * v + a) acc ds, (count + length ds)%nat, rest).
Proof.
  intros Hds Hrest. revert acc count.
  induction Hds as [|a ds Ha _ IH]; intros acc count.
  - cbn [digits_string foldr String.append foldl length].
    rewrite Nat.add_0_r. destruct rest as [|c rest]; [reflexivity|].
    cbn [take_digits]. cbn in Hrest. rewrite Hrest. reflexivity.
  - cbn [digits_string foldr String.append take_digits foldl length].
    destruct (digit_char_is_digit a Ha) as [-> ->].
    fold (digits_string ds). rewrite IH. f_equal. f_equal. lia.
Qed.

Lemma prefix_before_digit (x : ascii) (p : string) (a : Z) (s : string) :
  digit a -> is_digit x = false ->
  String.prefix (String x p) (String (digit_char a) s) = false.
Proof.
  intros Ha Hx. cbn [String.prefix].
  destruct (ascii_dec x (digit_char a)) as [->|]; [|reflexivity].
  destruct (digit_char_is_digit a Ha) as [E _]. congruence.
Qed.

Lemma no_digit_ahead_tail (F : list Z) (E : option (bool * list Z)) :
  no_digit_ahead (point_part F ++ exponent_part E).
Proof.
  destruct F as [|a F]; [|reflexivity].
  destruct E as [[negative ds]|]; reflexivity.
Qed.

Lemma no_digit_ahead_exponent (E : option (bool * list Z)) :
  no_digit_ahead (exponent_part E).
Proof. destruct E as [[negative ds]|]; reflexivity. Qed.

(** The exponent that [stof_decimal] reads after the digits. *)
Lemma exponent_read (E : option (bool * list Z)) :
  match E with
  | Some (_, ds) => Forall digit ds /\ ds <> []
  | None => True
  end ->
  match exponent_part E with
  | String c s3' =>
      if Ascii.eqb c "e"%char || Ascii.eqb c "E"%char then
        let '(eneg, s4) := take_sign s3' in
        let '(e, ecount, _) := take_digits s4 0 0 in
        if Nat.eqb ecount 0 then 0 else if eneg then - e else e
      else 0
  | EmptyString => 0
  end = exponent_value E.
Proof.
  destruct E as [[negative ds]|]; [|reflexivity]. intros [Hds Hne].
  cbn [exponent_part exponent_value]. cbn [Ascii.eqb Bool.eqb orb andb].
  assert (Et : take_sign (String (if negative then "-"%char else "+"%char)
                            (digits_string ds))
               = (negative, digits_string ds)).
  { destruct negative; reflexivity. }
  rewrite Et. cbv beta iota.
  rewrite <- (string_app_nil_r (digits_string ds)).
  rewrite (take_digits_string ds EmptyString 0 0 Hds I). cbv beta iota.
  destruct ds as [|a ds]; [contradiction|]. cbn [length Nat.add Nat.eqb].
  reflexivity.
Qed.

(** A numeral is read as its value. *)
Lemma parse_numeral (negative : bool) (I F : list Z)
    (E : option (bool * list Z)) :
  Forall digit I -> I <> [] -> Forall digit F ->
  match E with
  | Some (_, ds) => Forall digit ds /\ ds <> []
  | None => True
  end ->
  parse_unsigned negative
    (digits_string I ++ point_part F ++ exponent_part E)
  = Returned
      (FNum (if negative
             then (- scale10 (digits_value (I ++ F))
                       (exponent_value E - Z.of_nat (length F)))%Qc
             else scale10 (digits_value (I ++ F))
                    (exponent_value E - Z.of_nat (length F)))).
Proof.
  intros HI Hne HF HE. unfold parse_unsigned.
  destruct I as [|a I]; [contradiction|].
  inversion HI as [|? ? Ha HI']; subst.
  assert (Hinf : String.prefix "inf"
                   (digits_string (a :: I) ++ point_part F ++ exponent_part E)
                 = false) by (apply prefix_before_digit; [exact Ha|reflexivity]).
  assert (Hnan : String.prefix "nan"
                   (digits_string (a :: I) ++ point_part F ++ exponent_part E)
                 = false) by (apply prefix_before_digit; [exact Ha|reflexivity]).
  rewrite Hinf, Hnan.
  rewrite (take_digits_string (a :: I) _ 0 0 HI (no_digit_ahead_tail F E)).
  cbv beta iota.
  destruct F as [|b F].
  - cbn [point_part String.append].
    assert (Es2 : match exponent_part E with
                  | String "."%char s2' =>
                      let '(v, k, r) :=
                        take_digits s2'
                          (foldl (fun v a => 10 * v + a) 0 (a :: I)) 0 in
                      (v, k, r)
                  | _ => (foldl (fun v a => 10 * v + a) 0 (a :: I), 0%nat,
                          exponent_part E)
                  end
                  = (foldl (fun v a => 10 * v + a) 0 (a :: I), 0%nat,
                     exponent_part E)).
    { destruct E as [[neg ds]|]; reflexivity. }
    rewrite Es2. cbv beta iota. cbn [length Nat.add Nat.eqb].
    rewrite (exponent_read E HE). rewrite app_nil_r. reflexivity.
  - cbn [point_part String.append].
    rewrite (take_digits_string (b :: F) _ _ 0 HF (no_digit_ahead_exponent E)).
    cbv beta iota. cbn [length Nat.add Nat.eqb].
    rewrite (exponent_read E HE).
    rewrite <- foldl_app. reflexivity.
Qed.

Lemma digit_char_zero (a : Z) :
  digit a -> Ascii.eqb (digit_char a) "0"%char = true <-> a = 0.
Proof. intros H. digit_case H; cbn; split; (reflexivity || discriminate || lia). Qed.

(** Stripping the zeros that end a text of digits. *)
Lemma strip_zeros_digits (F : list Z) :
  Forall digit F ->
  exists (F' : list Z) (z : nat),
    F = F' ++ replicate z 0 /\
    Forall digit F' /\
    strip_zeros (digits_string F) = digits_string F'.
Proof.
  induction 1 as [|a F Ha HF (F' & z & -> & HF' & E)].
  - exists [], 0%nat. repeat split; constructor.
  - cbn [digits_string foldr strip_zeros].
    fold (digits_string (F' ++ replicate z 0)). rewrite E.
    destruct F' as [|b F'].
    + cbn [digits_string foldr].
      destruct (Ascii.eqb (digit_char a) "0"%char) eqn:Ea.
      * apply (digit_char_zero a Ha) in Ea as ->.
        exists [], (S z). repeat split; constructor.
      * exists [a], z. split; [reflexivity|].
        split; [constructor; [exact Ha|constructor]|reflexivity].
    + exists (a :: b :: F'), z. split; [reflexivity|].
      split; [constructor; assumption|reflexivity].
Qed.

Lemma with_point_digits (int_part : string) (F : list Z) :
  Forall digit F ->
  exists (F' : list Z) (z : nat),
    F = F' ++ replicate z 0 /\
    Forall digit F' /\
    with_point int_part (digits_string F) = (int_part ++ point_part F')%string.
Proof.
  intros HF. destruct (strip_zeros_digits F HF) as (F' & z & EF & HF' & E).
  exists F', z. split; [exact EF|]. split; [exact HF'|].
  unfold with_point. rewrite E. destruct F' as [|b F'].
  - cbn. rewrite string_app_nil_r. reflexivity.
  - reflexivity.
Qed.

Lemma digits_value_zeros (z : nat) : digits_value (replicate z 0) = 0.
Proof.
  unfold digits_value. induction z as [|z IH]; [reflexivity|].
  cbn [replicate foldl]. exact IH.
Qed.

Lemma digits_value_stripped (ds : list Z) (z : nat) :
  digits_value (ds ++ replicate z 0) = digits_value ds * 10 ^ Z.of_nat z.
Proof.
  rewrite digits_value_app, digits_value_zeros, length_replicate. lia.
Qed.

Lemma substring_digits (ds : list Z) (k len : nat) :
  substring k len (digits_string ds) = digits_string (take len (drop k ds)).
Proof.
  revert k len. induction ds as [|a ds IH]; intros k len.
  - destruct k, len; reflexivity.
  - destruct k as [|k].
    + destruct len as [|len]; [reflexivity|].
      cbn [digits_string foldr substring drop take]. f_equal.
      apply (IH 0%nat len).
    + cbn [digits_string foldr substring drop]. apply IH.
Qed.

Lemma zeros_digits (k : nat) : zeros k = digits_string (replicate k 0).
Proof. induction k as [|k IH]; [reflexivity|]. cbn. f_equal. exact IH. Qed.

(** The decimal digits of a positive integer: no more of them than needed. *)
Lemma digits_before_spec (fuel : nat) (n : Z) (acc : string) :
  1 <= n < 10 ^ Z.of_nat fuel ->
  exists ds : list Z,
    digits_before fuel n acc = (digits_string ds ++ acc)%string /\
    Forall digit ds /\
    digits_value ds = n /\
    10 ^ (Z.of_nat (length ds) - 1) <= n < 10 ^ Z.of_nat (length ds).
Proof.
  revert n acc. induction fuel as [|fuel IH]; intros n acc Hn.
  - cbn in Hn. lia.
  - cbn [digits_before].
    assert (Hmod : digit (n mod 10)).
    { unfold digit. pose proof (Z.mod_pos_bound n 10 ltac:(lia)). lia. }
    destruct (Z.ltb_spec n 10) as [Hlt|Hge].
    + exists [n]. rewrite Z.mod_small by lia.
      split; [reflexivity|].
      split; [constructor; [unfold digit; lia|constructor]|].
      split; [cbn; lia|]. cbn. lia.
    + rewrite Nat2Z.inj_succ, Z.pow_succ_r in Hn by lia.
      pose proof (Z.div_mod n 10 ltac:(lia)) as Ediv.
      destruct (IH (n / 10) (String (digit_char (n mod 10)) acc))
        as (ds & E & Hds & Hval & Hlo & Hhi).
      { split; [apply Z.div_le_lower_bound; lia|].
        apply Z.div_lt_upper_bound; lia. }
      exists (ds ++ [n mod 10]). split; [|split; [|split]].
      * rewrite E, digits_string_app, string_app_assoc. reflexivity.
      * apply Forall_app.
        split; [exact Hds|constructor; [exact Hmod|constructor]].
      * rewrite digits_value_app, Hval. cbn. lia.
      * rewrite length_app. cbn [length].
        replace (Z.of_nat (length ds + 1)) with (Z.of_nat (length ds) + 1)
          by lia.
        replace (Z.of_nat (length ds) + 1 - 1)
          with (Z.succ (Z.of_nat (length ds) - 1)) by lia.
        assert (Hq : 1 <= n / 10) by (apply Z.div_le_lower_bound; lia).
        assert (0 <= Z.of_nat (length ds) - 1).
        { destruct ds as [|b ds]; [|cbn [length]; lia].
          change (digits_value []) with 0 in Hval. lia. }
        unfold digit in Hmod.
        rewrite Z.pow_succ_r by lia.
        rewrite Z.pow_add_r by lia. change (10 ^ 1) with 10. lia.
Qed.

Lemma decimal_spec (n : Z) :
  1 <= n ->
  exists ds : list Z,
    decimal n = digits_string ds /\
    Forall digit ds /\
    digits_value ds = n /\
    10 ^ (Z.of_nat (length ds) - 1) <= n < 10 ^ Z.of_nat (length ds).
Proof.
  intros Hn. unfold decimal.
  destruct (digits_before_spec (S (Z.to_nat (Z.log2 n))) n EmptyString)
    as (ds & E & H).
  - split; [exact Hn|].
    pose proof (Z.log2_spec n ltac:(lia)) as [_ Hlog].
    pose proof (Z.log2_nonneg n).
    rewrite Nat2Z.inj_succ, Z2Nat.id by lia.
    eapply Z.lt_le_trans; [exact Hlog|].
    apply Z.pow_le_mono_l. lia.
  - exists ds. rewrite E, string_app_nil_r. split; [reflexivity|exact H].
Qed.

Lemma six_digits_length (m : Z) (ds : list Z) :
  100000 <= m < 1000000 ->
  10 ^ (Z.of_nat (length ds) - 1) <= m < 10 ^ Z.of_nat (length ds) ->
  length ds = 6%nat.
Proof.
  intros Hm [Hlo Hhi].
  destruct (Z.lt_trichotomy (Z.of_nat (length ds)) 6) as [H|[H|H]].
  - assert (10 ^ Z.of_nat (length ds) <= 10 ^ 5)
      by (apply Z.pow_le_mono_r; lia).
    change (10 ^ 5) with 100000 in *. lia.
  - lia.
  - assert (10 ^ 6 <= 10 ^ (Z.of_nat (length ds) - 1))
      by (apply Z.pow_le_mono_r; lia).
    change (10 ^ 6) with 1000000 in *. lia.
Qed.

Lemma fits10_test (n d x : Z) :
  (if 0 <=? x then 10 ^ x * d <=? n else d <=? 10 ^ (- x) * n) = true
  <-> fits10 n d x.
Proof. unfold fits10. destruct (0 <=? x); apply Z.leb_le. Qed.

Lemma exponent_down_spec (f : nat) (n d x : Z) :
  ~ fits10 n d (x + 1) -> fits10 n d (x - Z.of_nat f) ->
  fits10 n d (exponent_down (S f) n d x) /\
  ~ fits10 n d (exponent_down (S f) n d x + 1).
Proof.
  revert x. induction f as [|f IH]; intros x Hhigh Hlow.
  - cbn [exponent_down]. rewrite Z.sub_0_r in Hlow.
    rewrite (proj2 (fits10_test n d x) Hlow). split; assumption.
  - cbn [exponent_down] in *.
    destruct (if 0 <=? x then 10 ^ x * d <=? n else d <=? 10 ^ (- x) * n)
      eqn:E.
    + apply fits10_test in E. split; assumption.
    + apply IH.
      * replace (x - 1 + 1) with x by lia. intros H.
        apply fits10_test in H. congruence.
      * replace (x - 1 - Z.of_nat f) with (x - Z.of_nat (S f)) by lia.
        exact Hlow.
Qed.

Lemma pow10_pos (k : Z) : 0 <= k -> 0 < 10 ^ k.
Proof. intros H. apply Z.pow_pos_nonneg; lia. Qed.

Lemma pow2_le_pow10 (k : Z) : 0 <= k -> 2 ^ k <= 10 ^ k.
Proof. intros H. apply Z.pow_le_mono_l. lia. Qed.

(** [decimal_exponent n d] is the integer part of the decimal logarithm. *)
Lemma decimal_exponent_spec (n d : Z) :
  0 < n -> 0 < d ->
  fits10 n d (decimal_exponent n d) /\
  ~ fits10 n d (decimal_exponent n d + 1).
Proof.
  intros Hn Hd. unfold decimal_exponent.
  pose proof (Z.log2_spec n Hn) as [_ Hn2].
  pose proof (Z.log2_spec d Hd) as [_ Hd2].
  pose proof (Z.log2_nonneg n) as Hln. pose proof (Z.log2_nonneg d) as Hld.
  unfold Z.succ in *.
  set (ln := Z.log2 n) in *. set (ld := Z.log2 d) in *.
  apply exponent_down_spec.
  - unfold fits10. replace (0 <=? ln + 1 + 1) with true
      by (symmetry; apply Z.leb_le; lia).
    pose proof (pow2_le_pow10 (ln + 1) ltac:(lia)).
    replace (ln + 1 + 1) with (Z.succ (ln + 1)) by lia.
    rewrite Z.pow_succ_r by lia. nia.
  - rewrite Z2Nat.id by lia.
    replace (ln + 1 - (ln + ld + 2)) with (- (ld + 1)) by lia.
    unfold fits10. replace (0 <=? - (ld + 1)) with false
      by (symmetry; apply Z.leb_gt; lia).
    rewrite Z.opp_involutive.
    pose proof (pow2_le_pow10 (ld + 1) ltac:(lia)). nia.
Qed.

(** The quotient that is rounded to six digits lies between 10^5 and 10^6. *)
Lemma scaled_range (n d x : Z) :
  0 < n -> 0 < d -> fits10 n d x -> ~ fits10 n d (x + 1) ->
  (x <= 5 ->
   100000 * d <= n * 10 ^ (5 - x) < 1000000 * d) /\
  (5 < x ->
   100000 * (d * 10 ^ (x - 5)) <= n < 1000000 * (d * 10 ^ (x - 5))).
Proof.
  intros Hn Hd Hfit Hnot. unfold fits10 in *. split; intros Hx.
  - destruct (Z.leb_spec 0 x) as [H0|H0].
    + replace (0 <=? x + 1) with true in Hnot
        by (symmetry; apply Z.leb_le; lia).
      rewrite Z.pow_add_r in Hnot by lia. change (10 ^ 1) with 10 in Hnot.
      assert (E : 10 ^ x * 10 ^ (5 - x) = 100000).
      { rewrite <- Z.pow_add_r by lia. replace (x + (5 - x)) with 5 by lia.
        reflexivity. }
      pose proof (pow10_pos x H0). pose proof (pow10_pos (5 - x) ltac:(lia)).
      nia.
    + assert (E : 10 ^ (5 - x) = 100000 * 10 ^ (- x)).
      { replace (5 - x) with (5 + - x) by lia.
        rewrite Z.pow_add_r by lia. reflexivity. }
      pose proof (pow10_pos (- x) ltac:(lia)).
      destruct (Z.leb_spec 0 (x + 1)) as [H1|H1].
      * assert (x = -1) as -> by lia. cbn in Hfit, Hnot, E |- *. nia.
      * assert (E' : 10 ^ (- x) = 10 * 10 ^ (- (x + 1))).
        { replace (- x) with (Z.succ (- (x + 1))) by lia.
          rewrite Z.pow_succ_r by lia. reflexivity. }
        pose proof (pow10_pos (- (x + 1)) ltac:(lia)). nia.
  - replace (0 <=? x) with true in Hfit by (symmetry; apply Z.leb_le; lia).
    replace (0 <=? x + 1) with true in Hnot by (symmetry; apply Z.leb_le; lia).
    rewrite Z.pow_add_r in Hnot by lia. change (10 ^ 1) with 10 in Hnot.
    assert (E : 10 ^ x = 100000 * 10 ^ (x - 5)).
    { replace x with (5 + (x - 5)) at 1 by lia.
      rewrite Z.pow_add_r by lia. reflexivity. }
    pose proof (pow10_pos (x - 5) ltac:(lia)). nia.
Qed.

Lemma rounded_range (N D : Z) :
  0 < D -> 100000 * D <= N < 1000000 * D ->
  100000 <= round_half_even N D <= 1000000.
Proof.
  intros HD HN. pose proof (round_half_even_near N D HD). nia.
Qed.

Lemma digits_value_leading_zeros (k : nat) (ds : list Z) :
  digits_value (replicate k 0 ++ ds) = digits_value ds.
Proof. rewrite digits_value_app, digits_value_zeros. lia. Qed.

Lemma digit_zeros (k : nat) : Forall digit (replicate k 0).
Proof. apply Forall_forall. intros a Ha. apply list_elem_of_In in Ha.
  apply elem_of_replicate in Ha as [-> _]. unfold digit. lia. Qed.

(** The exponent of the scientific notation: a sign and two digits or more. *)
Lemma exponent_text (x : Z) :
  x <> 0 ->
  exists ds : list Z,
    String "e"%char
      (String (if x <? 0 then "-"%char else "+"%char)
         (if Z.abs x <? 10 then String "0"%char (decimal (Z.abs x))
          else decimal (Z.abs x)))
    = exponent_part (Some (x <? 0, ds)) /\
    Forall digit ds /\ ds <> [] /\
    exponent_value (Some (x <? 0, ds)) = x.
Proof.
  intros Hx. destruct (decimal_spec (Z.abs x) ltac:(lia))
    as (ds & E & Hds & Hval & _).
  rewrite E.
  exists (if Z.abs x <? 10 then 0 :: ds else ds).
  assert (Hne : ds <> []).
  { intros ->. change (digits_value []) with 0 in Hval. lia. }
  destruct (Z.abs x <? 10).
  - split; [reflexivity|].
    split; [constructor; [unfold digit; lia|exact Hds]|].
    split; [discriminate|]. cbn [exponent_value].
    change (0 :: ds) with (replicate 1 0 ++ ds).
    rewrite digits_value_leading_zeros, Hval.
    destruct (Z.ltb_spec x 0); lia.
  - split; [reflexivity|]. split; [exact Hds|]. split; [exact Hne|].
    cbn [exponent_value]. rewrite Hval. destruct (Z.ltb_spec x 0); lia.
Qed.

(** The text printed for [n / d > 0] is a numeral of six significant digits
    at most: digits, a fractional part without final zeros, and an exponent
    in the scientific notation.  [m] holds the six digits and [x] is the
    decimal exponent of the first. *)
Lemma show_positive_numeral (n d : Z) :
  0 < n -> 0 < d ->
  exists (m x : Z) (I F : list Z) (E : option (bool * list Z)) (z : nat),
    show_positive n d
    = (digits_string I ++ point_part F ++ exponent_part E)%string /\
    Forall digit I /\ I <> [] /\ Forall digit F /\
    match E with
    | Some (_, ds) => Forall digit ds /\ ds <> []
    | None => True
    end /\
    digits_value (I ++ F) * 10 ^ Z.of_nat z = m /\
    exponent_value E - Z.of_nat (length F) = x - 5 + Z.of_nat z /\
    100000 <= m < 1000000 /\
    let x0 := decimal_exponent n d in
    let m0 := if x0 <=? 5 then round_half_even (n * 10 ^ (5 - x0)) d
              else round_half_even n (d * 10 ^ (x0 - 5)) in
    (m = m0 /\ x = x0) \/ (m0 = 1000000 /\ m = 100000 /\ x = x0 + 1).
Proof.
  intros Hn Hd. unfold show_positive.
  destruct (decimal_exponent_spec n d Hn Hd) as [Hfit Hnot].
  set (x0 := decimal_exponent n d) in *.
  destruct (scaled_range n d x0 Hn Hd Hfit Hnot) as [Hsmall Hlarge].
  set (m0 := if x0 <=? 5 then round_half_even (n * 10 ^ (5 - x0)) d
             else round_half_even n (d * 10 ^ (x0 - 5))).
  assert (Hm0 : 100000 <= m0 <= 1000000).
  { unfold m0. destruct (Z.leb_spec x0 5) as [H5|H5].
    - apply rounded_range; [exact Hd|apply Hsmall; exact H5].
    - pose proof (pow10_pos (x0 - 5) ltac:(lia)).
      apply rounded_range; [nia|apply Hlarge; exact H5]. }
  set (mx := if m0 =? 1000000 then (100000, x0 + 1) else (m0, x0)).
  assert (Hmx : exists m x, mx = (m, x) /\ 100000 <= m < 1000000 /\
                  ((m = m0 /\ x = x0) \/
                   (m0 = 1000000 /\ m = 100000 /\ x = x0 + 1))).
  { unfold mx. destruct (Z.eqb_spec m0 1000000) as [E|E].
    - exists 100000, (x0 + 1). split; [reflexivity|]. split; [lia|].
      right. auto.
    - exists m0, x0. split; [reflexivity|]. split; [lia|]. left. auto. }
  destruct Hmx as (m & x & -> & Hm & Hrel).
  destruct (decimal_spec m ltac:(lia)) as (ds & -> & Hds & Hval & Hlen).
  pose proof (six_digits_length m ds Hm Hlen) as Hsix.
  exists m, x.
  destruct ((x <? -4) || (6 <=? x)) eqn:Esci.
  - (* scientific notation *)
    rewrite !substring_digits, ?drop_0.
    destruct (with_point_digits (digits_string (take 1 ds))
                (take 5 (drop 1 ds))) as (F & z & EF & HF & ->).
    { apply Forall_take, Forall_drop. exact Hds. }
    cbv zeta.
    destruct (exponent_text x) as (eds & -> & Heds & Hene & Hex).
    { intros ->. discriminate. }
    exists (take 1 ds), F, (Some (x <? 0, eds)), z.
    split; [apply string_app_assoc|].
    split; [apply Forall_take; exact Hds|].
    split; [destruct ds; [discriminate|discriminate]|].
    split; [exact HF|]. split; [split; assumption|].
    assert (Eall : take 1 ds ++ F ++ replicate z 0 = ds).
    { rewrite <- EF. rewrite (take_ge (drop _ ds)); [apply take_drop|].
      rewrite length_drop. lia. }
    split.
    { rewrite <- digits_value_stripped, <- app_assoc, Eall. exact Hval. }
    split; [|split; [exact Hm|exact Hrel]].
    rewrite Hex. apply (f_equal length) in EF.
    rewrite length_take, length_drop, length_app, length_replicate in EF.
    lia.
  - apply orb_false_iff in Esci as [E1 E2].
    apply Z.ltb_ge in E1. apply Z.leb_gt in E2.
    destruct (Z.leb_spec 0 x) as [H0|H0].
    + (* digits, a point, digits *)
      rewrite !substring_digits, ?drop_0.
      destruct (with_point_digits (digits_string (take (Z.to_nat (x + 1)) ds))
                  (take (Z.to_nat (5 - x)) (drop (Z.to_nat (x + 1)) ds)))
        as (F & z & EF & HF & ->).
      { apply Forall_take, Forall_drop. exact Hds. }
      exists (take (Z.to_nat (x + 1)) ds), F, None, z.
      split; [cbn [exponent_part]; rewrite string_app_nil_r; reflexivity|].
      split; [apply Forall_take; exact Hds|].
      split.
      { destruct ds as [|a ds]; [discriminate|].
        replace (Z.to_nat (x + 1)) with (S (Z.to_nat x)) by lia. discriminate. }
      split; [exact HF|]. split; [exact I|].
      assert (Eall : take (Z.to_nat (x + 1)) ds ++ F ++ replicate z 0 = ds).
      { rewrite <- EF. rewrite (take_ge (drop _ ds)); [apply take_drop|].
        rewrite length_drop. lia. }
      split.
      { rewrite <- digits_value_stripped, <- app_assoc, Eall. exact Hval. }
      split; [|split; [exact Hm|exact Hrel]].
      cbn [exponent_value]. apply (f_equal length) in EF.
      rewrite length_take, length_drop, length_app, length_replicate in EF.
      lia.
    + (* 0, a point, zeros and digits *)
      rewrite zeros_digits, <- digits_string_app.
      change "0"%string with (digits_string [0]).
      destruct (with_point_digits (digits_string [0])
                  (replicate (Z.to_nat (- x - 1)) 0 ++ ds))
        as (F & z & EF & HF & ->).
      { apply Forall_app. split; [apply digit_zeros|exact Hds]. }
      exists [0], F, None, z.
      split; [cbn [exponent_part]; rewrite string_app_nil_r; reflexivity|].
      split; [constructor; [unfold digit; lia|constructor]|].
      split; [discriminate|]. split; [exact HF|]. split; [exact I|].
      split.
      { rewrite <- Hval.
        rewrite <- (digits_value_leading_zeros (Z.to_nat (- x - 1)) ds).
        rewrite EF.
        change ([0] ++ F) with (replicate 1 0 ++ F).
        rewrite digits_value_leading_zeros.
        symmetry. apply digits_value_stripped. }
      split; [|split; [exact Hm|exact Hrel]].
      cbn [exponent_value]. apply (f_equal length) in EF.
      rewrite !length_app, !length_replicate in EF. lia.
Qed.

Lemma pow10_Q_pos (e : Z) : (0 < 10 ^ e)%Q.
Proof. apply Qpower_0_lt. reflexivity. Qed.

Lemma pow10_of_Z (e : Z) : 0 <= e -> (10 ^ e == inject_Z (10 ^ e))%Q.
Proof. intros He. rewrite Zpower_Qpower by exact He. reflexivity. Qed.

Lemma pow10_split (a b : Z) : (10 ^ (a + b) == 10 ^ a * 10 ^ b)%Q.
Proof. apply Qpower_plus. discriminate. Qed.

Lemma scale10_value (n e : Z) : (scale10 n e == inject_Z n * 10 ^ e)%Q.
Proof.
  unfold scale10. destruct (Z.leb_spec 0 e) as [He|He]; cbn [this Q2Qc];
    rewrite Qred_correct.
  - rewrite inject_Z_mult, (pow10_of_Z e He). reflexivity.
  - replace e with (- - e) at 2 by lia. rewrite Qpower_opp.
    rewrite (pow10_of_Z (- e)) by lia. rewrite Qmake_Qdiv.
    rewrite Z2Pos.id by (apply Z.pow_pos_nonneg; lia). reflexivity.
Qed.

Lemma sign_before_digit (a : Z) (s : string) :
  digit a ->
  take_sign (skip_spaces (String (digit_char a) s))
  = (false, String (digit_char a) s).
Proof. intros H. digit_case H; reflexivity. Qed.

Lemma has_charb_digits (c : ascii) (ds : list Z) :
  is_digit c = false -> Forall digit ds ->
  has_charb c (digits_string ds) = false.
Proof.
  intros Hc. induction 1 as [|a ds Ha _ IH]; [reflexivity|].
  cbn [digits_string foldr has_charb]. fold (digits_string ds). rewrite IH.
  destruct (Ascii.eqb_spec (digit_char a) c) as [E|]; [|reflexivity].
  destruct (digit_char_is_digit a Ha) as [Hd _]. congruence.
Qed.

(** A numeral holds neither a comma nor a line feed. *)
Lemma numeral_plain (c : ascii) (I F : list Z) (E : option (bool * list Z)) :
  c = comma \/ c = newline ->
  Forall digit I -> Forall digit F ->
  match E with
  | Some (_, ds) => Forall digit ds /\ ds <> []
  | None => True
  end ->
  has_charb c (digits_string I ++ point_part F ++ exponent_part E) = false.
Proof.
  intros Hc HI HF HE.
  assert (Hd : is_digit c = false) by (destruct Hc as [->| ->]; reflexivity).
  rewrite !has_charb_app, (has_charb_digits c I Hd HI). cbn [orb].
  apply orb_false_iff. split.
  - destruct F as [|b F]; [reflexivity|].
    cbn [point_part has_charb]. rewrite (has_charb_digits c _ Hd HF).
    destruct Hc as [->| ->]; reflexivity.
  - destruct E as [[negative ds]|]; [|reflexivity]. destruct HE as [Hds _].
    cbn [exponent_part has_charb]. rewrite (has_charb_digits c _ Hd Hds).
    destruct Hc as [->| ->], negative; reflexivity.
Qed.

(** What is printed for [n / d > 0] is read back as a value [r]: the six
    digits [m] at the exponent [x], which are the quotient rounded. *)
Lemma printed_positive (n d : Z) :
  0 < n -> 0 < d ->
  exists r : Qc,
    clean_field (show_positive n d) /\
    take_sign (skip_spaces (show_positive n d)) = (false, show_positive n d) /\
    (forall negative : bool,
        parse_unsigned negative (show_positive n d)
        = Returned (FNum (if negative then (- r)%Qc else r))) /\
    let x0 := decimal_exponent n d in
    let m0 := if x0 <=? 5 then round_half_even (n * 10 ^ (5 - x0)) d
              else round_half_even n (d * 10 ^ (x0 - 5)) in
    (r == inject_Z m0 * 10 ^ (x0 - 5))%Q.
Proof.
  intros Hn Hd.
  destruct (show_positive_numeral n d Hn Hd)
    as (m & x & I & F & E & z & -> & HI & Hne & HF & HE & Hval & Hexp & Hm & Hrel).
  exists (scale10 (digits_value (I ++ F))
            (exponent_value E - Z.of_nat (length F))).
  split; [|split; [|split]].
  - split; [|split].
    + destruct I as [|a I]; [contradiction|]. discriminate.
    + apply numeral_plain; auto.
    + apply numeral_plain; auto.
  - destruct I as [|a I]; [contradiction|].
    inversion HI; subst. apply sign_before_digit. assumption.
  - intros negative. apply parse_numeral; assumption.
  - cbv zeta in Hrel |- *. rewrite scale10_value, Hexp.
    replace (x - 5 + Z.of_nat z) with (Z.of_nat z + (x - 5)) by lia.
    rewrite pow10_split, (pow10_of_Z (Z.of_nat z)) by lia.
    rewrite Qmult_assoc, <- inject_Z_mult, Hval.
    destruct Hrel as [[-> ->]|(E0 & -> & ->)]; [reflexivity|].
    rewrite E0. replace (decimal_exponent n d + 1 - 5)
      with (1 + (decimal_exponent n d - 5)) by lia.
    rewrite pow10_split. change (10 ^ 1)%Q with 10%Q.
    change (inject_Z 100000) with 100000%Q.
    change (inject_Z 1000000) with 1000000%Q. ring.
Qed.

Lemma round_half_even_quotient (N D : Z) :
  0 < D ->
  (inject_Z N / inject_Z D - (1 # 2) <= inject_Z (round_half_even N D)
   <= inject_Z N / inject_Z D + (1 # 2))%Q.
Proof.
  intros HD. pose proof (nearest_integer (N # Z.to_pos D)) as H.
  cbn [Qnum Qden] in H. rewrite Z2Pos.id in H by exact HD.
  rewrite Qmake_Qdiv, Z2Pos.id in H by exact HD. exact H.
Qed.

Lemma inject_Z_nonzero (k : Z) : 0 < k -> ~ (inject_Z k == 0)%Q.
Proof.
  intros Hk E. unfold Qeq, inject_Z in E. cbn [Qnum Qden] in E. lia.
Qed.

(** Six digits: the value read back is the quotient up to half a unit of
    the sixth digit. *)
Lemma six_digits_error (n d : Z) :
  0 < n -> 0 < d ->
  let x0 := decimal_exponent n d in
  let m0 := if x0 <=? 5 then round_half_even (n * 10 ^ (5 - x0)) d
            else round_half_even n (d * 10 ^ (x0 - 5)) in
  (Qabs (inject_Z m0 * 10 ^ (x0 - 5) - inject_Z n / inject_Z d)
   <= (1 # 100000) * (inject_Z n / inject_Z d))%Q.
Proof.
  intros Hn Hd. cbv zeta.
  destruct (decimal_exponent_spec n d Hn Hd) as [Hfit Hnot].
  set (x0 := decimal_exponent n d) in *.
  destruct (scaled_range n d x0 Hn Hd Hfit Hnot) as [Hsmall Hlarge].
  pose proof (pow10_Q_pos (x0 - 5)) as HP.
  pose proof (inject_Z_nonzero d Hd) as Hd0.
  assert (Hcore : forall N D : Z,
             0 < D -> 100000 * D <= N ->
             (inject_Z N / inject_Z D * 10 ^ (x0 - 5)
              == inject_Z n / inject_Z d)%Q ->
             (Qabs (inject_Z (round_half_even N D) * 10 ^ (x0 - 5)
                    - inject_Z n / inject_Z d)
              <= (1 # 100000) * (inject_Z n / inject_Z d))%Q).
  { intros N D HD HN Hq.
    destruct (round_half_even_quotient N D HD) as [H1 H2].
    assert (Ht : (100000 <= inject_Z N / inject_Z D)%Q).
    { apply Qle_shift_div_l.
      - change 0%Q with (inject_Z 0). rewrite <- Zlt_Qlt. exact HD.
      - change 100000%Q with (inject_Z 100000).
        rewrite <- inject_Z_mult, <- Zle_Qle. exact HN. }
    set (t := (inject_Z N / inject_Z D)%Q) in *.
    set (P := (10 ^ (x0 - 5))%Q) in *.
    set (q := (inject_Z n / inject_Z d)%Q) in *.
    set (r := inject_Z (round_half_even N D)) in *.
    assert (H1' : ((t - (1 # 2)) * P <= r * P)%Q)
      by (apply Qmult_le_compat_r; [exact H1|apply Qlt_le_weak; exact HP]).
    assert (H2' : (r * P <= (t + (1 # 2)) * P)%Q)
      by (apply Qmult_le_compat_r; [exact H2|apply Qlt_le_weak; exact HP]).
    assert (Ht' : (100000 * P <= t * P)%Q)
      by (apply Qmult_le_compat_r; [exact Ht|apply Qlt_le_weak; exact HP]).
    apply Qabs_Qle_condition.
    clearbody t P q r. split; lra. }
  destruct (Z.leb_spec x0 5) as [H5|H5].
  - apply Hcore; [exact Hd|apply Hsmall; exact H5|].
    rewrite inject_Z_mult, <- (pow10_of_Z (5 - x0)) by lia.
    assert (E : (10 ^ (5 - x0) * 10 ^ (x0 - 5) == 1)%Q).
    { rewrite <- pow10_split. replace (5 - x0 + (x0 - 5)) with 0 by lia.
      reflexivity. }
    set (A := (10 ^ (5 - x0))%Q) in *. set (B := (10 ^ (x0 - 5))%Q) in *.
    transitivity (inject_Z n / inject_Z d * (A * B))%Q.
    + field. exact Hd0.
    + rewrite E. ring.
  - pose proof (pow10_pos (x0 - 5) ltac:(lia)) as Hp.
    apply Hcore; [nia|apply Hlarge; exact H5|].
    rewrite inject_Z_mult, <- (pow10_of_Z (x0 - 5)) by lia.
    field. split; first [exact Hd0|apply Qpower_not_0; discriminate].
Qed.

(** An integer from 1 to 999999 is printed with all its digits. *)
Lemma six_digits_integer (k : Z) :
  1 <= k < 1000000 ->
  let x0 := decimal_exponent k 1 in
  let m0 := if x0 <=? 5 then round_half_even (k * 10 ^ (5 - x0)) 1
            else round_half_even k (1 * 10 ^ (x0 - 5)) in
  (inject_Z m0 * 10 ^ (x0 - 5) == inject_Z k)%Q.
Proof.
  intros Hk. cbv zeta.
  destruct (decimal_exponent_spec k 1 ltac:(lia) ltac:(lia)) as [Hfit Hnot].
  set (x0 := decimal_exponent k 1) in *.
  assert (Hx : 0 <= x0 <= 5).
  { unfold fits10 in *. split.
    - destruct (Z.leb_spec 0 x0) as [|Hneg]; [assumption|]. exfalso.
      apply Hnot. destruct (Z.leb_spec 0 (x0 + 1)).
      + replace (x0 + 1) with 0 by lia. cbn. lia.
      + pose proof (pow10_pos (- (x0 + 1)) ltac:(lia)). nia.
    - destruct (Z.leb_spec x0 5) as [|Hbig]; [assumption|]. exfalso.
      replace (0 <=? x0) with true in Hfit by (symmetry; apply Z.leb_le; lia).
      assert (10 ^ 6 <= 10 ^ x0) by (apply Z.pow_le_mono_r; lia).
      change (10 ^ 6) with 1000000 in *. lia. }
  replace (x0 <=? 5) with true by (symmetry; apply Z.leb_le; lia).
  rewrite (round_half_even_exact _ 1 (k * 10 ^ (5 - x0))) by lia.
  rewrite inject_Z_mult, <- (pow10_of_Z (5 - x0)) by lia.
  rewrite <- Qmult_assoc, <- pow10_split.
  replace (5 - x0 + (x0 - 5)) with 0 by lia. change (10 ^ 0)%Q with 1%Q. ring.
Qed.

Lemma Qc_of_fraction (n : Z) (d : positive) (H : Qred (n # d) = n # d) :
  (Qcmake (n # d) H == inject_Z n / inject_Z (Zpos d))%Q.
Proof. cbn [this]. apply Qmake_Qdiv. Qed.

(** Every value is printed as a text without comma or line feed that is
    read back as the value to six significant digits. *)
Lemma printed_value (v : fp) :
  clean_field (show_float_g v) /\
  exists w : fp,
    stof_decimal (show_float_g v) = Returned w /\ six_digits v w.
Proof.
  destruct v as [q|[|]|].
  2: { split; [repeat split; (reflexivity || discriminate)|].
       exists (FInf true). split; reflexivity. }
  2: { split; [repeat split; (reflexivity || discriminate)|].
       exists (FInf false). split; reflexivity. }
  2: { split; [repeat split; (reflexivity || discriminate)|].
       exists FNaN. split; [reflexivity|exact I]. }
  destruct q as [[n d] Hcanon]. cbn [show_float_g this Qnum Qden].
  destruct n as [|p|p].
  - (* zero *)
    split; [repeat split; (reflexivity || discriminate)|].
    exists (FNum (Q2Qc 0)). split.
    + apply returned_same_eq. vm_compute. reflexivity.
    + cbn [six_digits this Q2Qc]. split.
      * assert (E : (0 # d == 0)%Q) by reflexivity.
        rewrite E. vm_compute. discriminate.
      * intros k _ _. apply Qc_is_canon. reflexivity.
  - (* positive *)
    destruct (printed_positive (Zpos p) (Zpos d) ltac:(lia) ltac:(lia))
      as (r & Hclean & Hsign & Hparse & Hval).
    cbv zeta in Hval. split; [exact Hclean|].
    exists (FNum r). split.
    + rewrite stof_decimal_unfold, Hsign. apply (Hparse false).
    + cbn [six_digits this]. split.
      * pose proof (six_digits_error (Zpos p) (Zpos d) ltac:(lia) ltac:(lia))
          as Herr. cbv zeta in Herr.
        rewrite <- Hval, <- !Qmake_Qdiv in Herr.
        rewrite (Qabs_pos (Zpos p # d)) by (unfold Qle; cbn; lia).
        exact Herr.
      * intros k Hk Eq. apply Qc_is_canon. cbn [this].
        apply (f_equal this) in Eq. cbn [this Q2Qc] in Eq.
        rewrite Qred_of_Z in Eq. injection Eq as <- ->.
        rewrite Hval.
        rewrite (six_digits_integer (Zpos p)) by lia. reflexivity.
  - (* negative *)
    destruct (printed_positive (Zpos p) (Zpos d) ltac:(lia) ltac:(lia))
      as (r & (Hne & Hc & Hn) & Hsign & Hparse & Hval).
    cbv zeta in Hval. split.
    { split; [discriminate|]. cbn [has_charb]. rewrite Hc, Hn.
      split; reflexivity. }
    exists (FNum (- r)%Qc). split.
    + rewrite stof_decimal_unfold. cbn [skip_spaces take_sign fst snd].
      apply (Hparse true).
    + cbn [six_digits this]. 
      assert (Eneg : (Zneg p # d == - (Zpos p # d))%Q) by reflexivity.
      assert (Er : ((- r)%Qc == - r)%Q).
      { unfold Qcopp. cbn [this Q2Qc]. apply Qred_correct. }
      split.
      * pose proof (six_digits_error (Zpos p) (Zpos d) ltac:(lia) ltac:(lia))
          as Herr. cbv zeta in Herr.
        rewrite <- Hval, <- !Qmake_Qdiv in Herr.
        rewrite Er, Eneg, Qabs_opp.
        rewrite (Qabs_pos (Zpos p # d)) by (unfold Qle; cbn; lia).
        assert (E2 : (- r - - (Zpos p # d) == - (r - (Zpos p # d)))%Q) by ring.
        rewrite E2, Qabs_opp. exact Herr.
      * intros k Hk Eq. apply Qc_is_canon. rewrite Er. cbn [this].
        apply (f_equal this) in Eq. cbn [this Q2Qc] in Eq.
        rewrite Qred_of_Z in Eq. injection Eq as <- ->.
        rewrite Hval.
        rewrite (six_digits_integer (Zpos p)) by lia. reflexivity.
Qed.

Lemma printed_values (values : list fp) :
  Forall (printable show_float_g stof_decimal reread_g) values /\
  Forall2 six_digits values (map reread_g values).
Proof.
  induction values as [|v values [IH1 IH2]]; [split; constructor|].
  destruct (printed_value v) as (Hclean & w & Hw & Hsix).
  assert (E : reread_g v = w) by (unfold reread_g; rewrite Hw; reflexivity).
  split.
  - constructor; [|exact IH1]. split; [exact Hclean|]. rewrite E. exact Hw.
  - cbn [map]. constructor; [rewrite E; exact Hsix|exact IH2].
Qed.

(** C4 (amended). For every finite sequence of records whose imageIds hold
    neither a comma nor a line feed and whose values are in the range of
    float (zero, a magnitude from 10^-37 to 10^38, an infinity or NaN; a text
    outside the range of float makes [std::stof] throw), writing the store
    and reading it back gives as many records, the same imageIds in the same
    order, and every value to six significant digits: a finite value with a
    relative error of 10^-5 at most (the digits dropped by the printer cost
    5 * 10^-6 at most, which leaves room for the rounding of the text to
    the nearest float), an integer below 10^6 (such as the channel values of
    the baseline features) without any, an infinity or NaN as itself. *)
Theorem C4_store_round_trip (records : list (string * list fp)) :
  Forall (fun r : string * list fp => clean_id r.1 /\ Forall float_range r.2)
    records ->
  exists readBack : list (string * list fp),
    read_records stof_decimal (write_store show_float_g records)
    = Returned readBack /\
    length readBack = length records /\
    map fst readBack = map fst records /\
    Forall2 (fun r b : string * list fp => Forall2 six_digits r.2 b.2)
      records readBack.
Proof.
  intros Hids.
  exists (map (fun r : string * list fp => (r.1, map reread_g r.2)) records).
  split; [|split; [|split]].
  - apply read_written. eapply Forall_impl; [|exact Hids].
    intros r [Hr _]. split; [exact Hr|apply printed_values].
  - apply length_map.
  - rewrite map_map. reflexivity.
  - clear Hids. induction records as [|r records IH]; [constructor|].
    cbn [map]. constructor; [apply printed_values|exact IH].
Qed.

Lemma C4_witness :
  exists readBack : list (string * list fp),
    read_records stof_decimal (write_store show_float_g two_records)
    = Returned readBack /\
    length readBack = length two_records /\
    map fst readBack = map fst two_records /\
    Forall2 (fun r b : string * list fp => Forall2 six_digits r.2 b.2)
      two_records readBack.
Proof.
  apply (C4_store_round_trip two_records).
  repeat (constructor; [split; [repeat constructor|]|]); [| |constructor].
  - repeat (constructor;
            [first [left; reflexivity
                   |right; split; vm_compute; discriminate]|]).
    constructor.
  - constructor.
Defined.

(** A file name may hold a line feed: the record of such an image is written
    as one record and read back as two, "a" and "b".  And six digits are
    fewer than a float holds: the float nearest to one third is read back as
    0.333333, off by more than 2^-23 of its value. *)
Lemma C4_counterexample :
  has_charb comma id_of_two_lines = false /\
  (exists readBack : list (string * list fp),
      read_records stof_decimal
        (write_store show_float_g [(id_of_two_lines, [fp_of_Z 1])])
      = Returned readBack /\
      map fst readBack = ["a"; "b"]%string /\
      length readBack <> length [(id_of_two_lines, [fp_of_Z 1])]) /\
  fp_same_outcome
    (stof_decimal (show_float_g (fp_of_Q 11184811 33554432)))
    (Returned (fp_of_Q 333333 1000000)) = true /\
  fp_ltb (fp_mul (fp_of_Q 1 8388608) (fp_of_Q 11184811 33554432))
    (fp_abs (fp_sub (fp_of_Q 333333 1000000) (fp_of_Q 11184811 33554432)))
  = true.
Proof.
  split; [reflexivity|]. split.
  - eexists. split; [vm_compute; reflexivity|].
    split; [reflexivity|]. discriminate.
  - split; vm_compute; reflexivity.
Qed.
